(** * Firmware image tools: partition table decoder and resource extractor

    A shallow embedding of the two scripts of the repository,
    [01-breaker.py] (partition table decoding of a firmware image) and
    [03-bitmap.py] (resource scanning, boundary inference, RGB565 bitmap
    reconstruction and manifest building), with the properties of their
    specification stated and proved over the embedding.

    Conventions of the embedding:
    - a Python [bytes] object is a [list byte]; a byte's value is
      [byte_val b : Z], in [0, 256);
    - Python integers are [Z]; positions in a buffer are [nat];
    - a slice [data[a:b]] is [slice data a b]: it never fails and is cut
      short at the end of the buffer, as in Python;
    - [struct.unpack] and [struct.pack] raise [struct.error] on a buffer of
      the wrong length or on a value outside the format's range: the
      embedding returns [Raise struct_error];
    - console output is not modelled;
    - the output directory of [03-bitmap.py] is a finite map from file names
      to file contents. It is taken empty when the run starts, as
      [os.makedirs] leaves it (a directory that is already there keeps the
      files that the run does not replace). It is the directory of a POSIX
      system: names are compared byte by byte, opening a name for writing
      creates the file or replaces its content, and opening one of the
      names [""], ["."] and [".."], which denote the directory itself or its
      parent, raises [IsADirectoryError]. Failures that depend on the
      machine (access rights, a full disk) are not modelled. *)

From Stdlib Require Import ZArith Lia.
From Stdlib Require Strings.Byte.
From Stdlib Require Import Strings.Ascii.
From stdpp Require Import gmap strings list fin_maps sorting.

Open Scope Z_scope.

(** ** Bytes, slices and the [struct] module *)

Abbreviation byte := Byte.byte.

#[global] Instance byte_eq_dec : EqDecision byte := Byte.byte_eq_dec.

Definition byte_val (b : byte) : Z := Z.of_N (Byte.to_N b).

(** [data[a:b]] for [0 <= a], [0 <= b]. *)
Definition slice {A} (data : list A) (a b : nat) : list A :=
  take (b - a) (drop a data).

(** Exceptions that the scripts can raise on their own. *)
Inductive exn : Type :=
  | struct_error.

Inductive result (A : Type) : Type :=
  | Ok (a : A)
  | Raise (e : exn).
Arguments Ok {A} a.
Arguments Raise {A} e.

#[global] Instance result_ret : MRet result := fun _ a => Ok a.
#[global] Instance result_bind : MBind result := fun _ _ f m =>
  match m with
  | Ok a => f a
  | Raise e => Raise e
  end.

(** Little-endian value of a byte string. *)
Fixpoint le_decode (bs : list byte) : Z :=
  match bs with
  | [] => 0
  | b :: rest => byte_val b + 256 * le_decode rest
  end.

(** The [k]-th 32-bit little-endian word of a chunk. *)
Definition word32 (k : nat) (chunk : list byte) : Z :=
  le_decode (slice chunk (4 * k) (4 * k + 4)).

(** [struct.unpack('<I', chunk)[0]]. *)
Definition unpack_I (chunk : list byte) : result Z :=
  if decide (length chunk = 4%nat) then Ok (word32 0 chunk)
  else Raise struct_error.

(** [struct.unpack('<IIII', chunk)]. *)
Definition unpack_IIII (chunk : list byte) : result (Z * Z * Z * Z) :=
  if decide (length chunk = 16%nat)
  then Ok (word32 0 chunk, word32 1 chunk, word32 2 chunk, word32 3 chunk)
  else Raise struct_error.

(** Reference reading of a 32-bit little-endian word at a position of a
    buffer, byte by byte (a byte outside the buffer reads as 0). *)
Definition byte_at (data : list byte) (p : nat) : Z :=
  match data !! p with
  | Some b => byte_val b
  | None => 0
  end.

Definition u32_le_at (data : list byte) (p : nat) : Z :=
  byte_at data p + 2 ^ 8 * byte_at data (p + 1)
  + 2 ^ 16 * byte_at data (p + 2) + 2 ^ 24 * byte_at data (p + 3).

(** ** [01-breaker.py]: the partition table decoder *)

Module Breaker.

(** One value of the [parts] dictionary:
    [{'offset': .., 'size': .., 'data': ..}]. *)
Record Partition : Type := mkPartition {
  p_offset : Z;
  p_size : Z;
  p_data : option (list byte)
}.

Definition standard_entries : list (nat * string) :=
  [ (0x70%nat, "part_0_flag");
    (0x78%nat, "part_1_firmware_a");
    (0x80%nat, "part_2_firmware_b");
    (0xCC%nat, "part_3_resource");
    (0x14C%nat, "part_5_main_fs") ].

Definition p4_pos : nat := 0xF4%nat.

(** The loop over [standard_entries]: one Type-A header per entry. *)
Fixpoint decode_standard (data : list byte) (entries : list (nat * string))
    (parts : gmap string Partition) : result (gmap string Partition) :=
  match entries with
  | [] => Ok parts
  | (header_pos, name) :: rest =>
      let chunk := slice data header_pos (header_pos + 16) in
      '(offset, size, next_offset, _) ← unpack_IIII chunk;
      decode_standard data rest
        (<[name := mkPartition offset size None]> parts)
  end.

Definition analyze_hybrid_headers (data : list byte)
    : result (gmap string Partition) :=
  parts ← decode_standard data standard_entries ∅;
  let chunk := slice data p4_pos (p4_pos + 16) in
  '(val1, val2, val3, _) ← unpack_IIII chunk;
  let p4_offset := val2 in
  let p4_size := val3 in
  let name := "part_4_audio_dsp" in
  Ok (<[name := mkPartition p4_offset p4_size None]> parts).

(** The six logical partition names. *)
Definition partition_names : gset string :=
  {[ "part_0_flag"; "part_1_firmware_a"; "part_2_firmware_b";
     "part_3_resource"; "part_4_audio_dsp"; "part_5_main_fs" ]}.

(** Every fixed header position with the name it decodes. *)
Definition header_table : list (nat * string) :=
  standard_entries ++ [(p4_pos, "part_4_audio_dsp")].

(** The smallest buffer length for which all six header reads fit:
    [0x14C + 16]. *)
Definition min_image_length : nat := 0x15C%nat.

End Breaker.

(** ** [03-bitmap.py]: resource scanning and bitmap reconstruction *)

Module Bitmap.

Definition MAGIC_SIG : list byte :=
  [Byte.x77; Byte.x00; Byte.x00; Byte.x3a; Byte.x75].

(** *** [swap_bytes_16bit] *)

(** The extended slice [l[0::2]]; [arr[start::2]] is
    [every_other (drop start arr)]. *)
Fixpoint every_other {A} (l : list A) : list A :=
  match l with
  | [] => []
  | x :: rest =>
      x :: match rest with
           | [] => []
           | _ :: rest' => every_other rest'
           end
  end.

(** The slice assignment [arr[i::2] = vals], one element at a time. Python
    requires [vals] to be as long as the slice; [swap_bytes_16bit] only
    assigns slices of an even-length array, where both have half its
    length. *)
Fixpoint store_every_other {A} (i : nat) (vals : list A) (arr : list A)
    : list A :=
  match vals with
  | [] => arr
  | v :: vs => store_every_other (i + 2) vs (<[i := v]> arr)
  end.

Definition swap_bytes_16bit (data : list byte) : list byte :=
  let arr := data in
  let arr :=
    if decide ((length arr mod 2)%nat ≠ 0%nat)
    then slice arr 0 (length arr - 1)
    else arr in
  (* the right-hand side is evaluated first, then both slices are stored *)
  let odds := every_other (drop 1 arr) in
  let evens := every_other (drop 0 arr) in
  let arr := store_every_other 0 odds arr in
  let arr := store_every_other 1 evens arr in
  arr.

(** *** [get_stride_info], [restride_to_bmp]

    [width] and [height] are Python integers; slices below are taken at
    non-negative positions, which is the case for every non-negative [width]
    and [height] (the script passes fields decoded as unsigned words). *)

Definition get_stride_info (width : Z) : Z * Z * Z :=
  let src_stride := width * 2 in
  let dst_stride := Z.land (src_stride + 3) (Z.lnot 3) in
  let padding := dst_stride - src_stride in
  (src_stride, dst_stride, padding).

Definition zeros (n : Z) : list byte := replicate (Z.to_nat n) Byte.x00.

(** One iteration of the row loop, for row [y], on the output so far. *)
Definition restride_row (raw_data : list byte) (src_stride padding : Z)
    (output : list byte) (y : nat) : list byte :=
  let src_start := Z.of_nat y * src_stride in
  let src_end := src_start + src_stride in
  let output :=
    output ++ slice raw_data (Z.to_nat src_start) (Z.to_nat src_end) in
  if decide (padding > 0) then output ++ zeros padding else output.

Definition restride_to_bmp (raw_data : list byte) (width height : Z)
    : list byte :=
  let '(src_stride, dst_stride, padding) := get_stride_info width in
  if decide (padding = 0 ∧ Z.of_nat (length raw_data) = src_stride * height)
  then raw_data
  else
    let expected_len := src_stride * height in
    let raw_data :=
      if decide (Z.of_nat (length raw_data) < expected_len)
      then raw_data ++ zeros (expected_len - Z.of_nat (length raw_data))
      else raw_data in
    foldl (restride_row raw_data src_stride padding) []
      (seq 0 (Z.to_nat height)).

(** *** [create_bmp_header] *)

Definition byte_of_Z (v : Z) : byte :=
  default Byte.x00 (Byte.of_N (Z.to_N (v mod 256))).

(** [n] little-endian bytes of [v] (two's complement for negative [v]). *)
Fixpoint le_encode (n : nat) (v : Z) : list byte :=
  match n with
  | O => []
  | S k => byte_of_Z v :: le_encode k (v / 256)
  end.

(** [struct.pack('<I', v)], [struct.pack('<i', v)], [struct.pack('<H', v)]. *)
Definition pack_I (v : Z) : result (list byte) :=
  if decide (0 ≤ v < 2 ^ 32) then Ok (le_encode 4 v) else Raise struct_error.

Definition pack_i (v : Z) : result (list byte) :=
  if decide (- 2 ^ 31 ≤ v < 2 ^ 31) then Ok (le_encode 4 v)
  else Raise struct_error.

Definition pack_H (v : Z) : result (list byte) :=
  if decide (0 ≤ v < 2 ^ 16) then Ok (le_encode 2 v) else Raise struct_error.

Definition create_bmp_header (width height : Z) : result (list byte) :=
  let '(src_stride, dst_stride, padding) := get_stride_info width in
  let image_size := dst_stride * height in
  let headers_size := 14 + 40 + 12 in
  let file_size := headers_size + image_size in
  let header := [Byte.x42; Byte.x4d] in
  b ← pack_I file_size; let header := header ++ b in
  let header := header ++ [Byte.x00; Byte.x00; Byte.x00; Byte.x00] in
  b ← pack_I headers_size; let header := header ++ b in
  b ← pack_I 40; let header := header ++ b in
  b ← pack_i width; let header := header ++ b in
  b ← pack_i (- height); let header := header ++ b in
  b ← pack_H 1; let header := header ++ b in
  b ← pack_H 16; let header := header ++ b in
  b ← pack_I 3; let header := header ++ b in
  b ← pack_I image_size; let header := header ++ b in
  b ← pack_i 2835; let header := header ++ b in
  b ← pack_i 2835; let header := header ++ b in
  b ← pack_I 0; let header := header ++ b in
  b ← pack_I 0; let header := header ++ b in
  b ← pack_I 0xF800; let header := header ++ b in
  b ← pack_I 0x07E0; let header := header ++ b in
  b ← pack_I 0x001F; let header := header ++ b in
  Ok header.

(** *** [decode_raw_name], [sanitize_filename]

    A Python [str] is a [string]. Names come out of an ASCII decoding, so
    the character tests below are those of Python on ASCII characters. *)

(** [raw_bytes.find(b'\x00')]: position of the first null byte. *)
Definition find_null (raw_bytes : list byte) : option nat :=
  fst <$> list_find (λ b, b = Byte.x00) raw_bytes.

(** [raw_bytes.decode('ascii', errors='ignore')]: bytes above 0x7F are
    dropped. *)
Definition decode_ascii_ignore (raw_bytes : list byte) : string :=
  String.string_of_list_ascii
    (Ascii.ascii_of_byte <$> filter (λ b, byte_val b < 128) raw_bytes).

(** The [except] branch of the source (returning ["unknown"]) cannot be
    taken on a [bytes] argument: neither [find] nor a decoding with
    [errors='ignore'] raises. *)
Definition decode_raw_name (raw_bytes : list byte) : string :=
  let raw_bytes :=
    match find_null raw_bytes with
    | Some null_pos => slice raw_bytes 0 null_pos
    | None => raw_bytes
    end in
  decode_ascii_ignore raw_bytes.

Fixpoint str_map (f : ascii → ascii) (s : string) : string :=
  match s with
  | EmptyString => EmptyString
  | String c rest => String (f c) (str_map f rest)
  end.

(** [s.replace(old, new)] for one-character [old] and [new]. *)
Definition str_replace_char (old new : ascii) (s : string) : string :=
  str_map (λ c, if decide (c = old) then new else c) s.

Definition code (c : ascii) : nat := nat_of_ascii c.

(** [c.isalnum()] on an ASCII character. *)
Definition isalnum (c : ascii) : bool :=
  let n := code c in
  ((48 <=? n) && (n <=? 57) || (65 <=? n) && (n <=? 90)
   || (97 <=? n) && (n <=? 122))%nat.

(** [c in s] for a character [c]. *)
Fixpoint char_in (c : ascii) (s : string) : bool :=
  match s with
  | EmptyString => false
  | String d rest => bool_decide (c = d) || char_in c rest
  end.

(** The characters that [str.strip()] removes, among ASCII characters:
    tab, line feed, vertical tab, form feed, carriage return, the four
    separators 0x1C to 0x1F and the space. *)
Definition isspace (c : ascii) : bool :=
  let n := code c in
  ((9 <=? n) && (n <=? 13) || (28 <=? n) && (n <=? 32))%nat.

Fixpoint lstrip (s : string) : string :=
  match s with
  | EmptyString => EmptyString
  | String c rest => if isspace c then lstrip rest else s
  end.

Fixpoint rstrip (s : string) : string :=
  match s with
  | EmptyString => EmptyString
  | String c rest =>
      match rstrip rest with
      | EmptyString => if isspace c then EmptyString else String c EmptyString
      | r => String c r
      end
  end.

Definition strip (s : string) : string := rstrip (lstrip s).

Definition sanitize_filename (original_name : string) : string :=
  let safe :=
    str_replace_char "\" "_" (str_replace_char "/" "_" original_name) in
  strip
    (str_map (λ c, if isalnum c || char_in c "._-(), " then c else "_"%char)
       safe).

(** [c.lower()] on an ASCII character, and [s.lower()]. *)
Definition lower_char (c : ascii) : ascii :=
  let n := code c in
  if ((65 <=? n) && (n <=? 90))%nat then ascii_of_nat (n + 32) else c.

Definition lower (s : string) : string := str_map lower_char s.

(** [s.endswith(suffix)]. *)
Definition endswith (s suffix : string) : bool :=
  let n := String.length s in
  let m := String.length suffix in
  (m <=? n)%nat && String.eqb (String.substring (n - m) m s) suffix.

(** *** [main]: the scan for resource descriptors *)

(** One element of [entries]. *)
Record entry : Type := mkEntry {
  meta_pos : Z;
  e_offset : Z;
  e_width : Z;
  e_height : Z;
  original_name : string
}.

(** [data.find(sub, start)] through the suffix [l = data[i:]]: [None] is
    Python's [-1]. *)
Fixpoint find_in (sub l : list byte) (i : nat) : option nat :=
  if bool_decide (take (length sub) l = sub) then Some i
  else
    match l with
    | [] => None
    | _ :: rest => find_in sub rest (S i)
    end.

Definition bytes_find (data sub : list byte) (start : nat) : option nat :=
  find_in sub (drop start data) start.

(** The body of the [try] block at a match: [Raise] when an [unpack]
    raises, [Ok None] when the validation rejects the record. *)
Definition read_entry (data : list byte) (pos : nat)
    : result (option entry) :=
  let file_size := Z.of_nat (length data) in
  offset ← unpack_I (slice data (pos + 20) (pos + 24));
  width ← unpack_I (slice data (pos + 24) (pos + 28));
  height ← unpack_I (slice data (pos + 28) (pos + 32));
  let name_bytes := slice data (pos + 32) (pos + 96) in
  let original_name := decode_raw_name name_bytes in
  if decide (offset < file_size ∧ (0 < String.length original_name)%nat)
  then Ok (Some (mkEntry (Z.of_nat pos) offset width height original_name))
  else Ok None.

(** The [while True] loop. Every iteration moves [start_pos] forward, so
    [length data + 1] iterations are enough; [None] means that the fuel ran
    out before the loop ended. *)
Fixpoint scan_loop (fuel : nat) (data : list byte) (start_pos : nat)
    (entries : list entry) : option (list entry) :=
  match fuel with
  | O => None
  | S fuel' =>
      match bytes_find data MAGIC_SIG start_pos with
      | None => Some entries
      | Some pos =>
          let entries :=
            match read_entry data pos with
            | Ok (Some e) => entries ++ [e]
            | Ok None => entries
            | Raise _ => entries        (* except: pass *)
            end in
          scan_loop fuel' data (pos + 1) entries
      end
  end.

Definition scan (data : list byte) : option (list entry) :=
  scan_loop (length data + 1) data 0 [].

(** *** [main]: boundary inference and the processing loop *)

(** [entries.sort(key=lambda x: x['offset'])]: Python's sort is stable. *)
Fixpoint insert_by_offset (e : entry) (l : list entry) : list entry :=
  match l with
  | [] => [e]
  | y :: rest =>
      if decide (e_offset e ≤ e_offset y) then e :: l
      else y :: insert_by_offset e rest
  end.

Definition sort_by_offset (entries : list entry) : list entry :=
  foldr insert_by_offset [] entries.

(** [min((e['meta_pos'] for e in entries), default=file_size)]. *)
Definition data_end_limit (entries : list entry) (file_size : Z) : Z :=
  match entries with
  | [] => file_size
  | e :: rest => foldl Z.min (meta_pos e) (meta_pos <$> rest)
  end.

(** The size computed for [entries[i]], whose data offset is [offset]. *)
Definition raw_size_at (entries : list entry) (data_end_limit file_size : Z)
    (i : nat) (offset : Z) : Z :=
  if decide (i < length entries - 1)%nat then
    match entries !! (i + 1)%nat with
    | Some next => e_offset next - offset
    | None => 0
    end
  else
    let raw_size := data_end_limit - offset in
    if decide (raw_size < 0) then file_size - offset else raw_size.

(** One element of [manifest]. *)
Record meta : Type := mkMeta {
  m_id : nat;
  original_firmware_name : string;
  original_offset : Z;
  original_raw_size : Z;
  m_width : Z;
  m_height : Z;
  is_image : bool;
  byte_swap_applied : bool;
  row_padding_bytes : Z;
  bmp_header_size : nat;
  saved_filename : string
}.

(** The test of the image pipeline: the two nested [if]s. *)
Definition image_test (width height raw_size : Z) : bool :=
  bool_decide (width > 0 ∧ height > 0)
  && (let expected_size := width * height * 2 in
      bool_decide (Z.abs (raw_size - expected_size) < 4096)).

(** The body of the processing loop for an entry that is kept, up to the
    [open]: the record for the manifest and the file to write, (name,
    content). *)
Definition process_entry (data : list byte) (i : nat) (e : entry)
    (raw_size : Z) : result (meta * (string * list byte)) :=
  let offset := e_offset e in
  let width := e_width e in
  let height := e_height e in
  let original_name := original_name e in
  let raw_data :=
    slice data (Z.to_nat offset) (Z.to_nat (offset + raw_size)) in
  let save_name_base := sanitize_filename original_name in
  if image_test width height raw_size then
    let '(_, _, padding) := get_stride_info width in
    let pixel_data := swap_bytes_16bit raw_data in
    let pixel_data := restride_to_bmp pixel_data width height in
    header ← create_bmp_header width height;
    let final_data := header ++ pixel_data in
    let save_name_base :=
      if negb (endswith (lower save_name_base) ".bmp")
      then (save_name_base +:+ ".bmp")%string else save_name_base in
    Ok (mkMeta i original_name offset raw_size width height
          true true padding (length header) save_name_base,
        (save_name_base, final_data))
  else
    Ok (mkMeta i original_name offset raw_size width height
          false false 0 0 save_name_base,
        (save_name_base, raw_data)).

(** The exceptions that can end the run: the [struct.error] of
    [create_bmp_header], and the [IsADirectoryError] of [open], with the
    path that was opened. *)
Inductive run_exn : Type :=
  | HeaderStructError
  | IsADirectoryError (path : string).

(** A file of the output directory: a resource file holds the bytes written
    to it, the manifest file the records dumped to it (the JSON text itself
    is not modelled). *)
Inductive file : Type :=
  | Binary (content : list byte)
  | Json (records : list meta).

Definition OUTPUT_DIR : string := "extracted_parts/resources".
Definition MANIFEST_NAME : string := "manifest.json".

(** [os.path.join(OUTPUT_DIR, name)], for a name without a ['/']. *)
Definition out_path (name : string) : string :=
  (OUTPUT_DIR +:+ "/" +:+ name)%string.

(** The names that [open] refuses: [OUTPUT_DIR/], [OUTPUT_DIR/.] and
    [OUTPUT_DIR/..] are directories. *)
Definition names_a_directory (name : string) : bool :=
  bool_decide (name ∈ [""; "."; ".."]).

(** [with open(out_path, 'wb') as out_f: out_f.write(final_data)]: the file
    is created, or the file of that name replaced. *)
Definition write_binary (dir : gmap string file) (name : string)
    (content : list byte) : gmap string file + run_exn :=
  if names_a_directory name then inr (IsADirectoryError (out_path name))
  else inl (<[name := Binary content]> dir).

(** What the run has produced so far: the list [manifest] and the files of
    the output directory. *)
Record run_state : Type := mkState {
  manifest : list meta;
  files : gmap string file
}.

(** [for i, entry in enumerate(entries)], from index [i] on, [rest] being
    [entries[i:]]. The second component is the exception that ended the
    loop, if any: the record of an entry is appended to the manifest after
    its file is written, so that neither is there when the body raises. *)
Fixpoint process_loop (data : list byte) (entries : list entry)
    (limit : Z) (i : nat) (rest : list entry) (st : run_state)
    : run_state * option run_exn :=
  match rest with
  | [] => (st, None)
  | e :: rest' =>
      let file_size := Z.of_nat (length data) in
      let raw_size := raw_size_at entries limit file_size i (e_offset e) in
      if decide (raw_size ≤ 0) then
        process_loop data entries limit (S i) rest' st
      else
        match process_entry data i e raw_size with
        | Ok (m, f) =>
            match write_binary (files st) f.1 f.2 with
            | inl files' =>
                process_loop data entries limit (S i) rest'
                  (mkState (manifest st ++ [m]) files')
            | inr err => (st, Some err)
            end
        | Raise struct_error => (st, Some HeaderStructError)
        end
  end.

(** [with open(MANIFEST_FILE, 'w') as f: json.dump(manifest, f, ...)]: the
    manifest goes to the same directory as the resources. *)
Definition write_manifest (st : run_state) : run_state :=
  mkState (manifest st) (<[MANIFEST_NAME := Json (manifest st)]> (files st)).

(** The run on the content of the input file, from the entries scanned:
    they are sorted and processed, and the manifest is written out when no
    exception ended the loop. *)
Definition process (data : list byte) (scanned : list entry)
    : run_state * option run_exn :=
  let file_size := Z.of_nat (length data) in
  let entries := sort_by_offset scanned in
  let limit := data_end_limit entries file_size in
  match process_loop data entries limit 0 entries (mkState [] ∅) with
  | (st, None) => (write_manifest st, None)
  | (st, Some err) => (st, Some err)
  end.

Definition main (data : list byte)
    : option (run_state * option run_exn) :=
  entries ← scan data;
  Some (process data entries).

End Bitmap.

(** ** [01-breaker.py]: extraction and the analyses of the partitions *)

Module BreakerRun.
Import Breaker.

(** The exceptions of this part of the script: a missing dictionary key, and
    the [struct.error] of an [unpack]. *)
Inductive py_exn : Type :=
  | KeyError (key : string)
  | StructError.

Inductive outcome (A : Type) : Type :=
  | Done (a : A)
  | Failed (e : py_exn).
Arguments Done {A} a.
Arguments Failed {A} e.

#[global] Instance outcome_ret : MRet outcome := fun _ a => Done a.
#[global] Instance outcome_bind : MBind outcome := fun _ _ f m =>
  match m with
  | Done a => f a
  | Failed e => Failed e
  end.

Definition lift {A} (r : result A) : outcome A :=
  match r with
  | Ok a => Done a
  | Raise struct_error => Failed StructError
  end.

(** [parts[key]]. *)
Definition getitem (parts : gmap string Partition) (key : string)
    : outcome Partition :=
  match parts !! key with
  | Some info => Done info
  | None => Failed (KeyError key)
  end.

(** The line printed by a continuity check: [PASS] with the common
    boundary, or [WARN] with the gap in bytes. *)
Inductive continuity : Type :=
  | PASS (boundary : Z)
  | WARN (gap : Z).

Definition check_continuity (before after : Partition) : continuity :=
  let p_end := p_offset before + p_size before in
  let p_start := p_offset after in
  if decide (p_end = p_start) then PASS p_end else WARN (p_start - p_end).

(** The body of the extraction loop for one partition: the partition after
    it, and the content of the file written, if any. Offsets and sizes are
    unsigned words in every dictionary the script builds. *)
Definition in_bounds (file_data : list byte) (info : Partition) : Prop :=
  ¬ (p_offset info + p_size info > Z.of_nat (length file_data)).

#[global] Instance in_bounds_dec file_data info :
  Decision (in_bounds file_data info).
Proof. unfold in_bounds. apply _. Defined.

Definition partition_bytes (file_data : list byte) (info : Partition)
    : list byte :=
  slice file_data (Z.to_nat (p_offset info))
    (Z.to_nat (p_offset info + p_size info)).

Definition extract_partition (file_data : list byte) (info : Partition)
    : Partition :=
  if decide (in_bounds file_data info)
  then mkPartition (p_offset info) (p_size info)
         (Some (partition_bytes file_data info))
  else info.

Definition written_file (file_data : list byte) (info : Partition)
    : option (list byte) :=
  if decide (in_bounds file_data info)
  then Some (partition_bytes file_data info)
  else None.

(** The result of [extract_and_verify]: the dictionary returned, the two
    continuity lines, and the files written, by partition name (partition
    [name] goes to the file [name.bin]). *)
Record extraction : Type := mkExtraction {
  ex_parts : gmap string Partition;
  ex_3_4 : continuity;
  ex_4_5 : continuity;
  ex_files : gmap string (list byte)
}.

Definition extract_and_verify (file_data : list byte)
    (parts : gmap string Partition) : outcome extraction :=
  p3 ← getitem parts "part_3_resource";
  p4 ← getitem parts "part_4_audio_dsp";
  let check_3_4 := check_continuity p3 p4 in
  p5 ← getitem parts "part_5_main_fs";
  let check_4_5 := check_continuity p4 p5 in
  Done (mkExtraction (extract_partition file_data <$> parts)
          check_3_4 check_4_5 (omap (written_file file_data) parts)).

(** *** [analyze_resource_table] *)

(** The 16-bit big-endian words of a buffer. *)
Fixpoint be_words (data : list byte) : list Z :=
  match data with
  | hi :: lo :: rest => (256 * byte_val hi + byte_val lo) :: be_words rest
  | _ => []
  end.

(** [struct.unpack(f'>{count}H', data)]. *)
Definition unpack_be_H (count : nat) (data : list byte) : result (list Z) :=
  if decide (length data = (2 * count)%nat) then Ok (be_words data)
  else Raise struct_error.

(** The loop that looks for the first [i] with [indices[i] != i], from
    index [i] on. *)
Fixpoint first_mismatch (indices : list Z) (i : nat) : option nat :=
  match indices with
  | [] => None
  | x :: rest =>
      if decide (x ≠ Z.of_nat i) then Some i else first_mismatch rest (S i)
  end.

Inductive table_structure : Type :=
  | StrictlyLinear
  | NonLinear (broken_at : nat) (example : list Z).

(** What [analyze_resource_table] prints. *)
Record table_report : Type := mkTableReport {
  size_warning : bool;
  total_entries : nat;
  structure : table_structure
}.

Definition analyze_resource_table (part_3_data : list byte)
    : result table_report :=
  let warning := bool_decide ((length part_3_data mod 2)%nat ≠ 0%nat) in
  let count := (length part_3_data / 2)%nat in
  indices ← unpack_be_H count part_3_data;
  match first_mismatch indices 0 with
  | None => Ok (mkTableReport warning count StrictlyLinear)
  | Some broken_at =>
      Ok (mkTableReport warning count
            (NonLinear broken_at (slice indices broken_at (broken_at + 10))))
  end.

(** *** [verify_firmware_execution] *)

(** [struct.unpack('<II', chunk)]. *)
Definition unpack_II (chunk : list byte) : result (Z * Z) :=
  if decide (length chunk = 8%nat) then Ok (word32 0 chunk, word32 1 chunk)
  else Raise struct_error.

Definition base_addr : Z := 0x80400000.

Inductive entry_verdict : Type :=
  | OutsideBase
  | MapsTo (file_offset : Z) (opcode : option Z).

(** What [verify_firmware_execution] prints. *)
Record exec_report : Type := mkExecReport {
  msp : Z;
  pc : Z;
  verdict : entry_verdict
}.

Definition verify_firmware_execution (part_1_data : list byte)
    : result exec_report :=
  '(msp, reset) ← unpack_II (slice part_1_data 0 8);
  let entry_point := reset in
  let fw_size := Z.of_nat (length part_1_data) in
  if decide (base_addr ≤ entry_point < base_addr + fw_size) then
    let file_offset := Z.land entry_point (Z.lnot 1) - base_addr in
    if decide (file_offset < fw_size - 4) then
      opcode ← unpack_I (slice part_1_data (Z.to_nat file_offset)
                           (Z.to_nat (file_offset + 4)));
      Ok (mkExecReport msp entry_point (MapsTo file_offset (Some opcode)))
    else Ok (mkExecReport msp entry_point (MapsTo file_offset None))
  else Ok (mkExecReport msp entry_point OutsideBase).

(** *** [main] *)

(** [parts.get(key) and parts[key]['data']], when it is true: the data of
    the partition, present and not empty. *)
Definition available_data (parts : gmap string Partition) (key : string)
    : option (list byte) :=
  match parts !! key with
  | Some info =>
      match p_data info with
      | Some d => if decide (d = []) then None else Some d
      | None => None
      end
  | None => None
  end.

Record run_report : Type := mkRunReport {
  r_extraction : extraction;
  r_table : option table_report;
  r_exec : option exec_report
}.

(** The run on the content of the image file. *)
Definition main (data : list byte) : outcome run_report :=
  parts ← lift (analyze_hybrid_headers data);
  ex ← extract_and_verify data parts;
  table ←
    match available_data (ex_parts ex) "part_3_resource" with
    | Some d => t ← lift (analyze_resource_table d); Done (Some t)
    | None => Done None
    end;
  exec ←
    match available_data (ex_parts ex) "part_1_firmware_a" with
    | Some d => r ← lift (verify_firmware_execution d); Done (Some r)
    | None => Done None
    end;
  Done (mkRunReport ex table exec).

End BreakerRun.

(** * Reference definitions for the statements *)

Module BreakerSpec.
Import Breaker.

(** The partition that a Type-A header at [pos] describes: offset in the
    first word, size in the second. *)
Definition type_a_partition (data : list byte) (pos : nat) : Partition :=
  mkPartition (u32_le_at data pos) (u32_le_at data (pos + 4)) None.

(** The partition that a Type-B header at [pos] describes: offset in the
    second word, size in the third. *)
Definition type_b_partition (data : list byte) (pos : nat) : Partition :=
  mkPartition (u32_le_at data (pos + 4)) (u32_le_at data (pos + 8)) None.

(** The header at [pos] lies fully inside the buffer. *)
Definition header_fits (data : list byte) (pos : nat) : Prop :=
  (pos + 16 ≤ length data)%nat.

(** The Type-B property with the precondition of the specification: the
    buffer only has to hold the Type-B header. *)
Definition type_b_decoded_when_readable (data : list byte) : Prop :=
  header_fits data p4_pos →
  ∃ parts, analyze_hybrid_headers data = Ok parts
    ∧ parts !! "part_4_audio_dsp" = Some (type_b_partition data p4_pos).

(** Per-header recovery as the specification words it: every header that
    fits in the buffer yields its partition entry. *)
Definition per_header_recovery (data : list byte) : Prop :=
  ∀ pos name, (pos, name) ∈ header_table → header_fits data pos →
  ∃ parts p, analyze_hybrid_headers data = Ok parts ∧ parts !! name = Some p.

(** A 348-byte image whose Type-B header holds the words
    [1, 0x76251A, 0x25342A, 0]. *)
Definition crafted_image : list byte :=
  replicate 0xF4 Byte.x00
  ++ [Byte.x01; Byte.x00; Byte.x00; Byte.x00;
      Byte.x1a; Byte.x25; Byte.x76; Byte.x00;
      Byte.x2a; Byte.x34; Byte.x25; Byte.x00;
      Byte.x00; Byte.x00; Byte.x00; Byte.x00]
  ++ replicate 88 Byte.x00.

(** A 260-byte image: it ends with the Type-B header, before the header of
    the main filesystem partition at [0x14C]. *)
Definition truncated_image : list byte := replicate 260 Byte.x00.

End BreakerSpec.

Module BitmapSpec.
Import Bitmap.

(** A 4x2 image of 16-bit pixels. *)
Definition sample_image : list byte :=
  [Byte.x01; Byte.x02; Byte.x03; Byte.x04;
   Byte.x05; Byte.x06; Byte.x07; Byte.x08;
   Byte.x09; Byte.x0a; Byte.x0b; Byte.x0c;
   Byte.x0d; Byte.x0e; Byte.x0f; Byte.x10].

(** Row [y] of the restrided image: [src_stride] source bytes followed by
    [padding] zero bytes. *)
Definition bmp_row (raw : list byte) (src_stride padding y : nat)
    : list byte :=
  slice raw (y * src_stride) (y * src_stride + src_stride)
  ++ replicate padding Byte.x00.

Definition bmp_rows (raw : list byte) (src_stride padding height : nat)
    : list byte :=
  concat (bmp_row raw src_stride padding <$> seq 0 height).

(** [raw], with zero bytes appended when it is shorter than [n] bytes. *)
Definition zero_padded (raw : list byte) (n : nat) : list byte :=
  raw ++ replicate (n - length raw) Byte.x00.

(** Restriding as the specification words it: the input is zero-padded
    when shorter than [width*height*src_stride], then every row of
    [src_stride = width*2] bytes gets [dst_stride - src_stride] zero
    bytes. *)
Definition restride_spec (raw : list byte) (width height : Z) : list byte :=
  let src_stride := width * 2 in
  let dst_stride := Z.land (src_stride + 3) (Z.lnot 3) in
  bmp_rows (zero_padded raw (Z.to_nat (width * height * src_stride)))
    (Z.to_nat src_stride) (Z.to_nat (dst_stride - src_stride))
    (Z.to_nat height).

(** The strings on which the character tests of the embedding are those
    of Python: ASCII characters only. *)
Fixpoint ascii_only (s : string) : bool :=
  match s with
  | EmptyString => true
  | String c rest => (code c <? 128)%nat && ascii_only rest
  end.

(** The character-wise map that the specification describes: path
    separators become ['_'], alphanumerics and the characters of
    ["._-(), "] are kept, every other character becomes ['_']. *)
Definition sanitize_char (c : ascii) : ascii :=
  if bool_decide (c = "/"%char) || bool_decide (c = "\"%char) then "_"%char
  else if isalnum c || char_in c "._-(), " then c
  else "_"%char.

Definition sanitize_spec (name : string) : string :=
  str_map sanitize_char name.

(** The suffix rule as the specification words it (exact comparison), and
    as the code applies it (comparison of the lower-cased name). *)
Definition bmp_suffix_spec (s : string) : string :=
  if endswith s ".bmp" then s else (s +:+ ".bmp")%string.

Definition bmp_suffix (s : string) : string :=
  if endswith (lower s) ".bmp" then s else (s +:+ ".bmp")%string.

Definition str_head (s : string) : option ascii :=
  match s with
  | EmptyString => None
  | String c _ => Some c
  end.

Fixpoint str_last (s : string) : option ascii :=
  match s with
  | EmptyString => None
  | String c EmptyString => Some c
  | String _ rest => str_last rest
  end.

(** The bytes of an entry: [data[offset:offset + raw_size]]. *)
Definition raw_data_of (data : list byte) (e : entry) (raw_size : Z)
    : list byte :=
  slice data (Z.to_nat (e_offset e)) (Z.to_nat (e_offset e + raw_size)).

(** The test of the specification for an image. *)
Definition image_condition (width height raw_size : Z) : Prop :=
  width > 0 ∧ height > 0 ∧ Z.abs (raw_size - width * height * 2) < 4096.

(** A 10x10 entry at offset 0, and a buffer of 204 bytes. *)
Definition ten_by_ten : entry := mkEntry 300 0 10 10 "logo".
Definition buffer_204 : list byte := replicate 204 Byte.x11.

(** An image entry of 2 bytes whose name is ["A.BMP"]. *)
Definition upper_bmp_entry : entry := mkEntry 100 0 1 1 "A.BMP".

(** The magic signature occurs at position [pos] of the buffer. *)
Definition is_match (data : list byte) (pos : nat) : Prop :=
  slice data pos (pos + 5) = MAGIC_SIG.

#[global] Instance is_match_dec data pos : Decision (is_match data pos).
Proof. unfold is_match. apply _. Defined.

(** Every occurrence of the signature, in increasing order. *)
Definition match_positions (data : list byte) : list nat :=
  filter (is_match data) (seq 0 (length data)).

(** The descriptor that the record at [pos] describes. *)
Definition descriptor_at (data : list byte) (pos : nat) : entry :=
  mkEntry (Z.of_nat pos) (u32_le_at data (pos + 20))
    (u32_le_at data (pos + 24)) (u32_le_at data (pos + 28))
    (decode_raw_name (slice data (pos + 32) (pos + 96))).

(** The record at [pos] is collected. *)
Definition accepted (data : list byte) (pos : nat) : option entry :=
  match read_entry data pos with
  | Ok (Some e) => Some e
  | _ => None
  end.

(** The whole 96-byte record at [pos] lies inside the buffer. *)
Definition record_fits (data : list byte) (pos : nat) : Prop :=
  (pos + 96 ≤ length data)%nat.

(** The last part of the scanner's contract as the specification words it:
    a match whose record cannot be decoded fully is not collected. *)
Definition truncated_matches_skipped (data : list byte) : Prop :=
  ∀ entries e, scan data = Some entries → e ∈ entries →
  record_fits data (Z.to_nat (meta_pos e)).

(** A 33-byte buffer: the signature, 15 unused bytes, the words 0, 2, 1 and
    a name field cut after its first byte, ["a"]. *)
Definition short_record : list byte :=
  MAGIC_SIG ++ replicate 15 Byte.x00
  ++ [Byte.x00; Byte.x00; Byte.x00; Byte.x00;
      Byte.x02; Byte.x00; Byte.x00; Byte.x00;
      Byte.x01; Byte.x00; Byte.x00; Byte.x00]
  ++ [Byte.x61].

(** A 200-byte buffer with one full record at position 8: offset 0, width
    2, height 1, name ["a/b"] with a byte above 0x7F in it. *)
Definition one_record : list byte :=
  replicate 8 Byte.xaa
  ++ MAGIC_SIG ++ replicate 15 Byte.x00
  ++ [Byte.x00; Byte.x00; Byte.x00; Byte.x00;
      Byte.x02; Byte.x00; Byte.x00; Byte.x00;
      Byte.x01; Byte.x00; Byte.x00; Byte.x00]
  ++ [Byte.x61; Byte.xff; Byte.x2f; Byte.x62] ++ replicate 60 Byte.x00
  ++ replicate 96 Byte.xaa.

(** Order of the entries by data offset. *)
Definition offset_le (e1 e2 : entry) : Prop := e_offset e1 ≤ e_offset e2.

(** The size that boundary inference gives to [entries[i]]. *)
Definition raw_size_of (entries : list entry) (limit file_size : Z)
    (i : nat) : Z :=
  match entries !! i with
  | Some e => raw_size_at entries limit file_size i (e_offset e)
  | None => 0
  end.

(** The positions of the entries that are kept: those of positive size. *)
Definition kept_ids (entries : list entry) (limit file_size : Z)
    : list nat :=
  filter (λ i, 0 < raw_size_of entries limit file_size i)
    (seq 0 (length entries)).

(** The record [m] of the manifest describes [entries[m_id m]]. *)
Definition describes (entries : list entry) (limit file_size : Z)
    (m : meta) : Prop :=
  ∃ e, entries !! m_id m = Some e
       ∧ original_firmware_name m = original_name e
       ∧ original_offset m = e_offset e
       ∧ m_width m = e_width e ∧ m_height m = e_height e
       ∧ original_raw_size m = raw_size_of entries limit file_size (m_id m)
       ∧ 0 < original_raw_size m.

(** Three descriptors at offsets 600, 100 and 250, found in a metadata
    region that starts at 700, in a buffer of 1000 bytes. *)
Definition three_descriptors : list entry :=
  [ mkEntry 700 600 0 0 "c"; mkEntry 796 100 0 0 "a";
    mkEntry 892 250 0 0 "b" ].
Definition buffer_1000 : list byte := replicate 1000 Byte.x00.

(** Four descriptors, two of them at the same offset. *)
Definition duplicate_offsets : list entry :=
  [ mkEntry 700 100 0 0 "a"; mkEntry 796 200 0 0 "b";
    mkEntry 892 200 0 0 "c"; mkEntry 988 300 0 0 "d" ].
Definition buffer_1200 : list byte := replicate 1200 Byte.x00.

End BitmapSpec.

Module BreakerRunSpec.
Import Breaker BreakerSpec BreakerRun.

(** A 0x200-byte image whose header at [0x70] holds the words
    [0x100, 0x50, 0x180, 0x10]: the slot of [part_0_flag] describes the 0x50
    bytes from [0x100] on, and the last two words are seen again as the
    header of [part_1_firmware_a] at [0x78]. Byte [0x100 + k] holds [k]
    for [k < 4]. *)
Definition scenario_image : list byte :=
  replicate 0x70 Byte.x00
  ++ [Byte.x00; Byte.x01; Byte.x00; Byte.x00;
      Byte.x50; Byte.x00; Byte.x00; Byte.x00;
      Byte.x80; Byte.x01; Byte.x00; Byte.x00;
      Byte.x10; Byte.x00; Byte.x00; Byte.x00]
  ++ replicate 0x80 Byte.x00
  ++ [Byte.x00; Byte.x01; Byte.x02; Byte.x03]
  ++ replicate 0xFC Byte.x00.

(** The 16-bit big-endian word [i] of a buffer, byte by byte. *)
Definition be16_at (data : list byte) (i : nat) : Z :=
  2 ^ 8 * byte_at data (2 * i) + byte_at data (2 * i + 1).

(** A table of three entries 0, 1, 2, and one broken at its second entry. *)
Definition linear_table : list byte :=
  [Byte.x00; Byte.x00; Byte.x00; Byte.x01; Byte.x00; Byte.x02].
Definition broken_table : list byte :=
  [Byte.x00; Byte.x00; Byte.x00; Byte.x07; Byte.x00; Byte.x02].

(** A 16-byte firmware whose reset vector is [0x80400009]: it maps to the
    file offset 8, where the word [0xBF00BF00] is. *)
Definition small_firmware : list byte :=
  [Byte.x00; Byte.x10; Byte.x00; Byte.x20;
   Byte.x09; Byte.x00; Byte.x40; Byte.x80;
   Byte.x00; Byte.xbf; Byte.x00; Byte.xbf;
   Byte.x00; Byte.x00; Byte.x00; Byte.x00].

(** The conditions under which the analyses that follow the extraction
    raise: the resource partition is extracted with an odd size, or the
    first firmware partition is extracted with 1 to 7 bytes. *)
Definition odd_resource_table (data : list byte) : Prop :=
  let p3 := type_a_partition data 0xCC in
  in_bounds data p3 ∧ p_size p3 mod 2 = 1.

Definition short_firmware (data : list byte) : Prop :=
  let p1 := type_a_partition data 0x78 in
  in_bounds data p1 ∧ 0 < p_size p1 < 8.

(** A dictionary with a 4-byte gap between the resource partition and the
    special partition, which itself ends where the main filesystem starts;
    the main filesystem does not fit in a 40-byte file. *)
Definition gap_parts : gmap string Partition :=
  <["part_5_main_fs" := mkPartition 30 20 None]>
  (<["part_4_audio_dsp" := mkPartition 20 10 None]>
  (<["part_3_resource" := mkPartition 0 16 None]> ∅)).
Definition file_40 : list byte := replicate 40 Byte.x2a.

(** The two analyses that follow the extraction, on an image that holds the
    six headers: each runs on the bytes of its partition when the partition
    lies inside the image and is not empty. *)
Definition table_stage (data : list byte) : outcome (option table_report) :=
  let p := type_a_partition data 0xCC in
  if decide (in_bounds data p ∧ 0 < p_size p)
  then t ← lift (analyze_resource_table (partition_bytes data p));
       Done (Some t)
  else Done None.

Definition exec_stage (data : list byte) : outcome (option exec_report) :=
  let p := type_a_partition data 0x78 in
  if decide (in_bounds data p ∧ 0 < p_size p)
  then r ← lift (verify_firmware_execution (partition_bytes data p));
       Done (Some r)
  else Done None.

(** The dictionary decoded from an image that holds the six headers. *)
Definition decoded_parts (data : list byte) : gmap string Partition :=
  <["part_4_audio_dsp" := type_b_partition data 0xF4]>
  (<["part_5_main_fs" := type_a_partition data 0x14C]>
  (<["part_3_resource" := type_a_partition data 0xCC]>
  (<["part_2_firmware_b" := type_a_partition data 0x80]>
  (<["part_1_firmware_a" := type_a_partition data 0x78]>
  (<["part_0_flag" := type_a_partition data 0x70]> ∅))))).

End BreakerRunSpec.

Module BitmapMoreSpec.
Import Bitmap BitmapSpec.

(** The fields of the bitmap header fit their formats. *)
Definition header_fields_fit (width height : Z) : Prop :=
  let image_size := Z.land (width * 2 + 3) (Z.lnot 3) * height in
  - 2 ^ 31 ≤ width < 2 ^ 31 ∧ - 2 ^ 31 < height ≤ 2 ^ 31
  ∧ 0 ≤ image_size ∧ 66 + image_size < 2 ^ 32.

(** The bytes of the header, field after field. *)
Definition bmp_header_bytes (width height : Z) : list byte :=
  let image_size := Z.land (width * 2 + 3) (Z.lnot 3) * height in
  [Byte.x42; Byte.x4d] ++ le_encode 4 (66 + image_size)
  ++ [Byte.x00; Byte.x00; Byte.x00; Byte.x00]
  ++ le_encode 4 66 ++ le_encode 4 40 ++ le_encode 4 width
  ++ le_encode 4 (- height) ++ le_encode 2 1 ++ le_encode 2 16
  ++ le_encode 4 3 ++ le_encode 4 image_size ++ le_encode 4 2835
  ++ le_encode 4 2835 ++ le_encode 4 0 ++ le_encode 4 0
  ++ le_encode 4 0xF800 ++ le_encode 4 0x07E0 ++ le_encode 4 0x001F.

(** A 16-bit little-endian word of a buffer, byte by byte. *)
Definition u16_le_at (data : list byte) (p : nat) : Z :=
  byte_at data p + 2 ^ 8 * byte_at data (p + 1).

(** The record [m] and the file [f] are what the loop body gives for
    [entries[m_id m]] with the size that boundary inference computes. *)
Definition produced (data : list byte) (entries : list entry)
    (limit : Z) (m : meta) (f : string * list byte) : Prop :=
  let file_size := Z.of_nat (length data) in
  ∃ e, entries !! m_id m = Some e
       ∧ 0 < raw_size_of entries limit file_size (m_id m)
       ∧ process_entry data (m_id m) e
           (raw_size_of entries limit file_size (m_id m)) = Ok (m, f).

(** What the scan guarantees about a descriptor, as far as boundary
    inference is concerned. *)
Definition inside (file_size : Z) (e : entry) : Prop :=
  0 ≤ e_offset e < file_size ∧ meta_pos e ≤ file_size.

(** A buffer with two records, at positions 200 and 296: ["b"] at offset
    100 and the 2x1 image ["a"] at offset 0. *)
Definition two_records : list byte :=
  replicate 200 Byte.x5a
  ++ (MAGIC_SIG ++ replicate 15 Byte.x00
      ++ [Byte.x64; Byte.x00; Byte.x00; Byte.x00;
          Byte.x00; Byte.x00; Byte.x00; Byte.x00;
          Byte.x00; Byte.x00; Byte.x00; Byte.x00]
      ++ [Byte.x62] ++ replicate 63 Byte.x00)
  ++ (MAGIC_SIG ++ replicate 15 Byte.x00
      ++ [Byte.x00; Byte.x00; Byte.x00; Byte.x00;
          Byte.x02; Byte.x00; Byte.x00; Byte.x00;
          Byte.x01; Byte.x00; Byte.x00; Byte.x00]
      ++ [Byte.x61] ++ replicate 63 Byte.x00).

(** The characters that a sanitized name is made of. *)
Definition safe_char (c : ascii) : bool :=
  isalnum c || char_in c "._-(), ".

(** Every character of a string passes a test. *)
Fixpoint str_forall (P : ascii → bool) (s : string) : bool :=
  match s with
  | EmptyString => true
  | String c rest => P c && str_forall P rest
  end.

(** The value read back from the field of a signed 32-bit integer. *)
Definition s32_le_at (data : list byte) (p : nat) : Z :=
  let u := u32_le_at data p in
  if decide (u < 2 ^ 31) then u else u - 2 ^ 32.

(** The directory after the files [fls] have been written to it one after
    the other: a later file replaces an earlier one of the same name. *)
Definition write_all (dir : gmap string file)
    (fls : list (string * list byte)) : gmap string file :=
  foldl (λ d f, <[f.1 := Binary f.2]> d) dir fls.

(** The name under which the loop saves an entry of size [raw_size]. *)
Definition save_name (e : entry) (raw_size : Z) : string :=
  if image_test (e_width e) (e_height e) raw_size
  then bmp_suffix (sanitize_filename (original_name e))
  else sanitize_filename (original_name e).

(** The entry [entries[i]] is kept by boundary inference (its size is
    positive) and the loop cannot open a file of its name. *)
Definition unwritable (entries : list entry) (limit file_size : Z)
    (i : nat) (e : entry) : Prop :=
  entries !! i = Some e
  ∧ 0 < raw_size_of entries limit file_size i
  ∧ names_a_directory
      (save_name e (raw_size_of entries limit file_size i)) = true.

(** The 96 bytes of a record: the signature, 15 unused bytes, the three
    words and the name field, filled with null bytes. *)
Definition record_of (offset width height : Z) (name : list byte)
    : list byte :=
  MAGIC_SIG ++ replicate 15 Byte.x00
  ++ le_encode 4 offset ++ le_encode 4 width ++ le_encode 4 height
  ++ name ++ replicate (64 - length name) Byte.x00.


(** 8 bytes of data followed by one record, named ["."], at offset 0: a
    buffer of 104 bytes. *)
Definition dot_record : list byte :=
  replicate 8 Byte.x11 ++ record_of 0 0 0 [Byte.x2e].

(** The rule of classification as the claim words it, on the run over a
    buffer: every entry that the loop reaches with a size that meets the
    image condition is converted, that is, the loop body returns a record
    with [is_image] set and a file. *)
Definition images_converted (data : list byte) : Prop :=
  ∀ scanned i e,
    scan data = Some scanned →
    let entries := sort_by_offset scanned in
    let file_size := Z.of_nat (length data) in
    let raw_size :=
      raw_size_of entries (data_end_limit entries file_size) file_size i in
    entries !! i = Some e → 0 < raw_size →
    image_condition (e_width e) (e_height e) raw_size →
    ∃ m content,
      process_entry data i e raw_size = Ok (m, (saved_filename m, content))
      ∧ is_image m = true.

(** An image of 1 x 2^30 pixels: [n] bytes of pixel data at offset 0,
    followed by its record. With [n = 2^31], a file of 2 GiB and 96
    bytes. *)
Definition tall_image (n : nat) : list byte :=
  replicate n Byte.x00 ++ record_of 0 1 (2 ^ 30) [Byte.x61].

Definition huge_image : list byte := tall_image (Z.to_nat (2 ^ 31)).

End BitmapMoreSpec.

(** * Properties *)

(** ** Slices and little-endian words *)

Section Slices.
Context {A : Type}.
Implicit Types (data : list A) (a b i : nat).

Lemma length_slice data a b :
  length (slice data a b) = ((b - a) `min` (length data - a))%nat.
Proof. unfold slice. by rewrite length_take, length_drop. Qed.

Lemma length_slice_fits data a b :
  (b ≤ length data)%nat → length (slice data a b) = (b - a)%nat.
Proof. rewrite length_slice. lia. Qed.

Lemma lookup_slice data a b i :
  (i < b - a)%nat → slice data a b !! i = data !! (a + i)%nat.
Proof.
  intros Hi. unfold slice. rewrite lookup_take_lt by done.
  by rewrite lookup_drop.
Qed.

Lemma slice_all data : slice data 0 (length data) = data.
Proof.
  unfold slice. rewrite drop_0, Nat.sub_0_r. by rewrite firstn_all.
Qed.
End Slices.

Lemma byte_val_range b : 0 ≤ byte_val b < 256.
Proof.
  unfold byte_val. pose proof (Byte.to_N_bounded b). lia.
Qed.

Lemma byte_at_range data p : 0 ≤ byte_at data p < 256.
Proof.
  unfold byte_at. destruct (data !! p); [apply byte_val_range | lia].
Qed.

Lemma byte_at_slice data a b i :
  (i < b - a)%nat → byte_at (slice data a b) i = byte_at data (a + i).
Proof. intros Hi. unfold byte_at. by rewrite lookup_slice. Qed.

Lemma u32_le_at_range data p : 0 ≤ u32_le_at data p < 2 ^ 32.
Proof.
  unfold u32_le_at.
  pose proof (byte_at_range data p). pose proof (byte_at_range data (p + 1)).
  pose proof (byte_at_range data (p + 2)).
  pose proof (byte_at_range data (p + 3)). lia.
Qed.

Lemma le_decode_4 (l : list byte) :
  length l = 4%nat → le_decode l = u32_le_at l 0.
Proof.
  intros Hl. destruct l as [|b0 [|b1 [|b2 [|b3 [|? ?]]]]]; try done.
  unfold u32_le_at, byte_at. simpl. lia.
Qed.

(** A word unpacked from a slice is the word read in place. *)
Lemma word32_slice data a b k :
  (4 * k + 4 ≤ b - a)%nat → (b ≤ length data)%nat →
  word32 k (slice data a b) = u32_le_at data (a + 4 * k).
Proof.
  intros Hk Hb. unfold word32.
  rewrite le_decode_4 by (rewrite !length_slice; lia).
  unfold u32_le_at.
  rewrite !byte_at_slice by lia.
  replace (a + (4 * k + 0))%nat with (a + 4 * k)%nat by lia.
  replace (a + (4 * k + (0 + 1)))%nat with (a + 4 * k + 1)%nat by lia.
  replace (a + (4 * k + (0 + 2)))%nat with (a + 4 * k + 2)%nat by lia.
  replace (a + (4 * k + (0 + 3)))%nat with (a + 4 * k + 3)%nat by lia.
  done.
Qed.

Lemma unpack_IIII_fits data pos :
  (pos + 16 ≤ length data)%nat →
  unpack_IIII (slice data pos (pos + 16))
  = Ok (u32_le_at data pos, u32_le_at data (pos + 4),
        u32_le_at data (pos + 8), u32_le_at data (pos + 12)).
Proof.
  intros Hfit. unfold unpack_IIII.
  rewrite decide_True by (rewrite length_slice; lia).
  rewrite !word32_slice by lia.
  replace (pos + 4 * 0)%nat with pos by lia.
  replace (pos + 4 * 1)%nat with (pos + 4)%nat by lia.
  replace (pos + 4 * 2)%nat with (pos + 8)%nat by lia.
  replace (pos + 4 * 3)%nat with (pos + 12)%nat by lia.
  done.
Qed.

Lemma unpack_IIII_short data pos :
  (length data < pos + 16)%nat →
  unpack_IIII (slice data pos (pos + 16)) = Raise struct_error.
Proof.
  intros Hshort. unfold unpack_IIII.
  by rewrite decide_False by (rewrite length_slice; lia).
Qed.

Lemma unpack_I_fits data pos :
  (pos + 4 ≤ length data)%nat →
  unpack_I (slice data pos (pos + 4)) = Ok (u32_le_at data pos).
Proof.
  intros Hfit. unfold unpack_I.
  rewrite decide_True by (rewrite length_slice; lia).
  rewrite word32_slice by lia.
  by replace (pos + 4 * 0)%nat with pos by lia.
Qed.

Lemma unpack_I_short data pos :
  (length data < pos + 4)%nat →
  unpack_I (slice data pos (pos + 4)) = Raise struct_error.
Proof.
  intros Hshort. unfold unpack_I.
  by rewrite decide_False by (rewrite length_slice; lia).
Qed.

(** ** The partition table decoder *)

Section Decoder.
Import Breaker BreakerSpec.
Implicit Types (data : list byte) (parts : gmap string Partition).

(** The dictionary after the loop over the Type-A entries. *)
Lemma decode_standard_fits data entries parts :
  (∀ pos name, (pos, name) ∈ entries → header_fits data pos) →
  decode_standard data entries parts
  = Ok (foldl (λ m pn, <[pn.2 := type_a_partition data pn.1]> m)
          parts entries).
Proof.
  revert parts. induction entries as [|[pos name] rest IH];
    intros parts Hfit; [done|].
  simpl. rewrite unpack_IIII_fits
    by (apply (Hfit pos name); left).
  simpl. rewrite IH; [done|].
  intros pos' name' Hin. apply (Hfit pos' name'). by right.
Qed.

(** One short header among the Type-A entries ends the loop. *)
Lemma decode_standard_short data entries parts pos name :
  (pos, name) ∈ entries → ¬ header_fits data pos →
  decode_standard data entries parts = Raise struct_error.
Proof.
  unfold header_fits. revert parts.
  induction entries as [|[pos' name'] rest IH]; intros parts Hin Hshort.
  { by apply elem_of_nil in Hin. }
  simpl. destruct (decide (pos' + 16 ≤ length data)%nat) as [Hfit|Hfit].
  - rewrite unpack_IIII_fits by done. simpl.
    apply IH; [|done].
    apply elem_of_cons in Hin as [Heq|Hin]; [|done].
    injection Heq as -> ->. lia.
  - rewrite unpack_IIII_short by lia. done.
Qed.

Lemma header_table_fits data pos name :
  (min_image_length ≤ length data)%nat → (pos, name) ∈ header_table →
  header_fits data pos.
Proof.
  unfold header_table, standard_entries, p4_pos, min_image_length,
    header_fits.
  intros Hlen Hin. simpl in Hin.
  repeat (apply elem_of_cons in Hin as [Heq|Hin];
          [injection Heq as -> ->; lia|]).
  by apply elem_of_nil in Hin.
Qed.

(** The whole dictionary for a buffer that holds the six headers. *)
Lemma analyze_hybrid_headers_fits data :
  (min_image_length ≤ length data)%nat →
  analyze_hybrid_headers data
  = Ok (<["part_4_audio_dsp" := type_b_partition data 0xF4]>
        (<["part_5_main_fs" := type_a_partition data 0x14C]>
        (<["part_3_resource" := type_a_partition data 0xCC]>
        (<["part_2_firmware_b" := type_a_partition data 0x80]>
        (<["part_1_firmware_a" := type_a_partition data 0x78]>
        (<["part_0_flag" := type_a_partition data 0x70]> ∅)))))).
Proof.
  intros Hlen. unfold analyze_hybrid_headers.
  rewrite decode_standard_fits.
  2:{ intros pos name Hin. apply (header_table_fits data pos name Hlen).
      unfold header_table. apply elem_of_app. by left. }
  simpl. unfold p4_pos.
  rewrite unpack_IIII_fits by (unfold min_image_length in Hlen; lia).
  done.
Qed.

Lemma analyze_hybrid_headers_short data :
  (length data < min_image_length)%nat →
  analyze_hybrid_headers data = Raise struct_error.
Proof.
  intros Hlen. unfold analyze_hybrid_headers.
  rewrite (decode_standard_short data _ _ 0x14C "part_5_main_fs"); [done| |].
  - unfold standard_entries. do 4 right. left.
  - unfold header_fits, min_image_length in *. lia.
Qed.

(** C1, as amended: for every buffer long enough for all six fixed header
    reads (at least [0x15C] bytes), the decoder gives [part_4_audio_dsp]
    the second little-endian word of the header at [0xF4] as its offset
    and the third as its size; when the pair of words 1 and 2 differs from
    the pair of words 2 and 3, the decoded pair is not the former. *)
Theorem C1_type_b_second_third_words data :
  (min_image_length ≤ length data)%nat →
  ∃ parts p,
    analyze_hybrid_headers data = Ok parts
    ∧ parts !! "part_4_audio_dsp" = Some p
    ∧ p_offset p = u32_le_at data (p4_pos + 4)
    ∧ p_size p = u32_le_at data (p4_pos + 8)
    ∧ ((u32_le_at data p4_pos, u32_le_at data (p4_pos + 4))
         ≠ (u32_le_at data (p4_pos + 4), u32_le_at data (p4_pos + 8)) →
       (p_offset p, p_size p)
         ≠ (u32_le_at data p4_pos, u32_le_at data (p4_pos + 4))).
Proof.
  intros Hlen. eexists _, (type_b_partition data p4_pos).
  split; [by apply analyze_hybrid_headers_fits|].
  split; [by rewrite lookup_insert_eq|].
  simpl. repeat split. intros Hne Heq. apply Hne. by rewrite <- Heq.
Qed.

Lemma C1_type_b_witness :
  (min_image_length ≤ length crafted_image)%nat
  ∧ ∃ parts p,
      analyze_hybrid_headers crafted_image = Ok parts
      ∧ parts !! "part_4_audio_dsp" = Some p
      ∧ p_offset p = 0x76251A ∧ p_size p = 0x25342A
      ∧ (p_offset p, p_size p) ≠ (1, 0x76251A).
Proof.
  assert (Hlen : (min_image_length ≤ length crafted_image)%nat)
    by (vm_compute; lia).
  split; [exact Hlen|].
  destruct (C1_type_b_second_third_words crafted_image Hlen)
    as (parts & p & Hok & Hp & Hoff & Hsize & Hsel).
  exists parts, p. repeat split; try done.
  apply Hsel. vm_compute. congruence.
Defined.

(** The claim under the precondition of the specification fails: the
    260-byte image holds the whole Type-B header, and the decoder raises
    at the header of [part_5_main_fs]. *)
Lemma C1_readable_type_b_counterexample :
  ¬ type_b_decoded_when_readable truncated_image.
Proof.
  intros Hclaim. destruct Hclaim as (parts & Hok & _).
  { unfold header_fits. vm_compute. lia. }
  rewrite analyze_hybrid_headers_short in Hok; [done|].
  vm_compute. lia.
Qed.

(** C2, as amended: the decoder raises, and returns no dictionary at all,
    exactly when one of the six fixed headers does not fit in the buffer,
    that is when the buffer has fewer than [0x15C] bytes; it returns a
    dictionary exactly when all six headers fit. *)
Theorem C2_short_header_aborts_decode data :
  ((∃ pos name, (pos, name) ∈ header_table ∧ ¬ header_fits data pos)
     ↔ analyze_hybrid_headers data = Raise struct_error)
  ∧ ((length data < min_image_length)%nat
     ↔ analyze_hybrid_headers data = Raise struct_error)
  ∧ ((∀ pos name, (pos, name) ∈ header_table → header_fits data pos)
     ↔ ∃ parts, analyze_hybrid_headers data = Ok parts).
Proof.
  destruct (decide (length data < min_image_length)%nat) as [Hlt|Hge].
  - pose proof (analyze_hybrid_headers_short data Hlt) as Hraise.
    assert (Hmain : ¬ header_fits data 0x14C)
      by (unfold header_fits, min_image_length in *; lia).
    assert (Hin : (0x14C%nat, "part_5_main_fs") ∈ header_table)
      by (unfold header_table, standard_entries; do 4 right; left).
    repeat split; try done.
    + intros _. by exists 0x14C%nat, "part_5_main_fs".
    + intros Hall. destruct Hmain. by apply (Hall _ _ Hin).
    + intros [parts Hok]. by rewrite Hraise in Hok.
  - assert (Hlen : (min_image_length ≤ length data)%nat) by lia.
    pose proof (analyze_hybrid_headers_fits data Hlen) as Hok.
    repeat split; try (rewrite Hok; done); try lia.
    + intros (pos & name & Hin & Hshort). destruct Hshort.
      by apply (header_table_fits data pos name).
    + intros _. eauto.
    + intros _ pos name Hin. by apply (header_table_fits data pos name).
Qed.

(** The claim as the specification words it fails: every header of the
    260-byte image but one fits, and none gets a partition entry. *)
Lemma C2_per_header_recovery_counterexample :
  ¬ per_header_recovery truncated_image.
Proof.
  intros Hclaim.
  destruct (Hclaim 0x70%nat "part_0_flag") as (parts & p & Hok & _).
  { unfold header_table, standard_entries. left. }
  { unfold header_fits. vm_compute. lia. }
  rewrite analyze_hybrid_headers_short in Hok; [done|].
  vm_compute. lia.
Qed.

(** C9: for every buffer long enough for the six fixed header reads, the
    decoder returns a dictionary whose keys are exactly the six partition
    names, hence with exactly six partitions, one per name. *)
Theorem C9_exactly_six_partitions data :
  (min_image_length ≤ length data)%nat →
  ∃ parts,
    analyze_hybrid_headers data = Ok parts
    ∧ dom parts = partition_names
    ∧ size parts = 6%nat
    ∧ ∀ name, is_Some (parts !! name) ↔ name ∈ partition_names.
Proof.
  intros Hlen. eexists. split; [by apply analyze_hybrid_headers_fits|].
  assert (Hdom : ∀ m : gmap string Partition,
    m = <["part_4_audio_dsp" := type_b_partition data 0xF4]>
        (<["part_5_main_fs" := type_a_partition data 0x14C]>
        (<["part_3_resource" := type_a_partition data 0xCC]>
        (<["part_2_firmware_b" := type_a_partition data 0x80]>
        (<["part_1_firmware_a" := type_a_partition data 0x78]>
        (<["part_0_flag" := type_a_partition data 0x70]> ∅))))) →
    dom m = partition_names).
  { intros m ->. rewrite !dom_insert_L, dom_empty_L.
    unfold partition_names. set_solver. }
  split; [by apply Hdom|]. split.
  - rewrite <- size_dom, (Hdom _ eq_refl). by vm_compute.
  - intros name. rewrite <- elem_of_dom. by rewrite (Hdom _ eq_refl).
Qed.

Lemma C9_six_partitions_witness :
  (min_image_length ≤ length crafted_image)%nat
  ∧ ∃ parts,
      analyze_hybrid_headers crafted_image = Ok parts
      ∧ dom parts = partition_names ∧ size parts = 6%nat.
Proof.
  assert (Hlen : (min_image_length ≤ length crafted_image)%nat)
    by (vm_compute; lia).
  split; [exact Hlen|].
  destruct (C9_exactly_six_partitions crafted_image Hlen)
    as (parts & Hok & Hdom & Hsize & _).
  by exists parts.
Defined.
End Decoder.

(** ** The 16-bit byte swap *)

Section Swap.
Import Bitmap.
Context {A : Type}.
Implicit Types (l arr vals : list A) (i j k : nat).

(** Induction two elements at a time. *)
Lemma list_pair_ind (P : list A → Prop) :
  P [] → (∀ x, P [x]) → (∀ x y l, P l → P (x :: y :: l)) → ∀ l, P l.
Proof.
  intros Hnil Hone Hstep.
  assert (Hboth : ∀ l, P l ∧ ∀ x, P (x :: l)).
  { induction l as [|y l [IH1 IH2]]; [by split|].
    split; [apply IH2|]. intros x. by apply Hstep. }
  intros l. apply Hboth.
Qed.

Lemma every_other_lookup l k : every_other l !! k = l !! (2 * k)%nat.
Proof.
  revert k. induction l as [|x|x y l IH] using list_pair_ind; intros k.
  - done.
  - destruct k as [|k]; [done|]. simpl.
    by replace (k + S (k + 0))%nat with (S (k + (k + 0))) by lia.
  - destruct k as [|k]; [done|]. simpl every_other.
    replace (2 * S k)%nat with (S (S (2 * k))) by lia. simpl. apply IH.
Qed.

Lemma length_store_every_other i vals arr :
  length (store_every_other i vals arr) = length arr.
Proof.
  revert i arr. induction vals as [|v vs IH]; intros i arr; [done|].
  simpl. by rewrite IH, length_insert.
Qed.

(** Positions outside [i, i+2, i+4, ...] keep their content. *)
Lemma store_every_other_miss i vals arr j :
  (∀ k, (k < length vals)%nat → j ≠ (i + 2 * k)%nat) →
  store_every_other i vals arr !! j = arr !! j.
Proof.
  revert i arr. induction vals as [|v vs IH]; intros i arr Hmiss; [done|].
  simpl. rewrite IH.
  - apply list_lookup_insert_ne. specialize (Hmiss 0%nat). simpl in Hmiss.
    lia.
  - intros k Hk. specialize (Hmiss (S k)). simpl in Hmiss. lia.
Qed.

(** Position [i + 2k] receives [vals[k]]. *)
Lemma store_every_other_hit i vals arr k v :
  vals !! k = Some v → (i + 2 * k < length arr)%nat →
  store_every_other i vals arr !! (i + 2 * k)%nat = Some v.
Proof.
  revert i arr k. induction vals as [|v0 vs IH]; intros i arr k Hv Hlt;
    [done|].
  destruct k as [|k]; simpl in Hv.
  - injection Hv as ->. replace (i + 2 * 0)%nat with i in * by lia.
    simpl. rewrite store_every_other_miss by lia.
    by apply list_lookup_insert_eq.
  - simpl store_every_other.
    replace (i + 2 * S k)%nat with (i + 2 + 2 * k)%nat by lia.
    apply IH; [done|]. rewrite length_insert. lia.
Qed.
End Swap.

Section SwapBytes.
Import Bitmap.
Implicit Types (data arr : list byte) (k : nat).

(** The two slice stores on an even-length array exchange the bytes of
    every pair. *)
Lemma swap_stores_lookup arr k :
  (length arr mod 2 = 0)%nat → (2 * k + 1 < length arr)%nat →
  let swapped :=
    store_every_other 1 (every_other (drop 0 arr))
      (store_every_other 0 (every_other (drop 1 arr)) arr) in
  swapped !! (2 * k)%nat = arr !! (2 * k + 1)%nat
  ∧ swapped !! (2 * k + 1)%nat = arr !! (2 * k)%nat.
Proof.
  intros Heven Hk. cbv zeta. split.
  - rewrite store_every_other_miss by lia.
    destruct (lookup_lt_is_Some_2 arr (2 * k + 1)) as [v Hv]; [lia|].
    rewrite Hv. apply (store_every_other_hit 0); [|lia].
    rewrite every_other_lookup, lookup_drop. by rewrite <- Hv, Nat.add_comm.
  - destruct (lookup_lt_is_Some_2 arr (2 * k)) as [v Hv]; [lia|].
    rewrite Hv. replace (2 * k + 1)%nat with (1 + 2 * k)%nat by lia.
    apply store_every_other_hit.
    + by rewrite every_other_lookup, drop_0.
    + rewrite length_store_every_other. lia.
Qed.

(** Facts on halving a length, for [lia]. *)
Ltac halves n :=
  pose proof (Nat.div_mod_eq n 2);
  pose proof (Nat.mod_upper_bound n 2).

(** The array that is swapped: the input without its last byte when the
    length is odd. *)
Lemma swap_bytes_16bit_unfold data :
  ∃ arr,
    arr = take (length data - length data mod 2) data
    ∧ (length arr mod 2 = 0)%nat
    ∧ swap_bytes_16bit data
      = store_every_other 1 (every_other (drop 0 arr))
          (store_every_other 0 (every_other (drop 1 arr)) arr).
Proof.
  unfold swap_bytes_16bit. halves (length data). case_decide as Hodd.
  - exists (slice data 0 (length data - 1)). split; [|split; [|done]].
    + unfold slice. rewrite drop_0. f_equal. lia.
    + rewrite length_slice.
      replace ((length data - 1 - 0) `min` (length data - 0))%nat
        with (2 * (length data / 2))%nat by lia.
      by rewrite Nat.mul_comm, Nat.Div0.mod_mul.
  - exists data. split; [|split; [lia|done]].
    replace (length data - length data mod 2)%nat with (length data) by lia.
    by rewrite firstn_all.
Qed.

Lemma length_swap_bytes_16bit data :
  length (swap_bytes_16bit data) = (2 * (length data / 2))%nat.
Proof.
  destruct (swap_bytes_16bit_unfold data) as (arr & -> & _ & ->).
  rewrite !length_store_every_other, length_take.
  halves (length data). lia.
Qed.

Lemma swap_bytes_16bit_lookup data k :
  (2 * k + 1 < length data)%nat →
  swap_bytes_16bit data !! (2 * k)%nat = data !! (2 * k + 1)%nat
  ∧ swap_bytes_16bit data !! (2 * k + 1)%nat = data !! (2 * k)%nat.
Proof.
  intros Hk.
  destruct (swap_bytes_16bit_unfold data) as (arr & Harr & Heven & ->).
  assert (Hlen : length arr = (length data - length data mod 2)%nat)
    by (rewrite Harr, length_take; lia).
  halves (length data). halves (length arr).
  destruct (swap_stores_lookup arr k Heven) as [Hfst Hsnd]; [lia|].
  cbv zeta in Hfst, Hsnd. rewrite Hfst, Hsnd, Harr.
  rewrite !lookup_take_lt by lia. done.
Qed.

Lemma swap_bytes_16bit_involutive data :
  (length data mod 2 = 0)%nat →
  swap_bytes_16bit (swap_bytes_16bit data) = data.
Proof.
  intros Heven. halves (length data).
  assert (Hlen : length (swap_bytes_16bit data) = length data)
    by (rewrite length_swap_bytes_16bit; lia).
  apply list_eq. intros i.
  destruct (decide (i < length data)%nat) as [Hi|Hi].
  - destruct (Nat.Even_or_Odd i) as [[k ->]|[k ->]].
    + destruct (swap_bytes_16bit_lookup (swap_bytes_16bit data) k) as [-> _];
        [lia|].
      destruct (swap_bytes_16bit_lookup data k) as [_ ->]; [lia|]. done.
    + destruct (swap_bytes_16bit_lookup (swap_bytes_16bit data) k) as [_ ->];
        [lia|].
      destruct (swap_bytes_16bit_lookup data k) as [-> _]; [lia|]. done.
  - rewrite !lookup_ge_None_2; [done|lia|].
    rewrite length_swap_bytes_16bit, Hlen. lia.
Qed.
End SwapBytes.

Section SwapClaim.
Import Bitmap BitmapSpec.

(** C5: the swap exchanges the two bytes of every adjacent pair of the
    buffer and drops the last byte of an odd-length buffer, so the output
    has the length of the input rounded down to a multiple of 2; on an
    even-length buffer, swapping twice gives the buffer back. *)
Theorem C5_swap_pairs_truncates_involutive (data : list byte) :
  length (swap_bytes_16bit data) = (2 * (length data / 2))%nat
  ∧ (∀ k, (2 * k + 1 < length data)%nat →
       swap_bytes_16bit data !! (2 * k)%nat = data !! (2 * k + 1)%nat
       ∧ swap_bytes_16bit data !! (2 * k + 1)%nat = data !! (2 * k)%nat)
  ∧ ((length data mod 2 = 0)%nat →
       swap_bytes_16bit (swap_bytes_16bit data) = data).
Proof.
  split; [apply length_swap_bytes_16bit|]. split.
  - intros k. apply swap_bytes_16bit_lookup.
  - apply swap_bytes_16bit_involutive.
Qed.

Lemma C5_swap_witness :
  (length sample_image mod 2 = 0)%nat
  ∧ swap_bytes_16bit sample_image
    = [Byte.x02; Byte.x01; Byte.x04; Byte.x03;
       Byte.x06; Byte.x05; Byte.x08; Byte.x07;
       Byte.x0a; Byte.x09; Byte.x0c; Byte.x0b;
       Byte.x0e; Byte.x0d; Byte.x10; Byte.x0f]
  ∧ swap_bytes_16bit (swap_bytes_16bit sample_image) = sample_image
  ∧ length (swap_bytes_16bit (sample_image ++ [Byte.xff])) = 16%nat.
Proof.
  assert (Heven : (length sample_image mod 2 = 0)%nat) by reflexivity.
  split; [exact Heven|]. split; [reflexivity|]. split.
  - destruct (C5_swap_pairs_truncates_involutive sample_image)
      as (_ & _ & Hinv).
    exact (Hinv Heven).
  - destruct (C5_swap_pairs_truncates_involutive (sample_image ++ [Byte.xff]))
      as (Hlen & _ & _).
    rewrite Hlen. reflexivity.
Defined.
End SwapClaim.

(** ** Row strides *)

Section Restride.
Import Bitmap BitmapSpec.
Implicit Types (raw : list byte) (width height : Z) (s p n m y : nat).

(** [a & ~3] clears the two low bits. *)
Lemma land_lnot_3 (a : Z) : Z.land a (Z.lnot 3) = 4 * (a / 4).
Proof.
  rewrite <- Z.ldiff_land. change 3 with (Z.ones 2).
  rewrite Z.ldiff_ones_r by lia.
  rewrite Z.shiftl_mul_pow2, Z.shiftr_div_pow2 by lia.
  change (2 ^ 2) with 4. lia.
Qed.

Lemma get_stride_info_eq width :
  get_stride_info width
  = (width * 2, Z.land (width * 2 + 3) (Z.lnot 3),
     Z.land (width * 2 + 3) (Z.lnot 3) - width * 2).
Proof. done. Qed.

(** The destination stride is the source stride rounded up to a multiple
    of 4; the source stride being even, the padding is 0 or 2 bytes. *)
Lemma dst_stride_bounds width :
  let src_stride := width * 2 in
  let dst_stride := Z.land (src_stride + 3) (Z.lnot 3) in
  dst_stride mod 4 = 0 ∧ src_stride ≤ dst_stride < src_stride + 4
  ∧ (dst_stride - src_stride = 0 ∨ dst_stride - src_stride = 2)
  ∧ (src_stride mod 4 = 0 → dst_stride = src_stride).
Proof.
  cbv zeta. rewrite land_lnot_3. Z.to_euclidean_division_equations. lia.
Qed.

Lemma restride_row_eq raw (src_stride padding : Z) output y :
  0 ≤ src_stride →
  restride_row raw src_stride padding output y
  = output ++ bmp_row raw (Z.to_nat src_stride) (Z.to_nat padding) y.
Proof.
  intros Hs. unfold restride_row, bmp_row, zeros.
  replace (Z.to_nat (Z.of_nat y * src_stride))
    with (y * Z.to_nat src_stride)%nat by nia.
  replace (Z.to_nat (Z.of_nat y * src_stride + src_stride))
    with (y * Z.to_nat src_stride + Z.to_nat src_stride)%nat by nia.
  case_decide as Hpad; [by rewrite <- (assoc_L (++))|].
  replace (Z.to_nat padding) with 0%nat by lia. simpl.
  by rewrite (right_id_L [] (++)).
Qed.

Lemma restride_loop_eq raw (src_stride padding : Z) output (ys : list nat) :
  0 ≤ src_stride →
  foldl (restride_row raw src_stride padding) output ys
  = output
    ++ concat (bmp_row raw (Z.to_nat src_stride) (Z.to_nat padding) <$> ys).
Proof.
  intros Hs. revert output. induction ys as [|y ys IH]; intros output.
  - simpl. by rewrite (right_id_L [] (++)).
  - simpl. rewrite IH, restride_row_eq by done. by rewrite <- (assoc_L (++)).
Qed.

Lemma bmp_rows_S raw s p n :
  bmp_rows raw s p (S n) = bmp_rows raw s p n ++ bmp_row raw s p n.
Proof.
  unfold bmp_rows. rewrite seq_S, fmap_app, concat_app. simpl.
  by rewrite (right_id_L [] (++)).
Qed.

(** A slice inside the first [m] bytes only depends on these. *)
Lemma slice_take {A} (l : list A) a b m :
  (b ≤ m)%nat → slice (take m l) a b = slice l a b.
Proof.
  intros Hb. unfold slice.
  destruct (decide (a ≤ b)%nat) as [Hab|Hab].
  - replace m with (a + (m - a))%nat at 1 by lia.
    rewrite <- take_drop_commute, take_take. f_equal. lia.
  - by replace (b - a)%nat with 0%nat by lia.
Qed.

Lemma bmp_row_take raw s p y m :
  (y * s + s ≤ m)%nat → bmp_row (take m raw) s p y = bmp_row raw s p y.
Proof. intros Hm. unfold bmp_row. by rewrite slice_take. Qed.

Lemma bmp_rows_take raw s p n m :
  (n * s ≤ m)%nat → bmp_rows (take m raw) s p n = bmp_rows raw s p n.
Proof.
  intros Hm. induction n as [|n IH]; [done|].
  rewrite !bmp_rows_S, IH by lia. by rewrite bmp_row_take by lia.
Qed.

(** Rows without padding are the consecutive chunks of the input. *)
Lemma bmp_rows_unpadded raw s n :
  bmp_rows raw s 0 n = take (n * s) raw.
Proof.
  induction n as [|n IH]; [done|].
  rewrite bmp_rows_S, IH. unfold bmp_row, slice. simpl replicate.
  rewrite (right_id_L [] (++)).
  replace (n * s + s - n * s)%nat with s by lia.
  rewrite take_take_drop. f_equal. lia.
Qed.

Lemma length_bmp_rows raw s p n :
  (n * s ≤ length raw)%nat → length (bmp_rows raw s p n) = (n * (s + p))%nat.
Proof.
  intros Hlen. induction n as [|n IH]; [done|].
  rewrite bmp_rows_S, length_app, IH by lia.
  unfold bmp_row. rewrite length_app, length_slice, length_replicate. lia.
Qed.

Lemma take_zero_padded raw n m k :
  (m ≤ n)%nat → (m ≤ k)%nat →
  take m (zero_padded raw n) = take m (zero_padded raw k).
Proof.
  intros Hn Hk. unfold zero_padded.
  rewrite !take_app, !take_replicate. do 2 f_equal. lia.
Qed.
End Restride.

Section RestrideClaim.
Import Bitmap BitmapSpec.
Implicit Types (raw : list byte) (width height : Z).

Lemma zero_padded_short raw n :
  (n ≤ length raw)%nat → zero_padded raw n = raw.
Proof.
  intros Hn. unfold zero_padded.
  replace (n - length raw)%nat with 0%nat by lia.
  apply (right_id_L [] (++)).
Qed.

Lemma length_zero_padded raw n :
  length (zero_padded raw n) = (length raw `max` n)%nat.
Proof.
  unfold zero_padded. rewrite length_app, length_replicate. lia.
Qed.

(** What the code computes: the rows of the input zero-padded to
    [src_stride * height] bytes. *)
Lemma restride_to_bmp_rows raw width height :
  0 ≤ width → 0 ≤ height →
  restride_to_bmp raw width height
  = bmp_rows (zero_padded raw (Z.to_nat (width * 2 * height)))
      (Z.to_nat (width * 2))
      (Z.to_nat (Z.land (width * 2 + 3) (Z.lnot 3) - width * 2))
      (Z.to_nat height).
Proof.
  intros Hw Hh. unfold restride_to_bmp. rewrite get_stride_info_eq.
  case_decide as Hfast.
  - destruct Hfast as [-> Hlen]. simpl Z.to_nat.
    rewrite zero_padded_short by lia.
    rewrite bmp_rows_unpadded, take_ge; [done|nia].
  - rewrite restride_loop_eq by lia. simpl. unfold bmp_rows. f_equal.
    f_equal. f_equal. case_decide as Hshort.
    + unfold zero_padded, zeros. do 2 f_equal. lia.
    + by rewrite zero_padded_short by lia.
Qed.

(** C6: for a declared width [w >= 0] and height [h >= 0], the strides are
    [src_stride = w*2] and [dst_stride = (src_stride+3) & ~3], a multiple of
    4 with [dst_stride - src_stride] in {0, 2}; restriding returns, for
    every input, the [h] rows of the input zero-padded when shorter than
    [w*h*src_stride] bytes, each row being [src_stride] source bytes followed
    by [dst_stride - src_stride] zero bytes, [h * dst_stride] bytes in all;
    padding to the [src_stride*h] bytes of the code gives the same rows. *)
Theorem C6_restride_pads_rows raw width height :
  0 ≤ width → 0 ≤ height →
  let src_stride := width * 2 in
  let dst_stride := Z.land (src_stride + 3) (Z.lnot 3) in
  get_stride_info width = (src_stride, dst_stride, dst_stride - src_stride)
  ∧ dst_stride mod 4 = 0
  ∧ src_stride ≤ dst_stride < src_stride + 4
  ∧ restride_to_bmp raw width height = restride_spec raw width height
  ∧ restride_to_bmp raw width height
    = bmp_rows (zero_padded raw (Z.to_nat (src_stride * height)))
        (Z.to_nat src_stride) (Z.to_nat (dst_stride - src_stride))
        (Z.to_nat height)
  ∧ Z.of_nat (length (restride_to_bmp raw width height))
    = height * dst_stride.
Proof.
  intros Hw Hh src_stride dst_stride.
  destruct (dst_stride_bounds width) as (Hmod & Hbounds & _).
  fold src_stride in Hmod, Hbounds. fold dst_stride in Hmod, Hbounds.
  pose proof (restride_to_bmp_rows raw width height Hw Hh) as Hrows.
  fold src_stride in Hrows. fold dst_stride in Hrows.
  split; [done|]. split; [done|]. split; [done|].
  split; [|split; [done|]].
  - rewrite Hrows. unfold restride_spec.
    fold src_stride. fold dst_stride.
    set (s := Z.to_nat src_stride). set (n := Z.to_nat height).
    set (p := Z.to_nat (dst_stride - src_stride)).
    assert (Hcode : Z.to_nat (src_stride * height) = (n * s)%nat)
      by (unfold src_stride, n, s; nia).
    assert (Hspec : (n * s ≤ Z.to_nat (width * height * src_stride))%nat).
    { rewrite <- Hcode. apply Z2Nat.inj_le; [unfold src_stride; nia..|].
      destruct (decide (width = 0)) as [->|Hpos]; [unfold src_stride; lia|].
      assert (0 ≤ (width - 1) * (src_stride * height))
        by (apply Z.mul_nonneg_nonneg; unfold src_stride; nia).
      nia. }
    rewrite <- (bmp_rows_take (zero_padded raw (Z.to_nat (src_stride * _)))
                  s p n (n * s)) by done.
    rewrite <- (bmp_rows_take (zero_padded raw (Z.to_nat (width * _ * _)))
                  s p n (n * s)) by done.
    f_equal. apply take_zero_padded; lia.
  - rewrite Hrows, length_bmp_rows.
    + unfold src_stride in *. nia.
    + rewrite length_zero_padded. unfold src_stride. nia.
Qed.

Lemma C6_restride_witness :
  0 ≤ 1 ∧ 0 ≤ 4
  ∧ get_stride_info 1 = (2, 4, 2)
  ∧ restride_to_bmp
      [Byte.x01; Byte.x02; Byte.x03; Byte.x04; Byte.x05] 1 4
    = [Byte.x01; Byte.x02; Byte.x00; Byte.x00;
       Byte.x03; Byte.x04; Byte.x00; Byte.x00;
       Byte.x05; Byte.x00; Byte.x00; Byte.x00;
       Byte.x00; Byte.x00; Byte.x00; Byte.x00]
  ∧ restride_to_bmp sample_image 4 2 = sample_image.
Proof.
  assert (H0 : 0 ≤ 1) by lia. assert (H1 : 0 ≤ 4) by lia.
  assert (H2 : 0 ≤ 2) by lia.
  split; [exact H0|]. split; [exact H1|].
  destruct (C6_restride_pads_rows
              [Byte.x01; Byte.x02; Byte.x03; Byte.x04; Byte.x05] 1 4 H0 H1)
    as (Hinfo & _ & _ & Hspec & _).
  destruct (C6_restride_pads_rows sample_image 4 2 H1 H2)
    as (_ & _ & _ & Hspec' & _).
  split; [exact Hinfo|]. split.
  - rewrite Hspec. reflexivity.
  - rewrite Hspec'. reflexivity.
Defined.
End RestrideClaim.

(** ** File names *)

Section Names.
Import Bitmap BitmapSpec.
Implicit Types (s name : string) (c : ascii).

Lemma str_map_compose (f g : ascii → ascii) s :
  str_map f (str_map g s) = str_map (λ c, f (g c)) s.
Proof. induction s as [|c s IH]; [done|]. simpl. by rewrite IH. Qed.

Lemma str_map_ext (f g : ascii → ascii) s :
  (∀ c, f c = g c) → str_map f s = str_map g s.
Proof.
  intros Hfg. induction s as [|c s IH]; [done|]. simpl. by rewrite Hfg, IH.
Qed.

(** Case analysis on the 256 characters. *)
Ltac all_chars c :=
  destruct c as [[] [] [] [] [] [] [] []]; vm_compute; try done.

(** The two replacements followed by the whitelist are one character-wise
    map: ['_'] is itself in the whitelist. *)
Lemma sanitize_char_steps c :
  (let c1 := if decide (c = "/"%char) then "_"%char else c in
   let c2 := if decide (c1 = "\"%char) then "_"%char else c1 in
   if isalnum c2 || char_in c2 "._-(), " then c2 else "_"%char)
  = sanitize_char c.
Proof. all_chars c. Qed.

Lemma sanitize_filename_strip name :
  sanitize_filename name = strip (sanitize_spec name).
Proof.
  unfold sanitize_filename, sanitize_spec, str_replace_char.
  rewrite !str_map_compose. f_equal. apply str_map_ext, sanitize_char_steps.
Qed.

(** After the map, the only character that [strip] removes is the space,
    and it comes from a space. *)
Lemma isspace_sanitize_char c :
  isspace (sanitize_char c) = true → c = " "%char.
Proof. all_chars c. Qed.

Lemma str_head_map (f : ascii → ascii) s :
  str_head (str_map f s) = f <$> str_head s.
Proof. by destruct s. Qed.

Lemma str_last_map (f : ascii → ascii) s :
  str_last (str_map f s) = f <$> str_last s.
Proof.
  induction s as [|c s IH]; [done|]. simpl.
  destruct s as [|d s]; [done|]. apply IH.
Qed.

Lemma lstrip_id s :
  (∀ c, str_head s = Some c → isspace c = false) → lstrip s = s.
Proof.
  destruct s as [|c s]; [done|]. intros Hhead. simpl.
  by rewrite (Hhead c eq_refl).
Qed.

Lemma rstrip_id s :
  (∀ c, str_last s = Some c → isspace c = false) → rstrip s = s.
Proof.
  induction s as [|c s IH]; [done|]. intros Hlast. simpl.
  destruct s as [|d s].
  - simpl. by rewrite (Hlast c eq_refl).
  - rewrite IH; [done|]. intros c' Hc'. by apply Hlast.
Qed.

(** Names that neither start nor end with a space are mapped character by
    character. *)
Lemma sanitize_filename_no_outer_space name :
  str_head name ≠ Some " "%char → str_last name ≠ Some " "%char →
  sanitize_filename name = sanitize_spec name.
Proof.
  intros Hhead Hlast. rewrite sanitize_filename_strip. unfold strip.
  assert (Hspace : ∀ o : option ascii, o ≠ Some " "%char →
            ∀ c, sanitize_char <$> o = Some c → isspace c = false).
  { intros [d|] Ho c Hc; [|done]. injection Hc as <-.
    destruct (isspace (sanitize_char d)) eqn:Hsp; [|done].
    apply isspace_sanitize_char in Hsp. by subst d. }
  rewrite lstrip_id.
  - apply rstrip_id. intros c. unfold sanitize_spec. rewrite str_last_map.
    by apply Hspace.
  - intros c. unfold sanitize_spec. rewrite str_head_map. by apply Hspace.
Qed.

(** The name under which an entry is saved. *)
Lemma process_entry_saved_filename data i e raw_size m f :
  process_entry data i e raw_size = Ok (m, f) →
  f.1 = saved_filename m
  ∧ saved_filename m
    = if is_image m then bmp_suffix (sanitize_filename (original_name e))
      else sanitize_filename (original_name e).
Proof.
  unfold process_entry, bmp_suffix.
  destruct (image_test _ _ _); [|by intros [= <- <-]].
  destruct (get_stride_info (e_width e)) as [[? ?] padding].
  destruct (create_bmp_header _ _) as [header|err]; [|done].
  simpl. intros [= <- <-]. simpl.
  by destruct (endswith _ _).
Qed.

(** The names that the scanner decodes are ASCII. *)
Lemma decode_raw_name_ascii_only raw : ascii_only (decode_raw_name raw) = true.
Proof.
  unfold decode_raw_name. generalize (match find_null raw with
    | Some null_pos => slice raw 0 null_pos | None => raw end).
  intros l. unfold decode_ascii_ignore.
  induction l as [|b l IH]; [done|].
  rewrite filter_cons. case_decide as Hb; [|done].
  rewrite fmap_cons. cbn [String.string_of_list_ascii ascii_only].
  rewrite IH, andb_true_r. apply Nat.ltb_lt.
  unfold code. rewrite Ascii.ascii_of_byte_via_nat.
  rewrite nat_ascii_embedding.
  - unfold byte_val in Hb. rewrite Byte.to_nat_via_N. lia.
  - pose proof (Byte.to_N_bounded b). rewrite Byte.to_nat_via_N. lia.
Qed.
End Names.

Section NameClaim.
Import Bitmap BitmapSpec.

(** C8, as amended: for every resource name (of ASCII characters), the
    output file name is the name with the path separators ['/'] and ['\']
    replaced by ['_'], alphanumerics and the characters of ["._-(), "] kept
    and every other character replaced by ['_'], and then with the spaces at
    both ends removed; a name that neither starts nor ends with a space is
    mapped character by character. Bitmap outputs get the suffix [".bmp"]
    unless the sanitized name already ends in it, compared without regard to
    case. *)
Theorem C8_sanitized_file_name (name : string) :
  ascii_only name = true →
  sanitize_filename name = strip (sanitize_spec name)
  ∧ (str_head name ≠ Some " "%char → str_last name ≠ Some " "%char →
     sanitize_filename name = sanitize_spec name)
  ∧ (∀ data i e raw_size m f,
       original_name e = name →
       process_entry data i e raw_size = Ok (m, f) →
       f.1 = saved_filename m
       ∧ saved_filename m
         = if is_image m then bmp_suffix (sanitize_filename name)
           else sanitize_filename name).
Proof.
  intros _. split; [apply sanitize_filename_strip|]. split.
  - apply sanitize_filename_no_outer_space.
  - intros data i e raw_size m f <-. apply process_entry_saved_filename.
Qed.

Lemma C8_sanitized_file_name_witness :
  ascii_only "icon:back/1.png" = true
  ∧ sanitize_filename "icon:back/1.png" = "icon_back_1.png"
  ∧ bmp_suffix (sanitize_filename "icon:back/1.png") = "icon_back_1.png.bmp".
Proof.
  assert (Hascii : ascii_only "icon:back/1.png" = true) by reflexivity.
  destruct (C8_sanitized_file_name "icon:back/1.png" Hascii)
    as (_ & Hmap & _).
  split; [exact Hascii|].
  rewrite Hmap; [|discriminate|discriminate].
  split; reflexivity.
Defined.

(** The claim as the specification words it fails on a name that starts
    with a space (the code strips it), and on a bitmap whose name ends in
    [".BMP"] (the code adds no suffix). *)
Lemma C8_sanitize_counterexample :
  sanitize_filename " a.png" ≠ sanitize_spec " a.png"
  ∧ ∃ m f,
      process_entry [Byte.x00; Byte.x00] 0 upper_bmp_entry 2 = Ok (m, f)
      ∧ is_image m = true
      ∧ saved_filename m = "A.BMP"
      ∧ saved_filename m ≠ bmp_suffix_spec (sanitize_spec "A.BMP").
Proof.
  split; [by vm_compute|].
  eexists _, _. split; [by vm_compute|]. by vm_compute.
Qed.
End NameClaim.

(** ** Image classification *)

Section Classification.
Import Bitmap BitmapSpec.
Implicit Types (width height raw_size : Z).

Lemma image_test_spec width height raw_size :
  image_test width height raw_size = true
  ↔ width > 0 ∧ height > 0 ∧ Z.abs (raw_size - width * height * 2) < 4096.
Proof.
  unfold image_test. rewrite andb_true_iff, !bool_decide_eq_true. tauto.
Qed.

Lemma pack_I_fits v : 0 ≤ v < 2 ^ 32 → pack_I v = Ok (le_encode 4 v).
Proof. intros Hv. unfold pack_I. by rewrite decide_True. Qed.

Lemma pack_i_fits v : - 2 ^ 31 ≤ v < 2 ^ 31 → pack_i v = Ok (le_encode 4 v).
Proof. intros Hv. unfold pack_i. by rewrite decide_True. Qed.

Lemma pack_H_fits v : 0 ≤ v < 2 ^ 16 → pack_H v = Ok (le_encode 2 v).
Proof. intros Hv. unfold pack_H. by rewrite decide_True. Qed.

Lemma length_le_encode n v : length (le_encode n v) = n.
Proof.
  revert v. induction n as [|n IH]; intros v; [done|]. simpl. by rewrite IH.
Qed.

(** The header is built whenever its fields fit their formats. *)
Lemma create_bmp_header_fits width height :
  0 ≤ width < 2 ^ 31 → 0 ≤ height ≤ 2 ^ 31 →
  66 + Z.land (width * 2 + 3) (Z.lnot 3) * height < 2 ^ 32 →
  ∃ header, create_bmp_header width height = Ok header
            ∧ length header = 66%nat.
Proof.
  intros Hw Hh Hsize. unfold create_bmp_header. rewrite get_stride_info_eq.
  destruct (dst_stride_bounds width) as (_ & Hd & _). cbv zeta in Hd.
  cbv zeta.
  set (d := Z.land (width * 2 + 3) (Z.lnot 3)) in *.
  assert (0 ≤ d * height) by nia.
  rewrite !pack_I_fits, !pack_i_fits, !pack_H_fits by lia.
  eexists. split; [done|].
  rewrite !length_app, !length_le_encode. done.
Qed.

Lemma process_entry_raw data i e raw_size :
  image_test (e_width e) (e_height e) raw_size = false →
  ∃ m, process_entry data i e raw_size
       = Ok (m, (saved_filename m, raw_data_of data e raw_size))
       ∧ is_image m = false ∧ byte_swap_applied m = false
       ∧ row_padding_bytes m = 0 ∧ bmp_header_size m = 0%nat.
Proof.
  intros Htest. unfold process_entry. rewrite Htest.
  eexists (mkMeta _ _ _ _ _ _ _ _ _ _ _). split; [reflexivity|done].
Qed.

Lemma process_entry_image data i e raw_size :
  image_test (e_width e) (e_height e) raw_size = true →
  (∀ err, process_entry data i e raw_size = Raise err
          ↔ create_bmp_header (e_width e) (e_height e) = Raise err)
  ∧ (∀ header, create_bmp_header (e_width e) (e_height e) = Ok header →
       ∃ m, process_entry data i e raw_size
            = Ok (m, (saved_filename m,
                      header ++ restride_to_bmp
                                  (swap_bytes_16bit
                                     (raw_data_of data e raw_size))
                                  (e_width e) (e_height e)))
            ∧ is_image m = true ∧ byte_swap_applied m = true
            ∧ bmp_header_size m = length header).
Proof.
  intros Htest. unfold process_entry. rewrite Htest.
  destruct (get_stride_info (e_width e)) as [[? ?] padding].
  destruct (create_bmp_header _ _) as [header|err']; simpl.
  - split; [done|]. intros ? [= <-].
    eexists (mkMeta _ _ _ _ _ _ _ _ _ _ _). split; [reflexivity|done].
  - split; [|done]. intros err. split; by intros [= ->].
Qed.
End Classification.

(** ** The resource scanner *)

Section Scanner.
Import Bitmap BitmapSpec.
Implicit Types (data sub l : list byte) (pos start i j k : nat).

(** [find_in] returns the first position of the suffix where [sub]
    occurs. *)
Lemma find_in_None sub l i :
  find_in sub l i = None →
  ∀ k, take (length sub) (drop k l) ≠ sub.
Proof.
  revert i. induction l as [|b l IH]; intros i; simpl.
  - case_bool_decide as Hhere; [done|]. intros _ k. by rewrite drop_nil.
  - case_bool_decide as Hhere; [done|]. intros Hrest [|k]; [done|].
    simpl. by apply (IH (S i)).
Qed.

Lemma find_in_Some sub l i j :
  find_in sub l i = Some j →
  (i ≤ j)%nat
  ∧ take (length sub) (drop (j - i) l) = sub
  ∧ ∀ k, (k < j - i)%nat → take (length sub) (drop k l) ≠ sub.
Proof.
  revert i. induction l as [|b l IH]; intros i; simpl.
  - case_bool_decide as Hhere; [|done]. intros [= <-].
    rewrite Nat.sub_diag. split; [lia|]. split; [done|]. lia.
  - case_bool_decide as Hhere.
    + intros [= <-]. rewrite Nat.sub_diag. split; [lia|].
      split; [done|]. lia.
    + intros Hrest. destruct (IH (S i) Hrest) as (Hle & Hat & Hbefore).
      split; [lia|].
      replace (j - i)%nat with (S (j - S i)) by lia. split; [done|].
      intros [|k] Hk; [done|]. simpl. apply Hbefore. lia.
Qed.

Lemma is_match_alt data pos :
  is_match data pos ↔ take (length MAGIC_SIG) (drop pos data) = MAGIC_SIG.
Proof.
  unfold is_match, slice. by replace (pos + 5 - pos)%nat with 5%nat by lia.
Qed.

Lemma is_match_fits data pos : is_match data pos → (pos + 5 ≤ length data)%nat.
Proof.
  intros Hm. apply (f_equal length) in Hm.
  rewrite length_slice in Hm. simpl in Hm. lia.
Qed.

Lemma bytes_find_None data start :
  bytes_find data MAGIC_SIG start = None →
  ∀ pos, (start ≤ pos)%nat → ¬ is_match data pos.
Proof.
  unfold bytes_find. intros Hnone pos Hpos. rewrite is_match_alt.
  replace pos with (start + (pos - start))%nat by lia.
  rewrite <- drop_drop. by apply (find_in_None _ _ start).
Qed.

Lemma bytes_find_Some data start pos :
  bytes_find data MAGIC_SIG start = Some pos →
  (start ≤ pos)%nat ∧ is_match data pos
  ∧ ∀ k, (start ≤ k < pos)%nat → ¬ is_match data k.
Proof.
  unfold bytes_find. intros Hsome.
  destruct (find_in_Some _ _ _ _ Hsome) as (Hle & Hat & Hbefore).
  split; [done|]. split.
  - rewrite is_match_alt. replace pos with (start + (pos - start))%nat by lia.
    by rewrite <- drop_drop.
  - intros k Hk. rewrite is_match_alt.
    replace k with (start + (k - start))%nat by lia.
    rewrite <- drop_drop. apply Hbefore. lia.
Qed.

(** The occurrences from a position on. *)
Lemma filter_match_none data start n :
  (∀ k, (start ≤ k < start + n)%nat → ¬ is_match data k) →
  filter (is_match data) (seq start n) = [].
Proof.
  revert start. induction n as [|n IH]; intros start Hnone; [done|].
  simpl. rewrite filter_cons_False by (apply Hnone; lia).
  apply IH. intros k Hk. apply Hnone. lia.
Qed.

Lemma filter_match_first data start n pos :
  (start ≤ pos)%nat → (pos < start + n)%nat → is_match data pos →
  (∀ k, (start ≤ k < pos)%nat → ¬ is_match data k) →
  filter (is_match data) (seq start n)
  = pos :: filter (is_match data) (seq (pos + 1) (start + n - (pos + 1))).
Proof.
  intros Hle Hlt Hm Hbefore.
  replace n with ((pos - start) + (1 + (start + n - (pos + 1))))%nat
    at 1 by lia.
  rewrite seq_app, filter_app, filter_match_none.
  - replace (start + (pos - start))%nat with pos by lia.
    simpl seq. rewrite filter_cons_True by done.
    by replace (S pos) with (pos + 1)%nat by lia.
  - intros k Hk. apply Hbefore. lia.
Qed.

(** The loop ends within its fuel and collects the accepted records of
    every occurrence from [start] on. *)
Lemma scan_loop_spec data fuel start entries :
  (length data - start < fuel)%nat →
  scan_loop fuel data start entries
  = Some (entries
          ++ omap (accepted data)
               (filter (is_match data) (seq start (length data - start)))).
Proof.
  revert start entries. induction fuel as [|fuel IH];
    intros start entries Hfuel; [lia|].
  simpl. destruct (bytes_find data MAGIC_SIG start) as [pos|] eqn:Hfind.
  - destruct (bytes_find_Some _ _ _ Hfind) as (Hle & Hm & Hbefore).
    pose proof (is_match_fits _ _ Hm) as Hfits.
    rewrite IH by lia.
    rewrite (filter_match_first data start _ pos) by (done || lia).
    replace (start + (length data - start) - (pos + 1))%nat
      with (length data - (pos + 1))%nat by lia.
    simpl omap. unfold accepted at 2.
    destruct (read_entry data pos) as [[e|]|err]; [|done..].
    by rewrite <- (assoc_L (++)).
  - rewrite filter_match_none.
    + simpl. by rewrite (right_id_L [] (++)).
    + intros k Hk. apply (bytes_find_None _ _ Hfind). lia.
Qed.

Lemma scan_spec data :
  scan data = Some (omap (accepted data) (match_positions data)).
Proof.
  unfold scan, match_positions. rewrite scan_loop_spec by lia.
  by rewrite Nat.sub_0_r.
Qed.
End Scanner.

Section ScannerClaim.
Import Bitmap BitmapSpec.
Implicit Types (data raw : list byte) (pos : nat) (e : entry).

(** The three words of a record are unpacked when they lie inside the
    buffer; the name field may be cut short by the end of the buffer. *)
Lemma read_entry_fits data pos :
  (pos + 32 ≤ length data)%nat →
  read_entry data pos
  = Ok (if decide (e_offset (descriptor_at data pos) < Z.of_nat (length data)
                   ∧ (0 < String.length
                            (original_name (descriptor_at data pos)))%nat)
        then Some (descriptor_at data pos) else None).
Proof.
  intros Hfit. unfold read_entry.
  replace (pos + 24)%nat with (pos + 20 + 4)%nat at 1 by lia.
  rewrite unpack_I_fits by lia. simpl.
  replace (pos + 28)%nat with (pos + 24 + 4)%nat at 1 by lia.
  rewrite unpack_I_fits by lia. simpl.
  replace (pos + 32)%nat with (pos + 28 + 4)%nat at 1 by lia.
  rewrite unpack_I_fits by lia. simpl.
  replace (pos + 28 + 4)%nat with (pos + 32)%nat by lia.
  by destruct (decide _).
Qed.

(** When they do not, an [unpack] raises and the match is skipped. *)
Lemma read_entry_short data pos :
  (length data < pos + 32)%nat → read_entry data pos = Raise struct_error.
Proof.
  intros Hshort. unfold read_entry.
  replace (pos + 24)%nat with (pos + 20 + 4)%nat at 1 by lia.
  destruct (decide (pos + 20 + 4 ≤ length data)%nat) as [H1|H1];
    [rewrite unpack_I_fits by done|by rewrite unpack_I_short by lia].
  simpl. replace (pos + 28)%nat with (pos + 24 + 4)%nat at 1 by lia.
  destruct (decide (pos + 24 + 4 ≤ length data)%nat) as [H2|H2];
    [rewrite unpack_I_fits by done|by rewrite unpack_I_short by lia].
  simpl. replace (pos + 32)%nat with (pos + 28 + 4)%nat at 1 by lia.
  by rewrite unpack_I_short by lia.
Qed.

Lemma string_length_pos (s : string) : (0 < String.length s)%nat ↔ s ≠ "".
Proof. destruct s; simpl; split; (done || lia). Qed.

Lemma accepted_spec data pos e :
  accepted data pos = Some e
  ↔ (pos + 32 ≤ length data)%nat
    ∧ e = descriptor_at data pos
    ∧ e_offset e < Z.of_nat (length data)
    ∧ original_name e ≠ "".
Proof.
  unfold accepted.
  destruct (decide (pos + 32 ≤ length data)%nat) as [Hfit|Hshort].
  - rewrite read_entry_fits by done. case_decide as Hvalid.
    + rewrite string_length_pos in Hvalid. split.
      * intros [= <-]. by destruct Hvalid.
      * by intros (_ & -> & _).
    + split; [done|]. intros (_ & -> & Hoff & Hname).
      destruct Hvalid. by rewrite string_length_pos.
  - rewrite read_entry_short by lia. split; [done|]. lia.
Qed.

(** The name is decoded from the bytes of the field before its first null
    byte. *)
Lemma decode_raw_name_spec raw :
  ∃ kept,
    decode_raw_name raw = decode_ascii_ignore kept
    ∧ kept `prefix_of` raw
    ∧ (Byte.x00 ∉ kept)
    ∧ (kept = raw ∨ raw !! (length kept) = Some Byte.x00).
Proof.
  unfold decode_raw_name, find_null.
  destruct (list_find _ raw) as [[null_pos b]|] eqn:Hfind; simpl.
  - apply list_find_Some in Hfind as (Hat & -> & Hbefore).
    pose proof (lookup_lt_Some _ _ _ Hat) as Hlt.
    exists (slice raw 0 null_pos). split; [done|].
    unfold slice. rewrite drop_0, Nat.sub_0_r.
    split; [apply prefix_take|]. split.
    + intros Hin. apply list_elem_of_lookup in Hin as [j Hj].
      pose proof (lookup_lt_Some _ _ _ Hj) as Hjlt.
      rewrite length_take in Hjlt.
      rewrite lookup_take_lt in Hj by lia.
      by apply (Hbefore j Byte.x00 Hj); [lia|].
    + right. rewrite length_take. by replace (null_pos `min` length raw)%nat
        with null_pos by lia.
  - apply list_find_None in Hfind. exists raw. split; [done|].
    split; [done|]. split; [|by left].
    intros Hin. by apply (proj1 (Forall_forall _ _) Hfind _ Hin).
Qed.

Lemma elem_of_match_positions data pos :
  pos ∈ match_positions data ↔ is_match data pos.
Proof.
  unfold match_positions. rewrite list_elem_of_filter, elem_of_seq.
  split; [by intros [? _]|]. intros Hm. split; [done|].
  apply is_match_fits in Hm. lia.
Qed.

(** C7, as amended: the scanner ends on every buffer and visits every
    occurrence of the 5-byte signature, in increasing order of position,
    overlapping records included. At a match it decodes the little-endian
    words at match+20 (data offset), match+24 (width) and match+28 (height)
    and the name from the at most 64 bytes of the buffer from match+32 on,
    cut at the first null byte, bytes above 0x7F dropped. The descriptor is
    collected if and only if the three words lie inside the buffer
    (match + 32 <= buffer length), offset < buffer length and the name is
    not empty; a match whose words are cut by the end of the buffer is
    skipped and the scan goes on; a name field cut short by the end of the
    buffer is decoded from the bytes that are present. *)
Theorem C7_scanner_collects_valid_matches data :
  scan data = Some (omap (accepted data) (match_positions data))
  ∧ (∀ pos, pos ∈ match_positions data ↔ is_match data pos)
  ∧ (∀ pos e,
       accepted data pos = Some e
       ↔ (pos + 32 ≤ length data)%nat
         ∧ e = descriptor_at data pos
         ∧ e_offset e < Z.of_nat (length data)
         ∧ original_name e ≠ "")
  ∧ (∀ pos, (length data < pos + 32)%nat →
       read_entry data pos = Raise struct_error ∧ accepted data pos = None)
  ∧ (∀ raw, ∃ kept,
       decode_raw_name raw = decode_ascii_ignore kept
       ∧ kept `prefix_of` raw
       ∧ (Byte.x00 ∉ kept)
       ∧ (kept = raw ∨ raw !! (length kept) = Some Byte.x00)).
Proof.
  split; [apply scan_spec|]. split; [apply elem_of_match_positions|].
  split; [apply accepted_spec|]. split; [|apply decode_raw_name_spec].
  intros pos Hshort. pose proof (read_entry_short data pos Hshort) as Hraise.
  split; [done|]. unfold accepted. by rewrite Hraise.
Qed.

Lemma C7_scanner_witness :
  scan one_record = Some [mkEntry 8 0 2 1 "a/b"]
  ∧ match_positions one_record = [8%nat]
  ∧ scan short_record = Some [mkEntry 0 0 2 1 "a"]
  ∧ scan (take 31 short_record) = Some [].
Proof.
  destruct (C7_scanner_collects_valid_matches one_record) as (Hone & _).
  destruct (C7_scanner_collects_valid_matches short_record) as (Hshort & _).
  destruct (C7_scanner_collects_valid_matches (take 31 short_record))
    as (Hcut & _).
  rewrite Hone, Hshort, Hcut. repeat split; reflexivity.
Defined.

(** The last part of the claim as the specification words it fails: the
    record of the 33-byte buffer is cut in its name field, 63 bytes before
    its end, and its descriptor is collected. *)
Lemma C7_truncated_record_counterexample :
  ¬ truncated_matches_skipped short_record.
Proof.
  intros Hclaim.
  specialize (Hclaim [mkEntry 0 0 2 1 "a"] (mkEntry 0 0 2 1 "a")).
  unfold record_fits in Hclaim.
  assert (Hlen : length short_record = 33%nat) by reflexivity.
  rewrite Hlen in Hclaim. simpl in Hclaim.
  assert (96 ≤ 33)%nat; [|lia].
  apply Hclaim; [by vm_compute|left].
Qed.
End ScannerClaim.

(** ** Sorting by data offset *)

Section Sorting.
Import Bitmap BitmapSpec.
Implicit Types (e : entry) (l entries : list entry).

Lemma insert_by_offset_perm e l : insert_by_offset e l ≡ₚ e :: l.
Proof.
  induction l as [|y l IH]; [done|]. simpl. case_decide; [done|].
  rewrite IH. apply Permutation_swap.
Qed.

Lemma sort_by_offset_perm entries : sort_by_offset entries ≡ₚ entries.
Proof.
  induction entries as [|e l IH]; [done|]. simpl.
  by rewrite insert_by_offset_perm, IH.
Qed.

Lemma insert_by_offset_sorted e l :
  StronglySorted offset_le l → StronglySorted offset_le (insert_by_offset e l).
Proof.
  induction 1 as [|y l Hsorted IH Hall]; simpl.
  - repeat constructor.
  - case_decide as Hle.
    + constructor; [by constructor|]. constructor; [done|].
      eapply Forall_impl; [exact Hall|]. unfold offset_le. simpl. lia.
    + constructor; [done|].
      rewrite insert_by_offset_perm. constructor; [|done].
      unfold offset_le. lia.
Qed.

Lemma sort_by_offset_sorted entries :
  StronglySorted offset_le (sort_by_offset entries).
Proof.
  induction entries as [|e l IH]; [constructor|]. simpl.
  by apply insert_by_offset_sorted.
Qed.

(** The sort is stable: entries with the same offset keep their order. *)
Lemma insert_by_offset_stable e l (k : Z) :
  StronglySorted offset_le l →
  filter (λ x, e_offset x = k) (insert_by_offset e l)
  = filter (λ x, e_offset x = k) (e :: l).
Proof.
  induction 1 as [|y l Hsorted IH Hall]; [done|]. simpl.
  case_decide as Hle; [done|].
  rewrite filter_cons, IH, !filter_cons.
  destruct (decide (e_offset y = k)), (decide (e_offset e = k)); try done.
  lia.
Qed.

Lemma sort_by_offset_stable entries (k : Z) :
  filter (λ x, e_offset x = k) (sort_by_offset entries)
  = filter (λ x, e_offset x = k) entries.
Proof.
  induction entries as [|e l IH]; [done|]. simpl.
  rewrite insert_by_offset_stable by apply sort_by_offset_sorted.
  by rewrite !filter_cons, IH.
Qed.

Lemma sorted_lookup_le l i j ei ej :
  StronglySorted offset_le l → (i ≤ j)%nat →
  l !! i = Some ei → l !! j = Some ej → e_offset ei ≤ e_offset ej.
Proof.
  intros Hsorted. revert i j.
  induction Hsorted as [|y l Hsorted IH Hall]; intros i j Hij Hi Hj; [done|].
  destruct i as [|i], j as [|j]; simpl in *; try lia.
  - injection Hi as ->. injection Hj as ->. lia.
  - injection Hi as ->.
    apply (proj1 (Forall_forall _ _) Hall). by eapply list_elem_of_lookup_2.
  - apply (IH i j); (done || lia).
Qed.

(** The limit of the data section is the smallest metadata position. *)
Lemma foldl_min_spec (z : Z) (zs : list Z) :
  foldl Z.min z zs ∈ z :: zs ∧ Forall (λ x, foldl Z.min z zs ≤ x) (z :: zs).
Proof.
  revert z. induction zs as [|y zs IH]; intros z; simpl.
  - split; [left|]. by repeat constructor.
  - destruct (IH (Z.min z y)) as [Hin Hall]. split.
    + apply elem_of_cons in Hin as [Heq|Hin]; [|by do 2 right].
      rewrite Heq. destruct (Z.min_spec z y) as [[_ ->]|[_ ->]];
        [left|right; left].
    + apply Forall_cons in Hall as [Hhd Htl].
      constructor; [lia|]. constructor; [lia|done].
Qed.

Lemma data_end_limit_spec entries file_size :
  entries ≠ [] →
  data_end_limit entries file_size ∈ meta_pos <$> entries
  ∧ ∀ e, e ∈ entries → data_end_limit entries file_size ≤ meta_pos e.
Proof.
  destruct entries as [|e0 l]; [done|]. intros _. simpl.
  destruct (foldl_min_spec (meta_pos e0) (meta_pos <$> l)) as [Hin Hall].
  split; [done|]. intros e He.
  apply (proj1 (Forall_forall _ _) Hall).
  change (meta_pos e ∈ meta_pos <$> (e0 :: l)). by apply list_elem_of_fmap_2.
Qed.
End Sorting.

(** ** The processing loop *)

Section Loop.
Import Bitmap BitmapSpec.
Implicit Types (data : list byte) (entries rest : list entry) (e : entry)
  (m : meta) (st : run_state) (i : nat).

Lemma strongly_sorted_lookup {A} (R : relation A) (l : list A) a b x y :
  StronglySorted R l → (a < b)%nat →
  l !! a = Some x → l !! b = Some y → R x y.
Proof.
  intros Hsorted. revert a b.
  induction Hsorted as [|z l Hsorted IH Hall]; intros a b Hab Ha Hb; [done|].
  destruct b as [|b]; [lia|]. destruct a as [|a]; simpl in *.
  - injection Ha as ->.
    apply (proj1 (Forall_forall _ _) Hall). by eapply list_elem_of_lookup_2.
  - apply (IH a b); (done || lia).
Qed.

Lemma filter_seq_sorted (P : nat → Prop) `{!∀ k, Decision (P k)} i n :
  StronglySorted lt (filter P (seq i n)).
Proof.
  revert i. induction n as [|n IH]; intros i; [constructor|].
  simpl. rewrite filter_cons. case_decide; [|apply IH].
  constructor; [apply IH|]. apply Forall_forall. intros k Hk.
  apply list_elem_of_filter in Hk as [_ Hk]. apply elem_of_seq in Hk. lia.
Qed.

Lemma process_entry_fields data i e raw_size m f :
  process_entry data i e raw_size = Ok (m, f) →
  m_id m = i ∧ original_firmware_name m = original_name e
  ∧ original_offset m = e_offset e ∧ original_raw_size m = raw_size
  ∧ m_width m = e_width e ∧ m_height m = e_height e.
Proof.
  unfold process_entry.
  destruct (image_test _ _ _); [|by intros [= <- <-]].
  destruct (get_stride_info (e_width e)) as [[? ?] padding].
  destruct (create_bmp_header _ _) as [header|err]; [|done].
  simpl. by intros [= <- <-].
Qed.

(** The records appended by the loop from position [i] on: one for each
    entry of positive size, in order, up to the end of the list or to the
    exception that ends the loop. *)
Lemma process_loop_spec data entries limit rest i st st' status :
  process_loop data entries limit i rest st = (st', status) →
  drop i entries = rest →
  let file_size := Z.of_nat (length data) in
  ∃ recs,
    manifest st' = manifest st ++ recs
    ∧ Forall (describes entries limit file_size) recs
    ∧ m_id <$> recs
      `prefix_of` filter (λ k, 0 < raw_size_of entries limit file_size k)
                    (seq i (length rest))
    ∧ (status = None →
       m_id <$> recs
       = filter (λ k, 0 < raw_size_of entries limit file_size k)
           (seq i (length rest))).
Proof.
  intros Hrun Hdrop file_size. revert i st Hrun Hdrop.
  induction rest as [|e rest IH]; intros i st Hrun Hdrop.
  - injection Hrun as <- <-. exists []. rewrite (right_id_L [] (++)).
    by repeat split.
  - assert (Hat : entries !! i = Some e).
    { rewrite <- (Nat.add_0_r i), <- lookup_drop. by rewrite Hdrop. }
    assert (Hnext : drop (S i) entries = rest).
    { rewrite (drop_S _ _ _ Hat) in Hdrop. by injection Hdrop. }
    assert (Hsize : raw_size_at entries limit file_size i (e_offset e)
                    = raw_size_of entries limit file_size i)
      by (unfold raw_size_of; by rewrite Hat).
    simpl in Hrun. fold file_size in Hrun. rewrite Hsize in Hrun.
    simpl length. simpl seq. rewrite filter_cons.
    case_decide as Hdrop_it.
    + rewrite decide_False by lia. by apply (IH (S i) st).
    + rewrite decide_True by lia.
      assert (Hstop : (st, status) = (st', status) → status ≠ None →
                ∃ recs, manifest st' = manifest st ++ recs
                  ∧ Forall (describes entries limit file_size) recs
                  ∧ m_id <$> recs
                    `prefix_of` i :: filter (λ k, 0 < raw_size_of entries limit
                                                   file_size k)
                                      (seq (S i) (length rest))
                  ∧ (status = None →
                     m_id <$> recs
                     = i :: filter (λ k, 0 < raw_size_of entries limit
                                          file_size k)
                              (seq (S i) (length rest)))).
      { intros [= <-] Hsome. exists []. rewrite (right_id_L [] (++)).
        repeat split; [constructor|apply prefix_nil|done]. }
      destruct (process_entry data i e _) as [[m f]|[]] eqn:Hentry;
        [|injection Hrun as <- <-; by apply Hstop].
      destruct (write_binary _ _ _) as [files'|err];
        [|injection Hrun as <- <-; by apply Hstop].
      destruct (IH (S i) _ Hrun Hnext) as (recs & Hman & Hdesc & Hpre & Hall).
      destruct (process_entry_fields _ _ _ _ _ _ Hentry)
        as (Hid & Hname & Hoff & Hraw & Hw & Hh).
      exists (m :: recs). simpl in Hman. rewrite <- (assoc_L (++)) in Hman.
      split; [done|]. split; [|split].
      * constructor; [|done]. exists e. rewrite Hid, Hraw.
        repeat split; try done. lia.
      * rewrite fmap_cons, Hid. by apply prefix_cons.
      * intros Hstatus. rewrite fmap_cons, Hid. f_equal. by apply Hall.
Qed.

(** The manifest of a run is the one that the loop has built, and the run
    ends as the loop does. *)
Lemma process_run data scanned :
  manifest (process data scanned).1
  = manifest (process_loop data (sort_by_offset scanned)
                (data_end_limit (sort_by_offset scanned)
                   (Z.of_nat (length data)))
                0 (sort_by_offset scanned) (mkState [] ∅)).1
  ∧ (process data scanned).2
    = (process_loop data (sort_by_offset scanned)
         (data_end_limit (sort_by_offset scanned) (Z.of_nat (length data)))
         0 (sort_by_offset scanned) (mkState [] ∅)).2.
Proof.
  unfold process. cbv zeta.
  by destruct (process_loop _ _ _ _ _ _) as [st [err|]].
Qed.

(** The manifest of a run. *)
Lemma process_spec data scanned :
  let entries := sort_by_offset scanned in
  let file_size := Z.of_nat (length data) in
  let limit := data_end_limit entries file_size in
  let st := (process data scanned).1 in
  Forall (describes entries limit file_size) (manifest st)
  ∧ m_id <$> manifest st `prefix_of` kept_ids entries limit file_size
  ∧ ((process data scanned).2 = None →
     m_id <$> manifest st = kept_ids entries limit file_size).
Proof.
  intros entries file_size limit st. subst st.
  destruct (process_run data scanned) as [Hman Hstatus].
  fold entries file_size limit in Hman, Hstatus.
  destruct (process_loop data entries limit 0 entries (mkState [] ∅))
    as [st' status] eqn:Hrun.
  destruct (process_loop_spec _ _ _ _ _ _ _ _ Hrun (drop_0 _))
    as (recs & Hrecs & Hdesc & Hpre & Hall).
  simpl in Hrecs, Hman, Hstatus. rewrite Hman, Hstatus, Hrecs. done.
Qed.

Lemma manifest_ids_increasing data scanned a b ma mb :
  let st := (process data scanned).1 in
  (a < b)%nat → manifest st !! a = Some ma → manifest st !! b = Some mb →
  (m_id ma < m_id mb)%nat.
Proof.
  intros st Hab Ha Hb.
  destruct (process_spec data scanned) as (_ & [tail Hpre] & _).
  fold st in Hpre.
  apply (strongly_sorted_lookup lt (m_id <$> manifest st) a b); [|done|..].
  - apply (StronglySorted_app_1_l _ _ tail). rewrite <- Hpre.
    apply filter_seq_sorted.
  - by rewrite list_lookup_fmap, Ha.
  - by rewrite list_lookup_fmap, Hb.
Qed.
End Loop.

Section BoundaryClaim.
Import Bitmap BitmapSpec.
Implicit Types (data : list byte) (scanned entries : list entry) (e : entry).

Lemma raw_size_of_inner entries limit file_size i e next :
  entries !! i = Some e → entries !! (i + 1)%nat = Some next →
  raw_size_of entries limit file_size i = e_offset next - e_offset e.
Proof.
  intros Hi Hnext. unfold raw_size_of, raw_size_at. rewrite Hi, Hnext.
  pose proof (lookup_lt_Some _ _ _ Hnext). by rewrite decide_True by lia.
Qed.

Lemma raw_size_of_last entries limit file_size e :
  entries !! (length entries - 1)%nat = Some e →
  raw_size_of entries limit file_size (length entries - 1)
  = if decide (limit - e_offset e < 0) then file_size - e_offset e
    else limit - e_offset e.
Proof.
  intros Hlast. unfold raw_size_of, raw_size_at. rewrite Hlast.
  by rewrite decide_False by lia.
Qed.

(** C3: for every non-empty list of scanned descriptors, boundary inference
    works on the descriptors sorted by data offset, ascending (a stable
    sort); an entry before the last gets [offset[i+1] - offset[i]], the last
    one gets the smallest metadata position of all entries minus its offset,
    or the image length minus its offset when that difference is negative;
    the manifest only has records for entries of positive size, each with
    the size so computed, and has one for every such entry when the run
    completes. *)
Theorem C3_boundary_inference data scanned :
  scanned ≠ [] →
  let entries := sort_by_offset scanned in
  let file_size := Z.of_nat (length data) in
  let limit := data_end_limit entries file_size in
  let st := (process data scanned).1 in
  entries ≡ₚ scanned
  ∧ StronglySorted offset_le entries
  ∧ (∀ k : Z, filter (λ x, e_offset x = k) entries
              = filter (λ x, e_offset x = k) scanned)
  ∧ (limit ∈ meta_pos <$> scanned ∧ ∀ e, e ∈ scanned → limit ≤ meta_pos e)
  ∧ (∀ i e next,
       entries !! i = Some e → entries !! (i + 1)%nat = Some next →
       raw_size_of entries limit file_size i = e_offset next - e_offset e)
  ∧ (∀ e, entries !! (length entries - 1)%nat = Some e →
       raw_size_of entries limit file_size (length entries - 1)
       = if decide (limit - e_offset e < 0) then file_size - e_offset e
         else limit - e_offset e)
  ∧ Forall (describes entries limit file_size) (manifest st)
  ∧ (∀ i, raw_size_of entries limit file_size i ≤ 0 →
       i ∉ m_id <$> manifest st)
  ∧ ((process data scanned).2 = None →
     m_id <$> manifest st = kept_ids entries limit file_size).
Proof.
  intros Hne entries file_size limit st.
  pose proof (sort_by_offset_perm scanned) as Hperm. fold entries in Hperm.
  assert (Hne' : entries ≠ []).
  { intros Hnil. rewrite Hnil in Hperm. symmetry in Hperm.
    by apply Permutation_nil_r in Hperm. }
  destruct (data_end_limit_spec entries file_size Hne') as [Hin Hmin].
  fold limit in Hin, Hmin.
  destruct (process_spec data scanned) as (Hdesc & Hpre & Hall).
  fold entries file_size limit st in Hdesc, Hpre, Hall.
  split; [done|]. split; [apply sort_by_offset_sorted|].
  split; [intros k; apply sort_by_offset_stable|]. split; [split|].
  - by rewrite <- Hperm.
  - intros e He. apply Hmin. by rewrite Hperm.
  - split; [apply raw_size_of_inner|]. split; [apply raw_size_of_last|].
    split; [done|]. split; [|done].
    intros i Hsize Hi. destruct Hpre as [tail Hpre].
    assert (Hkept : i ∈ kept_ids entries limit file_size)
      by (rewrite Hpre; apply elem_of_app; by left).
    unfold kept_ids in Hkept. apply list_elem_of_filter in Hkept as [Hpos _].
    lia.
Qed.

Lemma C3_boundary_inference_witness :
  three_descriptors ≠ []
  ∧ e_offset <$> sort_by_offset three_descriptors = [100; 250; 600]
  ∧ data_end_limit (sort_by_offset three_descriptors) 1000 = 700
  ∧ original_raw_size <$> manifest (process buffer_1000 three_descriptors).1
    = [150; 350; 100]
  ∧ m_id <$> manifest (process buffer_1000 three_descriptors).1
    = kept_ids (sort_by_offset three_descriptors) 700 1000.
Proof.
  assert (Hne : three_descriptors ≠ []) by discriminate.
  destruct (C3_boundary_inference buffer_1000 three_descriptors Hne)
    as (_ & _ & _ & _ & _ & _ & _ & _ & Hall).
  split; [exact Hne|]. split; [reflexivity|]. split; [reflexivity|].
  split; [reflexivity|]. apply Hall. reflexivity.
Defined.
End BoundaryClaim.

Section ManifestClaim.
Import Bitmap BitmapSpec.
Implicit Types (data : list byte) (scanned : list entry).

(** C10: for every input, the run ends; the records of the manifest are in
    non-decreasing order of [original_offset], each with an id strictly
    greater than the id of the record before it; the id of a record is the
    position of its descriptor in the list sorted by offset, so that ids skip
    the positions of the descriptors dropped for a non-positive size. *)
Theorem C10_manifest_order data :
  main data
  = Some (process data (omap (accepted data) (match_positions data)))
  ∧ ∀ scanned,
      let entries := sort_by_offset scanned in
      let st := (process data scanned).1 in
      (∀ a b ma mb,
         (a < b)%nat →
         manifest st !! a = Some ma → manifest st !! b = Some mb →
         (m_id ma < m_id mb)%nat ∧ original_offset ma ≤ original_offset mb)
      ∧ (∀ m, m ∈ manifest st →
           ∃ e, entries !! m_id m = Some e
                ∧ original_offset m = e_offset e
                ∧ original_firmware_name m = original_name e
                ∧ 0 < original_raw_size m)
      ∧ (∀ i, (i < length entries)%nat →
           raw_size_of entries
             (data_end_limit entries (Z.of_nat (length data)))
             (Z.of_nat (length data)) i ≤ 0 →
           i ∉ m_id <$> manifest st).
Proof.
  split.
  { unfold main. by rewrite scan_spec. }
  intros scanned entries st.
  destruct (process_spec data scanned) as (Hdesc & Hpre & _).
  fold entries st in Hdesc, Hpre.
  assert (Hrec : ∀ m, m ∈ manifest st →
            ∃ e, entries !! m_id m = Some e
                 ∧ original_offset m = e_offset e
                 ∧ original_firmware_name m = original_name e
                 ∧ 0 < original_raw_size m).
  { intros m Hm.
    destruct (proj1 (Forall_forall _ _) Hdesc m Hm)
      as (e & He & Hname & Hoff & _ & _ & _ & Hpos).
    by exists e. }
  split; [|split; [done|]].
  - intros a b ma mb Hab Ha Hb.
    pose proof (manifest_ids_increasing data scanned a b ma mb Hab Ha Hb)
      as Hids.
    split; [done|].
    destruct (Hrec ma) as (ea & Hea & -> & _);
      [by eapply list_elem_of_lookup_2|].
    destruct (Hrec mb) as (eb & Heb & -> & _);
      [by eapply list_elem_of_lookup_2|].
    apply (sorted_lookup_le entries (m_id ma) (m_id mb));
      [apply sort_by_offset_sorted|lia|done..].
  - intros i _ Hsize Hi. destruct Hpre as [tail Hpre].
    assert (Hkept : i ∈ kept_ids entries
              (data_end_limit entries (Z.of_nat (length data)))
              (Z.of_nat (length data)))
      by (rewrite Hpre; apply elem_of_app; by left).
    unfold kept_ids in Hkept. apply list_elem_of_filter in Hkept as [Hpos _].
    lia.
Qed.

Lemma C10_manifest_order_witness :
  e_offset <$> sort_by_offset duplicate_offsets = [100; 200; 200; 300]
  ∧ m_id <$> manifest (process buffer_1200 duplicate_offsets).1
    = [0; 2; 3]%nat
  ∧ original_offset <$> manifest (process buffer_1200 duplicate_offsets).1
    = [100; 200; 300]
  ∧ ∃ ma mb,
      manifest (process buffer_1200 duplicate_offsets).1 !! 0%nat = Some ma
      ∧ manifest (process buffer_1200 duplicate_offsets).1 !! 1%nat = Some mb
      ∧ (m_id ma < m_id mb)%nat ∧ original_offset ma ≤ original_offset mb.
Proof.
  destruct (C10_manifest_order buffer_1200) as [_ Hprocess].
  destruct (Hprocess duplicate_offsets) as (Horder & _ & _).
  split; [reflexivity|]. split; [reflexivity|]. split; [reflexivity|].
  eexists _, _. split; [reflexivity|]. split; [reflexivity|].
  apply (Horder 0%nat 1%nat); [lia|reflexivity|reflexivity].
Defined.
End ManifestClaim.

(** * Further properties of [01-breaker.py] *)

Section DecoderMore.
Import Breaker BreakerSpec BreakerRun BreakerRunSpec.
Implicit Types (data : list byte) (parts : gmap string Partition).

Lemma type_a_partition_range data pos :
  let p := type_a_partition data pos in
  0 ≤ p_offset p < 2 ^ 32 ∧ 0 ≤ p_size p < 2 ^ 32 ∧ p_data p = None.
Proof.
  simpl. pose proof (u32_le_at_range data pos).
  pose proof (u32_le_at_range data (pos + 4)). done.
Qed.

Lemma type_b_partition_range data pos :
  let p := type_b_partition data pos in
  0 ≤ p_offset p < 2 ^ 32 ∧ 0 ≤ p_size p < 2 ^ 32 ∧ p_data p = None.
Proof.
  simpl. pose proof (u32_le_at_range data (pos + 4)).
  pose proof (u32_le_at_range data (pos + 8)). done.
Qed.

(** X1: The Type-A partitions take the first two words of their header, and
    every decoded offset and size is an unsigned 32-bit value, with no data
    attached yet. *)
Theorem X1_type_a_first_second_words data :
  (min_image_length ≤ length data)%nat →
  ∃ parts,
    analyze_hybrid_headers data = Ok parts
    ∧ (∀ pos name, (pos, name) ∈ standard_entries →
         parts !! name
         = Some (mkPartition (u32_le_at data pos) (u32_le_at data (pos + 4))
                   None))
    ∧ (∀ name p, parts !! name = Some p →
         0 ≤ p_offset p < 2 ^ 32 ∧ 0 ≤ p_size p < 2 ^ 32
         ∧ p_data p = None).
Proof.
  intros Hlen. eexists. split; [by apply analyze_hybrid_headers_fits|]. split.
  - intros pos name Hin. unfold standard_entries in Hin.
    repeat (apply elem_of_cons in Hin as [[= -> ->]|Hin];
            [by simplify_map_eq|]).
    by apply elem_of_nil in Hin.
  - assert (Hall : map_Forall (λ _ p,
        0 ≤ p_offset p < 2 ^ 32 ∧ 0 ≤ p_size p < 2 ^ 32 ∧ p_data p = None)
        (<["part_4_audio_dsp" := type_b_partition data 0xF4]>
        (<["part_5_main_fs" := type_a_partition data 0x14C]>
        (<["part_3_resource" := type_a_partition data 0xCC]>
        (<["part_2_firmware_b" := type_a_partition data 0x80]>
        (<["part_1_firmware_a" := type_a_partition data 0x78]>
        (<["part_0_flag" := type_a_partition data 0x70]>
           (∅ : gmap string Partition)))))))).
    { repeat (apply map_Forall_insert_2;
              [apply type_a_partition_range || apply type_b_partition_range|]).
      apply map_Forall_empty. }
    intros name p Hp. by apply (Hall name p).
Qed.

Lemma X1_type_a_witness :
  (min_image_length ≤ length scenario_image)%nat
  ∧ ∃ parts,
      analyze_hybrid_headers scenario_image = Ok parts
      ∧ parts !! "part_0_flag" = Some (mkPartition 0x100 0x50 None).
Proof.
  assert (Hlen : (min_image_length ≤ length scenario_image)%nat)
    by (vm_compute; lia).
  split; [exact Hlen|].
  destruct (X1_type_a_first_second_words scenario_image Hlen)
    as (parts & Hok & Hstd & _).
  exists parts. split; [exact Hok|].
  rewrite (Hstd 0x70%nat "part_0_flag"); [reflexivity|].
  unfold standard_entries. left.
Defined.

(** X2: The first three Type-A headers are 8 bytes apart and 16 bytes long: the
    words unpacked as [next_offset] and as the ignored fourth value of one
    header are the offset and the size of the partition of the next
    header. *)
Theorem X2_type_a_headers_overlap data parts o s n r o' s' n' r' :
  analyze_hybrid_headers data = Ok parts →
  unpack_IIII (slice data 0x70 (0x70 + 16)) = Ok (o, s, n, r) →
  unpack_IIII (slice data 0x78 (0x78 + 16)) = Ok (o', s', n', r') →
  o' = n ∧ s' = r
  ∧ parts !! "part_0_flag" = Some (mkPartition o s None)
  ∧ parts !! "part_1_firmware_a" = Some (mkPartition n r None)
  ∧ parts !! "part_2_firmware_b" = Some (mkPartition n' r' None).
Proof.
  intros Hok H70 H78.
  destruct (decide (min_image_length ≤ length data)%nat) as [Hlen|Hshort].
  - rewrite analyze_hybrid_headers_fits in Hok by done. injection Hok as <-.
    unfold min_image_length in Hlen.
    rewrite unpack_IIII_fits in H70, H78 by lia.
    injection H70 as <- <- <- <-. injection H78 as <- <- <- <-.
    unfold type_a_partition. by simplify_map_eq.
  - by rewrite analyze_hybrid_headers_short in Hok by lia.
Qed.

Lemma X2_type_a_headers_overlap_witness :
  ∃ parts,
    analyze_hybrid_headers scenario_image = Ok parts
    ∧ unpack_IIII (slice scenario_image 0x70 (0x70 + 16))
      = Ok (0x100, 0x50, 0x180, 0x10)
    ∧ parts !! "part_1_firmware_a" = Some (mkPartition 0x180 0x10 None).
Proof.
  assert (Hlen : (min_image_length ≤ length scenario_image)%nat)
    by (vm_compute; lia).
  pose proof (analyze_hybrid_headers_fits scenario_image Hlen) as Hok.
  eexists. split; [exact Hok|].
  assert (H70 : unpack_IIII (slice scenario_image 0x70 (0x70 + 16))
                = Ok (0x100, 0x50, 0x180, 0x10)) by reflexivity.
  assert (H78 : unpack_IIII (slice scenario_image 0x78 (0x78 + 16))
                = Ok (0x180, 0x10, 0, 0)) by reflexivity.
  split; [exact H70|].
  destruct (X2_type_a_headers_overlap _ _ _ _ _ _ _ _ _ _ Hok H70 H78)
    as (_ & _ & _ & Hp1 & _).
  exact Hp1.
Defined.
End DecoderMore.

Section Extraction.
Import Breaker BreakerSpec BreakerRun BreakerRunSpec.
Implicit Types (file_data data : list byte) (parts : gmap string Partition)
  (info : Partition) (ex : extraction) (name : string).

Lemma extract_and_verify_Done file_data parts p3 p4 p5 :
  parts !! "part_3_resource" = Some p3 →
  parts !! "part_4_audio_dsp" = Some p4 →
  parts !! "part_5_main_fs" = Some p5 →
  extract_and_verify file_data parts
  = Done (mkExtraction (extract_partition file_data <$> parts)
            (check_continuity p3 p4) (check_continuity p4 p5)
            (omap (written_file file_data) parts)).
Proof.
  intros H3 H4 H5. unfold extract_and_verify, getitem.
  by rewrite H3, H4, H5.
Qed.

(** Whatever the continuity checks say, the dictionary and the files only
    depend on the partitions. *)
Lemma extract_and_verify_inv file_data parts ex :
  extract_and_verify file_data parts = Done ex →
  ex_parts ex = extract_partition file_data <$> parts
  ∧ ex_files ex = omap (written_file file_data) parts.
Proof.
  unfold extract_and_verify, getitem.
  destruct (parts !! "part_3_resource"); [|done].
  destruct (parts !! "part_4_audio_dsp"); [|done].
  destruct (parts !! "part_5_main_fs"); [|done].
  simpl. by intros [= <-].
Qed.

Lemma length_partition_bytes file_data info :
  0 ≤ p_offset info → 0 ≤ p_size info → in_bounds file_data info →
  Z.of_nat (length (partition_bytes file_data info)) = p_size info.
Proof.
  unfold in_bounds, partition_bytes. intros Hoff Hsz Hin.
  rewrite length_slice. lia.
Qed.

Lemma lookup_partition_bytes file_data info (k : nat) :
  0 ≤ p_offset info → Z.of_nat k < p_size info →
  partition_bytes file_data info !! k
  = file_data !! (Z.to_nat (p_offset info) + k)%nat.
Proof.
  intros Hoff Hk. unfold partition_bytes. apply lookup_slice. lia.
Qed.

Lemma extracted_in_bounds file_data parts ex name info :
  extract_and_verify file_data parts = Done ex →
  parts !! name = Some info → in_bounds file_data info →
  ex_parts ex !! name
  = Some (mkPartition (p_offset info) (p_size info)
            (Some (partition_bytes file_data info)))
  ∧ ex_files ex !! name = Some (partition_bytes file_data info).
Proof.
  intros Hrun Hname Hin.
  destruct (extract_and_verify_inv _ _ _ Hrun) as [-> ->].
  rewrite lookup_fmap, lookup_omap, Hname. simpl.
  unfold extract_partition, written_file. by rewrite !decide_True.
Qed.

Lemma extracted_out_of_bounds file_data parts ex name info :
  extract_and_verify file_data parts = Done ex →
  parts !! name = Some info → ¬ in_bounds file_data info →
  ex_parts ex !! name = Some info ∧ ex_files ex !! name = None.
Proof.
  intros Hrun Hname Hout.
  destruct (extract_and_verify_inv _ _ _ Hrun) as [-> ->].
  rewrite lookup_fmap, lookup_omap, Hname. simpl.
  unfold extract_partition, written_file. by rewrite !decide_False.
Qed.

(** X3: A partition that lies inside the file gets its bytes, exactly [size] of
    them, as data and as file; a partition that reaches past the end of the
    file is left as it was and no file is written for it; offsets and sizes
    are not changed, and the dictionary keeps its keys. *)
Theorem X3_extraction_bounds file_data parts ex name info :
  extract_and_verify file_data parts = Done ex →
  parts !! name = Some info →
  0 ≤ p_offset info → 0 ≤ p_size info →
  let bytes := partition_bytes file_data info in
  (p_offset info + p_size info ≤ Z.of_nat (length file_data) →
     ex_parts ex !! name
     = Some (mkPartition (p_offset info) (p_size info) (Some bytes))
     ∧ ex_files ex !! name = Some bytes
     ∧ Z.of_nat (length bytes) = p_size info
     ∧ ∀ k : nat, Z.of_nat k < p_size info →
         bytes !! k = file_data !! (Z.to_nat (p_offset info) + k)%nat)
  ∧ (Z.of_nat (length file_data) < p_offset info + p_size info →
     ex_parts ex !! name = Some info ∧ ex_files ex !! name = None)
  ∧ dom (ex_parts ex) = dom parts.
Proof.
  intros Hrun Hname Hoff Hsz bytes. split; [|split].
  - intros Hfit. assert (Hin : in_bounds file_data info)
      by (unfold in_bounds; lia).
    destruct (extracted_in_bounds _ _ _ _ _ Hrun Hname Hin) as [Hp Hf].
    split; [done|]. split; [done|].
    split; [by apply length_partition_bytes|].
    intros k Hk. by apply lookup_partition_bytes.
  - intros Hout. apply (extracted_out_of_bounds _ _ _ _ _ Hrun Hname).
    unfold in_bounds. lia.
  - destruct (extract_and_verify_inv _ _ _ Hrun) as [-> _].
    by rewrite dom_fmap_L.
Qed.

Lemma X3_extraction_bounds_witness :
  ∃ ex,
    extract_and_verify file_40 gap_parts = Done ex
    ∧ ex_files ex !! "part_3_resource" = Some (replicate 16 Byte.x2a)
    ∧ ex_files ex !! "part_5_main_fs" = None
    ∧ ex_parts ex !! "part_5_main_fs" = Some (mkPartition 30 20 None).
Proof.
  assert (Hrun : ∃ ex, extract_and_verify file_40 gap_parts = Done ex)
    by (eexists; reflexivity).
  destruct Hrun as [ex Hrun]. exists ex. split; [exact Hrun|].
  assert (H3 : gap_parts !! "part_3_resource" = Some (mkPartition 0 16 None))
    by reflexivity.
  assert (H5 : gap_parts !! "part_5_main_fs" = Some (mkPartition 30 20 None))
    by reflexivity.
  destruct (X3_extraction_bounds _ _ _ _ _ Hrun H3) as ((_ & Hf3 & _) & _);
    [simpl; lia..|].
  destruct (X3_extraction_bounds _ _ _ _ _ Hrun H5) as (_ & Hout & _);
    [simpl; lia..|].
  destruct Hout as [Hp5 Hf5]; [simpl; lia|].
  split; [exact Hf3|]. split; [exact Hf5|exact Hp5].
Defined.

Lemma check_continuity_spec (before after : Partition) :
  (∀ b, check_continuity before after = PASS b
        ↔ b = p_offset after
          ∧ p_offset before + p_size before = p_offset after)
  ∧ (∀ gap, check_continuity before after = WARN gap
            ↔ gap ≠ 0 ∧ p_offset before + p_size before + gap = p_offset after).
Proof.
  unfold check_continuity. case_decide as Hend; split.
  - intros b. split; [intros [= <-]; lia|]. intros [-> _]. f_equal. lia.
  - intros gap. split; [done|]. lia.
  - intros b. split; [done|]. lia.
  - intros gap. split; [intros [= <-]; lia|]. intros [_ Hgap]. f_equal. lia.
Qed.

(** X4: The continuity check of two partitions passes exactly when the first
    one ends where the second one starts; otherwise it warns with the
    distance between the two, negative when they overlap. The extraction is
    done in both cases. *)
Theorem X4_continuity_report file_data parts p3 p4 p5 :
  parts !! "part_3_resource" = Some p3 →
  parts !! "part_4_audio_dsp" = Some p4 →
  parts !! "part_5_main_fs" = Some p5 →
  ∃ ex,
    extract_and_verify file_data parts = Done ex
    ∧ (∀ b, ex_3_4 ex = PASS b
            ↔ b = p_offset p4 ∧ p_offset p3 + p_size p3 = p_offset p4)
    ∧ (∀ gap, ex_3_4 ex = WARN gap
              ↔ gap ≠ 0 ∧ p_offset p3 + p_size p3 + gap = p_offset p4)
    ∧ (∀ b, ex_4_5 ex = PASS b
            ↔ b = p_offset p5 ∧ p_offset p4 + p_size p4 = p_offset p5)
    ∧ (∀ gap, ex_4_5 ex = WARN gap
              ↔ gap ≠ 0 ∧ p_offset p4 + p_size p4 + gap = p_offset p5).
Proof.
  intros H3 H4 H5. eexists. split; [by apply extract_and_verify_Done|].
  simpl. destruct (check_continuity_spec p3 p4) as [Hpass34 Hwarn34].
  destruct (check_continuity_spec p4 p5) as [Hpass45 Hwarn45]. done.
Qed.

Lemma X4_continuity_report_witness :
  ∃ ex,
    extract_and_verify file_40 gap_parts = Done ex
    ∧ ex_3_4 ex = WARN 4 ∧ ex_4_5 ex = PASS 30.
Proof.
  destruct (X4_continuity_report file_40 gap_parts
              (mkPartition 0 16 None) (mkPartition 20 10 None)
              (mkPartition 30 20 None) eq_refl eq_refl eq_refl)
    as (ex & Hrun & _ & Hwarn & Hpass & _).
  exists ex. split; [exact Hrun|]. split.
  - apply Hwarn. simpl. lia.
  - apply Hpass. simpl. lia.
Defined.

(** X5: The extraction needs the three partitions of the continuity checks: it
    raises [KeyError] for the first one that the dictionary lacks, in the
    order resource, special, main filesystem, and it raises nothing else.
    It never fails on a dictionary that the decoder returned. *)
Theorem X5_extraction_key_errors file_data parts :
  (∀ e, extract_and_verify file_data parts = Failed e ↔
     (parts !! "part_3_resource" = None ∧ e = KeyError "part_3_resource")
     ∨ (is_Some (parts !! "part_3_resource")
        ∧ parts !! "part_4_audio_dsp" = None
        ∧ e = KeyError "part_4_audio_dsp")
     ∨ (is_Some (parts !! "part_3_resource")
        ∧ is_Some (parts !! "part_4_audio_dsp")
        ∧ parts !! "part_5_main_fs" = None
        ∧ e = KeyError "part_5_main_fs"))
  ∧ (∀ data, analyze_hybrid_headers data = Ok parts →
       ∃ ex, extract_and_verify file_data parts = Done ex).
Proof.
  split.
  - intros e. unfold extract_and_verify, getitem.
    destruct (parts !! "part_3_resource") as [p3|]; simpl.
    + destruct (parts !! "part_4_audio_dsp") as [p4|]; simpl.
      * destruct (parts !! "part_5_main_fs") as [p5|]; simpl.
        -- split; [done|]. intros [[? _]|[(_ & ? & _)|(_ & _ & ? & _)]]; done.
        -- split.
           ++ intros [= <-]. right. right. by repeat split.
           ++ intros [[? _]|[(_ & ? & _)|(_ & _ & _ & ->)]]; done.
      * split.
        -- intros [= <-]. right. left. by repeat split.
        -- intros [[? _]|[(_ & _ & ->)|(_ & [? ?] & _)]]; done.
    + split.
      * intros [= <-]. by left.
      * intros [[_ ->]|[([? ?] & _)|([? ?] & _)]]; done.
  - intros data Hok.
    destruct (decide (min_image_length ≤ length data)%nat) as [Hlen|Hshort].
    + rewrite analyze_hybrid_headers_fits in Hok by done.
      injection Hok as <-. eexists.
      by apply extract_and_verify_Done; simplify_map_eq.
    + by rewrite analyze_hybrid_headers_short in Hok by lia.
Qed.
End Extraction.

Section DecodeExtract.
Import Breaker BreakerSpec BreakerRun BreakerRunSpec.
Implicit Types (data : list byte).

Lemma analyze_hybrid_headers_decoded data :
  (min_image_length ≤ length data)%nat →
  analyze_hybrid_headers data = Ok (decoded_parts data).
Proof. apply analyze_hybrid_headers_fits. Qed.

Lemma decoded_parts_standard data pos name :
  (pos, name) ∈ standard_entries →
  decoded_parts data !! name = Some (type_a_partition data pos).
Proof.
  intros Hin. unfold standard_entries in Hin. unfold decoded_parts.
  repeat (apply elem_of_cons in Hin as [[= -> ->]|Hin];
          [by simplify_map_eq|]).
  by apply elem_of_nil in Hin.
Qed.

Lemma decoded_parts_special data :
  decoded_parts data !! "part_4_audio_dsp"
  = Some (type_b_partition data 0xF4).
Proof. unfold decoded_parts. by simplify_map_eq. Qed.

Lemma extract_decoded data :
  ∃ ex, extract_and_verify data (decoded_parts data) = Done ex.
Proof.
  eexists. apply extract_and_verify_Done.
  - apply (decoded_parts_standard data 0xCC). unfold standard_entries.
    do 3 right. left.
  - apply decoded_parts_special.
  - apply (decoded_parts_standard data 0x14C). unfold standard_entries.
    do 4 right. left.
Qed.

(** The file written for a decoded partition. *)
Lemma extract_decoded_file data ex name info :
  extract_and_verify data (decoded_parts data) = Done ex →
  decoded_parts data !! name = Some info →
  0 ≤ p_offset info → 0 ≤ p_size info →
  let bytes := partition_bytes data info in
  (p_offset info + p_size info ≤ Z.of_nat (length data) →
     ex_files ex !! name = Some bytes
     ∧ Z.of_nat (length bytes) = p_size info)
  ∧ (Z.of_nat (length data) < p_offset info + p_size info →
     ex_files ex !! name = None).
Proof.
  intros Hrun Hname Hoff Hsz bytes. split.
  - intros Hfit. assert (Hin : in_bounds data info)
      by (unfold in_bounds; lia).
    destruct (extracted_in_bounds _ _ _ _ _ Hrun Hname Hin) as [_ Hf].
    split; [done|]. by apply length_partition_bytes.
  - intros Hout.
    apply (extracted_out_of_bounds _ _ _ _ _ Hrun Hname).
    unfold in_bounds. lia.
Qed.

(** X6: Decoding and extraction together, on an image that holds the six
    headers: the file of a Type-A partition is the [size] bytes of the image
    from [offset] on, [offset] and [size] being the first two words of its
    header, and the file of the special partition likewise with the second
    and third words of the header at [0xF4]; a partition that reaches past
    the end of the image gets no file, and the others still get theirs. *)
Theorem X6_decode_then_extract data :
  (min_image_length ≤ length data)%nat →
  ∃ parts ex,
    analyze_hybrid_headers data = Ok parts
    ∧ extract_and_verify data parts = Done ex
    ∧ (∀ pos name, (pos, name) ∈ header_table →
         let first := if decide (name = "part_4_audio_dsp") then 4%nat
                      else 0%nat in
         let offset := u32_le_at data (pos + first) in
         let size := u32_le_at data (pos + first + 4) in
         let bytes :=
           slice data (Z.to_nat offset) (Z.to_nat (offset + size)) in
         (offset + size ≤ Z.of_nat (length data) →
            ex_files ex !! name = Some bytes
            ∧ Z.of_nat (length bytes) = size)
         ∧ (Z.of_nat (length data) < offset + size →
            ex_files ex !! name = None)).
Proof.
  intros Hlen. destruct (extract_decoded data) as [ex Hrun].
  exists (decoded_parts data), ex.
  split; [by apply analyze_hybrid_headers_decoded|]. split; [done|].
  intros pos name Hin. unfold header_table in Hin.
  apply elem_of_app in Hin as [Hstd|Hspecial].
  - assert (Hname : name ≠ "part_4_audio_dsp").
    { unfold standard_entries in Hstd.
      repeat (apply elem_of_cons in Hstd as [[= -> ->]|Hstd]; [done|]).
      by apply elem_of_nil in Hstd. }
    rewrite decide_False by done. cbv zeta.
    rewrite Nat.add_0_r.
    pose proof (decoded_parts_standard data pos name Hstd) as Hlook.
    pose proof (type_a_partition_range data pos) as (Hoff & Hsz & _).
    apply (extract_decoded_file data ex name _ Hrun Hlook); simpl in *; lia.
  - apply list_elem_of_singleton in Hspecial as [= -> ->].
    rewrite decide_True by done. cbv zeta.
    pose proof (decoded_parts_special data) as Hlook.
    pose proof (type_b_partition_range data 0xF4) as (Hoff & Hsz & _).
    replace (p4_pos + 4 + 4)%nat with (0xF4 + 8)%nat by (unfold p4_pos; lia).
    apply (extract_decoded_file data ex _ _ Hrun Hlook); simpl in *; lia.
Qed.

Lemma X6_decode_then_extract_witness :
  (min_image_length ≤ length scenario_image)%nat
  ∧ ∃ parts ex,
      analyze_hybrid_headers scenario_image = Ok parts
      ∧ extract_and_verify scenario_image parts = Done ex
      ∧ ex_files ex !! "part_0_flag"
        = Some (slice scenario_image 0x100 0x150)
      ∧ length (slice scenario_image 0x100 0x150) = 0x50%nat.
Proof.
  assert (Hlen : (min_image_length ≤ length scenario_image)%nat)
    by (vm_compute; lia).
  split; [exact Hlen|].
  destruct (X6_decode_then_extract scenario_image Hlen)
    as (parts & ex & Hok & Hrun & Hfiles).
  exists parts, ex. split; [exact Hok|]. split; [exact Hrun|].
  destruct (Hfiles 0x70%nat "part_0_flag") as [Hfit _].
  { unfold header_table, standard_entries. left. }
  destruct Hfit as [Hfile _]; [by vm_compute|].
  split; [exact Hfile|reflexivity].
Defined.
End DecodeExtract.

Section ResourceTable.
Import Breaker BreakerSpec BreakerRun BreakerRunSpec.
Implicit Types (data : list byte) (indices : list Z) (i j k : nat).
#[local] Arguments Nat.div _ _ : simpl never.
#[local] Arguments Nat.modulo _ _ : simpl never.

Lemma length_be_words data : length (be_words data) = (length data / 2)%nat.
Proof.
  induction data as [|b|hi lo data IH] using list_pair_ind; [done..|].
  simpl be_words. simpl length. rewrite IH.
  pose proof (Nat.div_mod_eq (length data) 2).
  pose proof (Nat.mod_upper_bound (length data) 2).
  pose proof (Nat.div_mod_eq (S (S (length data))) 2).
  pose proof (Nat.mod_upper_bound (S (S (length data))) 2). lia.
Qed.

Lemma be_words_lookup data i :
  (2 * i + 1 < length data)%nat → be_words data !! i = Some (be16_at data i).
Proof.
  revert i. induction data as [|b|hi lo data IH] using list_pair_ind;
    intros i Hi; simpl in Hi; [lia..|].
  destruct i as [|i].
  - unfold be16_at, byte_at. by simpl.
  - simpl be_words. simpl lookup. rewrite IH by lia. f_equal.
    unfold be16_at, byte_at.
    replace (2 * S i)%nat with (S (S (2 * i))) by lia. done.
Qed.

Lemma be16_at_range data i : 0 ≤ be16_at data i < 2 ^ 16.
Proof.
  unfold be16_at. pose proof (byte_at_range data (2 * i)).
  pose proof (byte_at_range data (2 * i + 1)). lia.
Qed.

Lemma first_mismatch_None indices i :
  first_mismatch indices i = None
  ↔ ∀ k x, indices !! k = Some x → x = Z.of_nat (i + k).
Proof.
  revert i. induction indices as [|y l IH]; intros i; simpl.
  - split; [|done]. by intros _ k x.
  - case_decide as Hy.
    + split; [done|]. intros Hall. destruct Hy.
      rewrite (Hall 0%nat y eq_refl). f_equal. lia.
    + rewrite IH. split.
      * intros Hall [|k] x Hx; simpl in Hx.
        -- injection Hx as <-. rewrite Nat.add_0_r. lia.
        -- rewrite (Hall k x Hx). f_equal. lia.
      * intros Hall k x Hx. rewrite (Hall (S k) x Hx). f_equal. lia.
Qed.

Lemma first_mismatch_Some indices i j :
  first_mismatch indices i = Some j →
  (i ≤ j)%nat
  ∧ (∃ x, indices !! (j - i)%nat = Some x ∧ x ≠ Z.of_nat j)
  ∧ ∀ k x, (k < j - i)%nat → indices !! k = Some x → x = Z.of_nat (i + k).
Proof.
  revert i. induction indices as [|y l IH]; intros i; simpl; [done|].
  case_decide as Hy.
  - intros [= <-]. rewrite Nat.sub_diag. split; [lia|].
    split; [by exists y|]. lia.
  - intros Hrest. destruct (IH (S i) Hrest) as (Hle & (x & Hx & Hne) & Hbefore).
    split; [lia|]. replace (j - i)%nat with (S (j - S i)) by lia.
    split; [by exists x|].
    intros [|k] z Hk Hz; simpl in Hz.
    + injection Hz as <-. rewrite Nat.add_0_r. lia.
    + rewrite (Hbefore k z) by (done || lia). f_equal. lia.
Qed.

Lemma analyze_resource_table_odd data :
  (length data mod 2 = 1)%nat →
  analyze_resource_table data = Raise struct_error.
Proof.
  intros Hodd. unfold analyze_resource_table, unpack_be_H.
  pose proof (Nat.div_mod_eq (length data) 2).
  by rewrite decide_False by lia.
Qed.

Lemma analyze_resource_table_even data :
  (length data mod 2 = 0)%nat →
  analyze_resource_table data
  = Ok (mkTableReport false (length data / 2)
          match first_mismatch (be_words data) 0 with
          | None => StrictlyLinear
          | Some broken_at =>
              NonLinear broken_at
                (slice (be_words data) broken_at (broken_at + 10))
          end).
Proof.
  intros Heven. unfold analyze_resource_table, unpack_be_H.
  pose proof (Nat.div_mod_eq (length data) 2).
  rewrite decide_True by lia.
  rewrite bool_decide_eq_false_2 by lia.
  change (Ok (be_words data) ≫= ?f) with (f (be_words data)). cbv beta.
  by destruct (first_mismatch _ _).
Qed.

(** X7: The table analysis raises exactly on a partition of odd length: the
    unpacking asks for [2 * (length / 2)] bytes. The size warning is thus
    always followed by the exception, and a report is only made for an even
    length, with [length / 2] entries. *)
Theorem X7_resource_table_odd_length_raises data :
  (analyze_resource_table data = Raise struct_error
   ↔ (length data mod 2 = 1)%nat)
  ∧ (∀ r, analyze_resource_table data = Ok r →
       size_warning r = false
       ∧ length data = (2 * total_entries r)%nat).
Proof.
  pose proof (Nat.div_mod_eq (length data) 2) as Hdiv.
  pose proof (Nat.mod_upper_bound (length data) 2) as Hmod.
  destruct (decide (length data mod 2 = 1)%nat) as [Hodd|Heven].
  - rewrite analyze_resource_table_odd by done. by split.
  - rewrite analyze_resource_table_even by lia. split.
    + split; [done|lia].
    + intros r [= <-]. cbn [size_warning total_entries]. split; [done|lia].
Qed.

(** X8: On a partition of even length, the table is reported as strictly linear
    exactly when every 16-bit big-endian word holds its own index;
    otherwise the index reported is the first one whose word differs, and
    the example shown is made of the words from that index on, ten at
    most. *)
Theorem X8_resource_table_linearity data r :
  analyze_resource_table data = Ok r →
  (structure r = StrictlyLinear
   ↔ ∀ i, (i < total_entries r)%nat → be16_at data i = Z.of_nat i)
  ∧ (∀ broken_at example,
       structure r = NonLinear broken_at example →
       (broken_at < total_entries r)%nat
       ∧ be16_at data broken_at ≠ Z.of_nat broken_at
       ∧ (∀ i, (i < broken_at)%nat → be16_at data i = Z.of_nat i)
       ∧ example
         = be16_at data
           <$> seq broken_at (10 `min` (total_entries r - broken_at))).
Proof.
  intros Hrun.
  pose proof (Nat.div_mod_eq (length data) 2) as Hdiv.
  pose proof (Nat.mod_upper_bound (length data) 2) as Hmod.
  destruct (decide (length data mod 2 = 1)%nat) as [Hodd|Heven];
    [by rewrite analyze_resource_table_odd in Hrun|].
  rewrite analyze_resource_table_even in Hrun by lia. injection Hrun as <-.
  cbn [structure total_entries].
  assert (Hword : ∀ i, (i < length data / 2)%nat →
            be_words data !! i = Some (be16_at data i))
    by (intros i Hi; apply be_words_lookup; lia).
  destruct (first_mismatch (be_words data) 0) as [j|] eqn:Hfirst.
  - destruct (first_mismatch_Some _ _ _ Hfirst) as (_ & (x & Hx & Hne) & Hbefore).
    rewrite Nat.sub_0_r in Hx, Hbefore.
    pose proof (lookup_lt_Some _ _ _ Hx) as Hj.
    rewrite length_be_words in Hj. rewrite Hword in Hx by done.
    injection Hx as <-. split.
    + split; [done|]. intros Hall. destruct Hne. by apply Hall.
    + intros b ex [= <- <-]. split; [done|]. split; [done|]. split.
      * intros i Hi. symmetry.
        rewrite (Hbefore i (be16_at data i)); [done|done|].
        apply Hword. lia.
      * apply list_eq. intros k. rewrite list_lookup_fmap.
        destruct (decide (k < 10 `min` (length data / 2 - j))%nat) as [Hk|Hk].
        -- rewrite lookup_slice by lia. rewrite Hword by lia.
           rewrite lookup_seq_lt by done. done.
        -- rewrite lookup_seq_ge by lia. simpl.
           apply lookup_ge_None_2. rewrite length_slice, length_be_words. lia.
  - split; [|done]. split; [|done]. intros _ i Hi.
    rewrite first_mismatch_None in Hfirst.
    by rewrite (Hfirst i _ (Hword i Hi)).
Qed.

Lemma X8_resource_table_linearity_witness :
  (∃ r, analyze_resource_table linear_table = Ok r
        ∧ structure r = StrictlyLinear)
  ∧ (∃ r, analyze_resource_table broken_table = Ok r
          ∧ structure r = NonLinear 1 [7; 2]
          ∧ be16_at broken_table 1 ≠ 1).
Proof.
  split.
  - eexists. split; [reflexivity|reflexivity].
  - eexists. split; [reflexivity|]. split; [reflexivity|].
    destruct (X8_resource_table_linearity broken_table _ eq_refl)
      as (_ & Hbroken).
    destruct (Hbroken 1%nat [7; 2] eq_refl) as (_ & Hne & _). exact Hne.
Defined.

(** X9: A strictly linear table has at most 65536 entries: a 16-bit word cannot
    hold a larger index. *)
Theorem X9_linear_table_size data r :
  analyze_resource_table data = Ok r →
  structure r = StrictlyLinear →
  Z.of_nat (total_entries r) ≤ 65536 ∧ Z.of_nat (length data) ≤ 131072.
Proof.
  intros Hrun Hlinear.
  pose proof (Nat.div_mod_eq (length data) 2) as Hdiv.
  pose proof (Nat.mod_upper_bound (length data) 2) as Hmod.
  destruct (decide (length data mod 2 = 1)%nat) as [Hodd|Heven];
    [by rewrite analyze_resource_table_odd in Hrun|].
  rewrite analyze_resource_table_even in Hrun by lia. injection Hrun as <-.
  cbn [structure total_entries] in *.
  destruct (first_mismatch (be_words data) 0) as [j|] eqn:Hfirst; [done|].
  rewrite first_mismatch_None in Hfirst.
  assert (Hcount : Z.of_nat (length data / 2) ≤ 65536); [|lia].
  destruct (decide (Z.of_nat (length data / 2) ≤ 65536)) as [|Hbig]; [done|].
  pose proof (be_words_lookup data (Z.to_nat 65536) ltac:(lia)) as Hword.
  apply Hfirst in Hword.
  pose proof (be16_at_range data (Z.to_nat 65536)). lia.
Qed.

Lemma X9_linear_table_size_witness :
  ∃ r, analyze_resource_table linear_table = Ok r
       ∧ structure r = StrictlyLinear ∧ Z.of_nat (total_entries r) ≤ 65536.
Proof.
  eexists. split; [reflexivity|]. split; [reflexivity|].
  destruct (X9_linear_table_size linear_table _ eq_refl eq_refl) as [Hle _].
  exact Hle.
Defined.
End ResourceTable.

Section FirmwareCheck.
Import Breaker BreakerSpec BreakerRun BreakerRunSpec.
Implicit Types (data : list byte).

(** [a & ~1] clears the low bit. *)
Lemma land_lnot_1 (a : Z) : Z.land a (Z.lnot 1) = 2 * (a / 2).
Proof.
  rewrite <- Z.ldiff_land. change 1 with (Z.ones 1) at 1.
  rewrite Z.ldiff_ones_r by lia.
  rewrite Z.shiftl_mul_pow2, Z.shiftr_div_pow2 by lia.
  change (2 ^ 1) with 2. lia.
Qed.

Lemma unpack_II_fits data :
  (8 ≤ length data)%nat →
  unpack_II (slice data 0 8) = Ok (u32_le_at data 0, u32_le_at data 4).
Proof.
  intros Hlen. unfold unpack_II.
  rewrite decide_True by (rewrite length_slice; lia).
  by rewrite !word32_slice by lia.
Qed.

Lemma verify_firmware_execution_short data :
  (length data < 8)%nat →
  verify_firmware_execution data = Raise struct_error.
Proof.
  intros Hlen. unfold verify_firmware_execution, unpack_II.
  by rewrite decide_False by (rewrite length_slice; lia).
Qed.

(** The report for a firmware of at least 8 bytes. *)
Lemma verify_firmware_execution_fits data :
  (8 ≤ length data)%nat →
  let reset := u32_le_at data 4 in
  let fw_size := Z.of_nat (length data) in
  let file_offset := 2 * (reset / 2) - base_addr in
  verify_firmware_execution data
  = Ok (mkExecReport (u32_le_at data 0) reset
          (if decide (base_addr ≤ reset < base_addr + fw_size) then
             MapsTo file_offset
               (if decide (file_offset < fw_size - 4)
                then Some (u32_le_at data (Z.to_nat file_offset))
                else None)
           else OutsideBase)).
Proof.
  intros Hlen reset fw_size file_offset. unfold verify_firmware_execution.
  rewrite unpack_II_fits by done. simpl. fold reset fw_size.
  case_decide as Hrange; [|done].
  rewrite land_lnot_1. fold file_offset.
  case_decide as Hread; [|done].
  assert (0 ≤ file_offset).
  { unfold file_offset, base_addr in *.
    Z.to_euclidean_division_equations. lia. }
  replace (Z.to_nat (file_offset + 4)) with (Z.to_nat file_offset + 4)%nat
    by lia.
  rewrite unpack_I_fits by lia. done.
Qed.

(** X10: The firmware check raises exactly when the partition has fewer than 8
    bytes. Otherwise it reports the first two little-endian words as stack
    pointer and reset vector, and maps the reset vector into the file
    exactly when it lies in the [length] bytes from [0x80400000] on. *)
Theorem X10_firmware_check_header data :
  (verify_firmware_execution data = Raise struct_error
   ↔ (length data < 8)%nat)
  ∧ (∀ r, verify_firmware_execution data = Ok r →
       msp r = u32_le_at data 0 ∧ pc r = u32_le_at data 4
       ∧ (verdict r = OutsideBase
          ↔ ¬ (base_addr ≤ pc r < base_addr + Z.of_nat (length data)))).
Proof.
  destruct (decide (length data < 8)%nat) as [Hshort|Hfits].
  - rewrite verify_firmware_execution_short by done. by split.
  - rewrite verify_firmware_execution_fits by lia. split.
    + split; [done|lia].
    + intros r [= <-]. cbn [msp pc verdict]. split; [done|]. split; [done|].
      case_decide; split; (done || tauto).
Qed.

(** X11: When the reset vector is mapped, the file offset is the distance from
    the base address with the Thumb bit cleared, it is not negative, and the
    opcode is read, inside the partition, exactly when more than four bytes
    follow the offset: the read never raises, and the last word of the
    partition is never read. *)
Theorem X11_firmware_opcode_read data r file_offset opcode :
  verify_firmware_execution data = Ok r →
  verdict r = MapsTo file_offset opcode →
  file_offset = pc r - pc r mod 2 - base_addr
  ∧ 0 ≤ file_offset ≤ pc r - base_addr
  ∧ (opcode = None ↔ Z.of_nat (length data) ≤ file_offset + 4)
  ∧ (∀ w, opcode = Some w →
       file_offset + 4 < Z.of_nat (length data)
       ∧ w = u32_le_at data (Z.to_nat file_offset)).
Proof.
  intros Hrun Hverdict.
  destruct (decide (length data < 8)%nat) as [Hshort|Hfits];
    [by rewrite verify_firmware_execution_short in Hrun|].
  rewrite verify_firmware_execution_fits in Hrun by lia.
  injection Hrun as <-. cbn [pc verdict] in *.
  case_decide as Hrange; [|done]. injection Hverdict as <- <-.
  unfold base_addr in *. split; [|split].
  - Z.to_euclidean_division_equations. lia.
  - Z.to_euclidean_division_equations. lia.
  - case_decide as Hread; split.
    + split; [done|lia].
    + intros w [= <-]. split; [lia|done].
    + split; [lia|done].
    + done.
Qed.

Lemma X11_firmware_opcode_read_witness :
  ∃ r, verify_firmware_execution small_firmware = Ok r
       ∧ msp r = 0x20001000 ∧ pc r = 0x80400009
       ∧ verdict r = MapsTo 8 (Some 0xBF00BF00)
       ∧ 8 + 4 < Z.of_nat (length small_firmware).
Proof.
  eexists. split; [reflexivity|]. split; [reflexivity|].
  split; [reflexivity|]. split; [reflexivity|].
  destruct (X11_firmware_opcode_read small_firmware _ 8 (Some 0xBF00BF00)
              eq_refl eq_refl) as (_ & _ & _ & Hread).
  destruct (Hread _ eq_refl) as [Hlt _]. exact Hlt.
Defined.
End FirmwareCheck.

Section BreakerMain.
Import Breaker BreakerSpec BreakerRun BreakerRunSpec.
Implicit Types (data : list byte) (ex : extraction).
#[local] Arguments Nat.div _ _ : simpl never.
#[local] Arguments Nat.modulo _ _ : simpl never.
#[local] Arguments partition_bytes _ _ : simpl never.
#[local] Arguments type_a_partition _ _ : simpl never.
#[local] Arguments analyze_resource_table _ : simpl never.
#[local] Arguments verify_firmware_execution _ : simpl never.
#[local] Arguments in_bounds _ _ : simpl never.

(** The data that the analyses find for a Type-A partition after the
    extraction: its bytes, when it lies inside the image and is not
    empty. *)
Lemma available_decoded data ex pos name :
  (pos, name) ∈ standard_entries →
  extract_and_verify data (decoded_parts data) = Done ex →
  let p := type_a_partition data pos in
  available_data (ex_parts ex) name
  = if decide (in_bounds data p ∧ 0 < p_size p)
    then Some (partition_bytes data p) else None.
Proof.
  intros Hin Hrun p. unfold available_data.
  pose proof (decoded_parts_standard data pos name Hin) as Hlook.
  pose proof (type_a_partition_range data pos) as (Hoff & Hsz & Hnone).
  fold p in Hlook, Hoff, Hsz, Hnone.
  destruct (decide (in_bounds data p)) as [Hfit|Hout].
  - destruct (extracted_in_bounds _ _ _ _ _ Hrun Hlook Hfit) as [-> _].
    cbn [p_data].
    pose proof (length_partition_bytes data p ltac:(lia) ltac:(lia) Hfit)
      as Hlen.
    destruct (partition_bytes data p) as [|b bytes] eqn:Hbytes.
    + rewrite decide_True by done. rewrite decide_False; [done|].
      cbn [length] in Hlen. intros [_ Hpos]. lia.
    + rewrite decide_False by done. rewrite decide_True; [done|].
      cbn [length] in Hlen. split; [done|lia].
  - destruct (extracted_out_of_bounds _ _ _ _ _ Hrun Hlook Hout) as [-> _].
    rewrite Hnone. by rewrite decide_False by tauto.
Qed.

Lemma main_fits data ex :
  (min_image_length ≤ length data)%nat →
  extract_and_verify data (decoded_parts data) = Done ex →
  main data
  = (table ← table_stage data;
     exec ← exec_stage data;
     Done (mkRunReport ex table exec)).
Proof.
  intros Hlen Hrun. unfold main.
  rewrite analyze_hybrid_headers_decoded by done.
  change (lift (Ok ?x) ≫= ?f) with (f x). cbv beta. rewrite Hrun.
  change (Done ?x ≫= ?f) with (f x). cbv beta.
  rewrite (available_decoded data ex 0xCC "part_3_resource")
    by (done || unfold standard_entries; do 3 right; left).
  rewrite (available_decoded data ex 0x78 "part_1_firmware_a")
    by (done || unfold standard_entries; right; left).
  unfold table_stage, exec_stage. cbv zeta.
  by do 2 destruct (decide _).
Qed.

Lemma table_stage_spec data :
  (odd_resource_table data ∧ table_stage data = Failed StructError)
  ∨ (¬ odd_resource_table data ∧ ∃ v, table_stage data = Done v).
Proof.
  unfold odd_resource_table, table_stage. cbv zeta.
  pose proof (type_a_partition_range data 0xCC) as (Hoff & Hsz & _).
  cbv zeta in Hoff, Hsz.
  destruct (decide (in_bounds data (type_a_partition data 0xCC)
                    ∧ 0 < p_size (type_a_partition data 0xCC)))
    as [[Hfit Hpos]|Hskip].
  - pose proof (length_partition_bytes data (type_a_partition data 0xCC)
                  ltac:(lia) ltac:(lia) Hfit) as Hlen.
    pose proof (Nat.div_mod_eq
      (length (partition_bytes data (type_a_partition data 0xCC))) 2) as Hdiv.
    pose proof (Nat.mod_upper_bound
      (length (partition_bytes data (type_a_partition data 0xCC))) 2) as Hmod.
    destruct (decide (length (partition_bytes data
                (type_a_partition data 0xCC)) mod 2 = 1)%nat) as [Hodd|Heven].
    + left. rewrite analyze_resource_table_odd by done.
      split; [|done]. split; [done|].
      rewrite <- Hlen. Z.to_euclidean_division_equations. lia.
    + right. rewrite analyze_resource_table_even by lia.
      split; [|by eexists]. intros [_ Hodd]. rewrite <- Hlen in Hodd.
      revert Hodd. Z.to_euclidean_division_equations. lia.
  - right. split; [|by eexists]. intros [Hfit Hodd]. destruct Hskip.
    split; [done|]. revert Hodd. Z.to_euclidean_division_equations. lia.
Qed.

Lemma exec_stage_spec data :
  (short_firmware data ∧ exec_stage data = Failed StructError)
  ∨ (¬ short_firmware data ∧ ∃ v, exec_stage data = Done v).
Proof.
  unfold short_firmware, exec_stage. cbv zeta.
  pose proof (type_a_partition_range data 0x78) as (Hoff & Hsz & _).
  cbv zeta in Hoff, Hsz.
  destruct (decide (in_bounds data (type_a_partition data 0x78)
                    ∧ 0 < p_size (type_a_partition data 0x78)))
    as [[Hfit Hpos]|Hskip].
  - pose proof (length_partition_bytes data (type_a_partition data 0x78)
                  ltac:(lia) ltac:(lia) Hfit) as Hlen.
    destruct (decide (length (partition_bytes data
                (type_a_partition data 0x78)) < 8)%nat) as [Hshort|Hlong].
    + left. rewrite verify_firmware_execution_short by done.
      split; [|done]. split; [done|lia].
    + right. rewrite verify_firmware_execution_fits by lia.
      split; [|by eexists]. intros [_ Hlt]. lia.
  - right. split; [|by eexists]. intros [Hfit Hlt]. destruct Hskip.
    split; [done|lia].
Qed.

(** X12: The run of the script on the content of the image file raises, and
    then always [struct.error], in exactly three cases: the image is shorter
    than the [0x15C] bytes of the header table; the resource partition lies
    inside the image and has an odd size; the first firmware partition lies
    inside the image and has 1 to 7 bytes. A partition that reaches past the
    end of the image, or that is empty, is not analysed and stops
    nothing. *)
Theorem X12_breaker_main_failures data :
  (∀ e, main data = Failed e → e = StructError)
  ∧ ((∃ e, main data = Failed e)
     ↔ (length data < min_image_length)%nat
       ∨ ((min_image_length ≤ length data)%nat
          ∧ (odd_resource_table data ∨ short_firmware data))).
Proof.
  destruct (decide (length data < min_image_length)%nat) as [Hshort|Hfits].
  { unfold main. rewrite analyze_hybrid_headers_short by done. split.
    - by intros e [= <-].
    - split; [by left|]. intros _. by eexists. }
  destruct (extract_decoded data) as [ex Hrun].
  rewrite (main_fits data ex) by (done || lia).
  destruct (table_stage_spec data) as [[Hodd ->]|[Heven [table ->]]].
  { split; [by intros e [= <-]|]. split; [|by eexists].
    intros _. right. split; [lia|by left]. }
  change (Done table ≫= ?f) with (f table). cbv beta.
  destruct (exec_stage_spec data) as [[Hlt ->]|[Hge [exec ->]]].
  { split; [by intros e [= <-]|]. split; [|by eexists].
    intros _. right. split; [lia|by right]. }
  split; [done|]. split; [by intros [e ?]|].
  intros [?|[_ [?|?]]]; (lia || done).
Qed.

Lemma X12_breaker_main_failures_witness :
  (∃ r, main scenario_image = Done r)
  ∧ main truncated_image = Failed StructError.
Proof.
  destruct (X12_breaker_main_failures truncated_image) as [Honly Hiff].
  assert (Hfail : ∃ e, main truncated_image = Failed e).
  { apply Hiff. left. vm_compute. lia. }
  split; [eexists; reflexivity|].
  destruct Hfail as [e He]. rewrite He. f_equal. by apply Honly.
Defined.
End BreakerMain.

(** * Further properties of [03-bitmap.py] *)

Section BmpHeader.
Import Bitmap BitmapSpec BitmapMoreSpec.
Implicit Types (width height v : Z) (header : list byte).

Lemma pack_I_out v : ¬ (0 ≤ v < 2 ^ 32) → pack_I v = Raise struct_error.
Proof. intros Hv. unfold pack_I. by rewrite decide_False. Qed.

Lemma pack_i_out v :
  ¬ (- 2 ^ 31 ≤ v < 2 ^ 31) → pack_i v = Raise struct_error.
Proof. intros Hv. unfold pack_i. by rewrite decide_False. Qed.

Ltac run_binds :=
  repeat (change (Ok ?x ≫= ?f) with (f x); cbv beta).

(** The header is the sequence of its packed fields when they all fit, and
    the first field that does not fit raises. *)
Lemma create_bmp_header_eq width height :
  create_bmp_header width height
  = if decide (header_fields_fit width height)
    then Ok (bmp_header_bytes width height) else Raise struct_error.
Proof.
  unfold create_bmp_header, header_fields_fit, bmp_header_bytes.
  rewrite get_stride_info_eq. cbv zeta.
  set (d := Z.land (width * 2 + 3) (Z.lnot 3)).
  change (14 + 40 + 12) with 66.
  case_decide as Hfits.
  - rewrite !pack_I_fits, !pack_i_fits, !pack_H_fits by lia. run_binds.
    reflexivity.
  - destruct (decide (0 ≤ 66 + d * height < 2 ^ 32)) as [H1|H1];
      [|by rewrite (pack_I_out (66 + d * height))].
    rewrite (pack_I_fits (66 + d * height)), (pack_I_fits 66),
      (pack_I_fits 40) by lia. run_binds.
    destruct (decide (- 2 ^ 31 ≤ width < 2 ^ 31)) as [H2|H2];
      [|by rewrite (pack_i_out width)].
    rewrite (pack_i_fits width) by lia. run_binds.
    destruct (decide (- 2 ^ 31 ≤ - height < 2 ^ 31)) as [H3|H3];
      [|by rewrite (pack_i_out (- height))].
    rewrite (pack_i_fits (- height)), !pack_H_fits, (pack_I_fits 3) by lia.
    run_binds.
    by rewrite (pack_I_out (d * height)) by lia.
Qed.

Lemma byte_val_of_Z v : byte_val (byte_of_Z v) = v mod 256.
Proof.
  unfold byte_val, byte_of_Z.
  pose proof (Byte.to_of_N_option_map (Z.to_N (v mod 256))) as Hmap.
  assert (Hle : (Z.to_N (v mod 256) <=? 255)%N = true).
  { apply N.leb_le. pose proof (Z.mod_pos_bound v 256). lia. }
  rewrite Hle in Hmap.
  destruct (Byte.of_N (Z.to_N (v mod 256))) as [b|]; [|done].
  simpl in *. injection Hmap as ->.
  pose proof (Z.mod_pos_bound v 256). lia.
Qed.

(** Four packed bytes read back as the value modulo [2^32] (the two's
    complement of a negative value), two packed bytes modulo [2^16]. *)
Lemma four_bytes_value v :
  v mod 256 + 2 ^ 8 * (v / 256 mod 256) + 2 ^ 16 * (v / 256 / 256 mod 256)
  + 2 ^ 24 * (v / 256 / 256 / 256 mod 256) = v mod 2 ^ 32.
Proof. Z.to_euclidean_division_equations. lia. Qed.

Lemma two_bytes_value v :
  v mod 256 + 2 ^ 8 * (v / 256 mod 256) = v mod 2 ^ 16.
Proof. Z.to_euclidean_division_equations. lia. Qed.

Lemma byte_at_app_r (pre l : list byte) (k : nat) :
  byte_at (pre ++ l) (length pre + k) = byte_at l k.
Proof.
  unfold byte_at. rewrite lookup_app_r by lia.
  by replace (length pre + k - length pre)%nat with k by lia.
Qed.

Lemma u32_le_at_packed (pre post : list byte) v p :
  p = length pre →
  u32_le_at (pre ++ le_encode 4 v ++ post) p = v mod 2 ^ 32.
Proof.
  intros ->. unfold u32_le_at.
  rewrite <- (Nat.add_0_r (length pre)) at 1.
  rewrite !byte_at_app_r. unfold byte_at. simpl.
  rewrite !byte_val_of_Z. apply four_bytes_value.
Qed.

Lemma u16_le_at_packed (pre post : list byte) v p :
  p = length pre →
  u16_le_at (pre ++ le_encode 2 v ++ post) p = v mod 2 ^ 16.
Proof.
  intros ->. unfold u16_le_at.
  rewrite <- (Nat.add_0_r (length pre)) at 1.
  rewrite !byte_at_app_r. unfold byte_at. simpl.
  rewrite !byte_val_of_Z. apply two_bytes_value.
Qed.

Lemma u32_le_at_skip (pre l : list byte) (p : nat) :
  (length pre ≤ p)%nat →
  u32_le_at (pre ++ l) p = u32_le_at l (p - length pre).
Proof.
  intros Hp. unfold u32_le_at.
  replace p with (length pre + (p - length pre))%nat at 1 2 3 4 by lia.
  rewrite <- !(assoc_L Nat.add), !byte_at_app_r. done.
Qed.

Lemma u16_le_at_skip (pre l : list byte) (p : nat) :
  (length pre ≤ p)%nat →
  u16_le_at (pre ++ l) p = u16_le_at l (p - length pre).
Proof.
  intros Hp. unfold u16_le_at.
  replace p with (length pre + (p - length pre))%nat at 1 2 by lia.
  rewrite <- !(assoc_L Nat.add), !byte_at_app_r. done.
Qed.

Lemma u32_le_at_head v (post : list byte) (p : nat) :
  p = 0%nat → u32_le_at (le_encode 4 v ++ post) p = v mod 2 ^ 32.
Proof. intros ->. by apply (u32_le_at_packed [] post v 0%nat). Qed.

Lemma u16_le_at_head v (post : list byte) (p : nat) :
  p = 0%nat → u16_le_at (le_encode 2 v ++ post) p = v mod 2 ^ 16.
Proof. intros ->. by apply (u16_le_at_packed [] post v 0%nat). Qed.

Lemma signed_value v :
  - 2 ^ 31 ≤ v < 2 ^ 31 →
  (if decide (v mod 2 ^ 32 < 2 ^ 31) then v mod 2 ^ 32
   else v mod 2 ^ 32 - 2 ^ 32) = v.
Proof.
  intros Hv. destruct (decide (0 ≤ v)) as [Hpos|Hneg].
  - rewrite Z.mod_small by lia. by rewrite decide_True by lia.
  - rewrite <- (Z_mod_plus_full v 1 (2 ^ 32)).
    rewrite Z.mod_small by lia. rewrite decide_False by lia. lia.
Qed.

(** Reading the field at a position of the header: the fields before it
    are skipped one by one. *)
Ltac read_field :=
  unfold s32_le_at, bmp_header_bytes; cbv zeta;
  repeat (rewrite u32_le_at_skip by (simpl; lia));
  repeat (rewrite u16_le_at_skip by (simpl; lia));
  rewrite ?u32_le_at_head, ?u16_le_at_head by reflexivity.

(** The fields of the header, read back at their positions. *)
Lemma bmp_header_bytes_fields width height :
  header_fields_fit width height →
  let image_size := Z.land (width * 2 + 3) (Z.lnot 3) * height in
  let header := bmp_header_bytes width height in
  length header = 66%nat
  ∧ take 2 header = [Byte.x42; Byte.x4d]
  ∧ u32_le_at header 2 = 66 + image_size
  ∧ u32_le_at header 10 = Z.of_nat (length header)
  ∧ u32_le_at header 14 = 40
  ∧ s32_le_at header 18 = width
  ∧ s32_le_at header 22 = - height
  ∧ u16_le_at header 26 = 1
  ∧ u16_le_at header 28 = 16
  ∧ u32_le_at header 30 = 3
  ∧ u32_le_at header 34 = image_size
  ∧ u32_le_at header 54 = 0xF800
  ∧ u32_le_at header 58 = 0x07E0
  ∧ u32_le_at header 62 = 0x001F.
Proof.
  intros Hfits image_size header. subst header.
  destruct Hfits as (Hw & Hh & Hsize & Hfile). cbv zeta in Hsize, Hfile.
  fold image_size in Hsize, Hfile.
  assert (Hlen : length (bmp_header_bytes width height) = 66%nat)
    by reflexivity.
  split; [done|]. split; [done|]. rewrite Hlen.
  repeat apply conj.
  - read_field. fold image_size. apply Z.mod_small. lia.
  - read_field. by vm_compute.
  - read_field. by vm_compute.
  - read_field. apply signed_value. lia.
  - read_field. apply signed_value. lia.
  - read_field. by vm_compute.
  - read_field. by vm_compute.
  - read_field. by vm_compute.
  - read_field. fold image_size. apply Z.mod_small. lia.
  - read_field. by vm_compute.
  - read_field. by vm_compute.
  - read_field. by vm_compute.
Qed.

(** X13: The header that is built has 66 bytes, starts with ["BM"], and its
    fields read back as the values packed: the file size is 66 plus the size
    of the padded pixel rows, the offset of the pixel data is the length of
    the header itself, the width is the declared width and the height field
    is the declared height negated (top-down rows), with 16 bits per pixel,
    bitfield compression and the three RGB565 masks. *)
Theorem X13_bmp_header_fields width height header :
  create_bmp_header width height = Ok header →
  let image_size := Z.land (width * 2 + 3) (Z.lnot 3) * height in
  length header = 66%nat
  ∧ take 2 header = [Byte.x42; Byte.x4d]
  ∧ u32_le_at header 2 = 66 + image_size
  ∧ u32_le_at header 10 = Z.of_nat (length header)
  ∧ u32_le_at header 14 = 40
  ∧ s32_le_at header 18 = width
  ∧ s32_le_at header 22 = - height
  ∧ u16_le_at header 26 = 1
  ∧ u16_le_at header 28 = 16
  ∧ u32_le_at header 30 = 3
  ∧ u32_le_at header 34 = image_size
  ∧ u32_le_at header 54 = 0xF800
  ∧ u32_le_at header 58 = 0x07E0
  ∧ u32_le_at header 62 = 0x001F.
Proof.
  rewrite create_bmp_header_eq. case_decide as Hfits; [|done].
  intros [= <-]. by apply bmp_header_bytes_fields.
Qed.

Lemma X13_bmp_header_fields_witness :
  ∃ header,
    create_bmp_header 3 2 = Ok header
    ∧ length header = 66%nat
    ∧ u32_le_at header 2 = 66 + 8 * 2
    ∧ s32_le_at header 18 = 3 ∧ s32_le_at header 22 = - 2.
Proof.
  eexists. split; [reflexivity|].
  destruct (X13_bmp_header_fields 3 2 _ eq_refl)
    as (Hlen & _ & Hsize & _ & _ & Hw & Hh & _).
  split; [exact Hlen|]. split; [exact Hsize|]. split; [exact Hw|exact Hh].
Defined.

(** X14: The header is built exactly when the declared width fits a signed
    32-bit field, the negated height does too, and the size of the padded
    pixel rows is not negative and leaves room for the 66 bytes of the
    header in an unsigned 32-bit field; otherwise packing raises. *)
Theorem X14_bmp_header_raises width height :
  (create_bmp_header width height = Raise struct_error
   ↔ ¬ header_fields_fit width height)
  ∧ ((∃ header, create_bmp_header width height = Ok header)
     ↔ header_fields_fit width height).
Proof.
  rewrite create_bmp_header_eq. case_decide as Hfits.
  - split; [split; [done|tauto]|]. split; [done|]. intros _. by eexists.
  - split; [done|]. split; [by intros [? ?]|done].
Qed.
End BmpHeader.

Section SanitizeMore.
Import Bitmap BitmapSpec BitmapMoreSpec.
Implicit Types (s name : string) (c : ascii).

Ltac each_char c :=
  destruct c as [[] [] [] [] [] [] [] []]; vm_compute; try done.

Lemma safe_sanitize_char c : safe_char (sanitize_char c) = true.
Proof. each_char c. Qed.

Lemma sanitize_char_safe_id c : safe_char c = true → sanitize_char c = c.
Proof. each_char c. Qed.

Lemma str_forall_map (P : ascii → bool) (f : ascii → ascii) s :
  (∀ c, P (f c) = true) → str_forall P (str_map f s) = true.
Proof.
  intros HP. induction s as [|c s IH]; [done|]. simpl. by rewrite HP, IH.
Qed.

Lemma str_forall_lstrip (P : ascii → bool) s :
  str_forall P s = true → str_forall P (lstrip s) = true.
Proof.
  induction s as [|c s IH]; [done|]. simpl. intros Hs.
  apply andb_true_iff in Hs as [Hc Hs].
  destruct (isspace c); [by apply IH|]. simpl. by rewrite Hc, Hs.
Qed.

Lemma str_forall_rstrip (P : ascii → bool) s :
  str_forall P s = true → str_forall P (rstrip s) = true.
Proof.
  induction s as [|c s IH]; [done|]. simpl. intros Hs.
  apply andb_true_iff in Hs as [Hc Hs]. specialize (IH Hs).
  destruct (rstrip s) as [|d r].
  - destruct (isspace c); [done|]. simpl. by rewrite Hc.
  - simpl in *. by rewrite Hc, IH.
Qed.

Lemma length_lstrip s : (String.length (lstrip s) ≤ String.length s)%nat.
Proof.
  induction s as [|c s IH]; [done|]. simpl.
  destruct (isspace c); simpl; lia.
Qed.

Lemma length_rstrip s : (String.length (rstrip s) ≤ String.length s)%nat.
Proof.
  induction s as [|c s IH]; [done|]. simpl.
  destruct (rstrip s) as [|d r]; [destruct (isspace c)|]; simpl in *; lia.
Qed.

Lemma length_str_map (f : ascii → ascii) s :
  String.length (str_map f s) = String.length s.
Proof. induction s as [|c s IH]; [done|]. simpl. by rewrite IH. Qed.

Lemma str_head_lstrip s c :
  str_head (lstrip s) = Some c → isspace c = false.
Proof.
  induction s as [|d s IH]; [done|]. simpl.
  destruct (isspace d) eqn:Hd; [done|]. simpl. by intros [= <-].
Qed.

Lemma str_head_rstrip s c :
  str_head (rstrip s) = Some c → str_head s = Some c.
Proof.
  destruct s as [|d s]; [done|]. simpl.
  destruct (rstrip s); [destruct (isspace d)|]; done.
Qed.

Lemma str_last_rstrip s c :
  str_last (rstrip s) = Some c → isspace c = false.
Proof.
  induction s as [|d s IH]; [done|]. simpl.
  destruct (rstrip s) as [|e r] eqn:Hr.
  - destruct (isspace d) eqn:Hd; [done|]. simpl. by intros [= <-].
  - simpl. simpl in IH. done.
Qed.

Lemma str_map_id (f : ascii → ascii) (P : ascii → bool) s :
  (∀ c, P c = true → f c = c) → str_forall P s = true → str_map f s = s.
Proof.
  intros Hf. induction s as [|c s IH]; [done|]. simpl. intros Hs.
  apply andb_true_iff in Hs as [Hc Hs]. by rewrite (Hf c Hc), IH.
Qed.

Lemma sanitize_filename_safe name :
  str_forall safe_char (sanitize_filename name) = true.
Proof.
  rewrite sanitize_filename_strip. unfold strip, sanitize_spec.
  apply str_forall_rstrip, str_forall_lstrip, str_forall_map.
  apply safe_sanitize_char.
Qed.

Lemma sanitize_filename_trimmed name c :
  (str_head (sanitize_filename name) = Some c → isspace c = false)
  ∧ (str_last (sanitize_filename name) = Some c → isspace c = false).
Proof.
  rewrite sanitize_filename_strip. unfold strip. split.
  - intros Hhead. apply str_head_rstrip in Hhead.
    by apply str_head_lstrip in Hhead.
  - apply str_last_rstrip.
Qed.

(** X15: A sanitized name is made of alphanumerics and of the characters of
    ["._-(), "] only (no path separator, no control character), neither
    starts nor ends with a space, and is not longer than the original
    name. *)
Theorem X15_sanitized_name_is_safe name :
  ascii_only name = true →
  str_forall safe_char (sanitize_filename name) = true
  ∧ char_in "/" (sanitize_filename name) = false
  ∧ char_in "\" (sanitize_filename name) = false
  ∧ str_head (sanitize_filename name) ≠ Some " "%char
  ∧ str_last (sanitize_filename name) ≠ Some " "%char
  ∧ (String.length (sanitize_filename name) ≤ String.length name)%nat.
Proof.
  intros _. pose proof (sanitize_filename_safe name) as Hsafe.
  assert (Hnot : ∀ c s, safe_char c = false →
            str_forall safe_char s = true → char_in c s = false).
  { intros c s Hc. induction s as [|d s IH]; [done|]. simpl.
    intros Hs. apply andb_true_iff in Hs as [Hd Hs]. rewrite IH by done.
    rewrite orb_false_r. apply bool_decide_eq_false. intros ->.
    by rewrite Hc in Hd. }
  split; [done|]. split; [by apply Hnot|]. split; [by apply Hnot|].
  destruct (sanitize_filename_trimmed name " "%char) as [Hhead Hlast].
  split; [by intros H%Hhead|]. split; [by intros H%Hlast|].
  rewrite sanitize_filename_strip. unfold strip, sanitize_spec.
  etrans; [apply length_rstrip|]. etrans; [apply length_lstrip|].
  by rewrite length_str_map.
Qed.

Lemma X15_sanitized_name_is_safe_witness :
  ascii_only " ..\secret/key\x01.bin " = true
  ∧ sanitize_filename " ..\secret/key\x01.bin " = ".._secret_key_x01.bin"
  ∧ char_in "/" (sanitize_filename " ..\secret/key\x01.bin ") = false.
Proof.
  assert (Hascii : ascii_only " ..\secret/key\x01.bin " = true)
    by reflexivity.
  destruct (X15_sanitized_name_is_safe _ Hascii) as (_ & Hslash & _).
  split; [exact Hascii|]. split; [reflexivity|exact Hslash].
Defined.

(** X16: Sanitizing is idempotent: a sanitized name is left unchanged. *)
Theorem X16_sanitize_idempotent name :
  ascii_only name = true →
  sanitize_filename (sanitize_filename name) = sanitize_filename name.
Proof.
  intros _. set (t := sanitize_filename name).
  pose proof (sanitize_filename_safe name) as Hsafe. fold t in Hsafe.
  rewrite (sanitize_filename_strip t). unfold sanitize_spec.
  rewrite (str_map_id sanitize_char safe_char t)
    by (done || apply sanitize_char_safe_id).
  unfold strip. rewrite lstrip_id.
  - apply rstrip_id. intros c Hc.
    by apply (proj2 (sanitize_filename_trimmed name c)).
  - intros c Hc. by apply (proj1 (sanitize_filename_trimmed name c)).
Qed.

Lemma X16_sanitize_idempotent_witness :
  ascii_only " my file?.bmp" = true
  ∧ sanitize_filename " my file?.bmp" = "my file_.bmp"
  ∧ sanitize_filename (sanitize_filename " my file?.bmp") = "my file_.bmp".
Proof.
  assert (Hascii : ascii_only " my file?.bmp" = true) by reflexivity.
  pose proof (X16_sanitize_idempotent _ Hascii) as Hidem.
  split; [exact Hascii|]. split; [reflexivity|].
  rewrite Hidem. reflexivity.
Defined.
End SanitizeMore.

Section ScannerMore.
Import Bitmap BitmapSpec BitmapMoreSpec.
Implicit Types (data raw : list byte) (e : entry) (pos : nat).

Lemma length_string_of_list (l : list ascii) :
  String.length (String.string_of_list_ascii l) = length l.
Proof. induction l as [|c l IH]; [done|]. simpl. by rewrite IH. Qed.

Lemma length_decode_ascii_ignore raw :
  (String.length (decode_ascii_ignore raw) ≤ length raw)%nat.
Proof.
  unfold decode_ascii_ignore.
  rewrite length_string_of_list, length_fmap. apply length_filter.
Qed.

Lemma length_decode_raw_name raw :
  (String.length (decode_raw_name raw) ≤ length raw)%nat.
Proof.
  destruct (decode_raw_name_spec raw) as (kept & -> & Hpre & _).
  etrans; [apply length_decode_ascii_ignore|]. by apply prefix_length.
Qed.

Lemma ascii_of_byte_zero (b : byte) :
  Ascii.ascii_of_byte b = "000"%char → b = Byte.x00.
Proof.
  intros Hb. apply (f_equal Ascii.byte_of_ascii) in Hb.
  by rewrite Ascii.byte_of_ascii_of_byte in Hb.
Qed.

Lemma decode_ascii_ignore_no_null raw :
  Byte.x00 ∉ raw → char_in "000" (decode_ascii_ignore raw) = false.
Proof.
  unfold decode_ascii_ignore. induction raw as [|b l IH]; [done|].
  intros Hnot. apply not_elem_of_cons in Hnot as [Hb Hl].
  rewrite filter_cons. case_decide; [|by apply IH].
  rewrite fmap_cons. cbn [String.string_of_list_ascii char_in].
  rewrite IH by done. rewrite orb_false_r. apply bool_decide_eq_false.
  intros Hzero. symmetry in Hzero. by apply ascii_of_byte_zero in Hzero.
Qed.

Lemma decode_raw_name_no_null raw :
  char_in "000" (decode_raw_name raw) = false.
Proof.
  destruct (decode_raw_name_spec raw) as (kept & -> & _ & Hnot & _).
  by apply decode_ascii_ignore_no_null.
Qed.

Lemma elem_of_scan data entries e :
  scan data = Some entries → e ∈ entries →
  ∃ pos, is_match data pos ∧ accepted data pos = Some e.
Proof.
  rewrite scan_spec. intros [= <-] He.
  apply list_elem_of_omap in He as (pos & Hpos & Hacc).
  exists pos. split; [|done]. by apply elem_of_match_positions.
Qed.

(** X17: Every descriptor that the scan collects sits at an occurrence of the
    signature with at least one name byte inside the buffer; its data offset
    lies inside the buffer, its width and height are unsigned 32-bit values,
    and its name has 1 to 64 ASCII characters, none of them null. *)
Theorem X17_descriptor_invariants data entries e :
  scan data = Some entries → e ∈ entries →
  ∃ pos,
    meta_pos e = Z.of_nat pos ∧ is_match data pos
    ∧ (pos + 33 ≤ length data)%nat
    ∧ 0 ≤ e_offset e < Z.of_nat (length data)
    ∧ 0 ≤ e_width e < 2 ^ 32 ∧ 0 ≤ e_height e < 2 ^ 32
    ∧ (1 ≤ String.length (original_name e) ≤ 64)%nat
    ∧ ascii_only (original_name e) = true
    ∧ char_in "000" (original_name e) = false.
Proof.
  intros Hscan He.
  destruct (elem_of_scan _ _ _ Hscan He) as (pos & Hmatch & Hacc).
  apply accepted_spec in Hacc as (Hwords & -> & Hoff & Hname).
  exists pos. unfold descriptor_at in *.
  cbn [meta_pos e_offset e_width e_height original_name] in *.
  pose proof (length_decode_raw_name (slice data (pos + 32) (pos + 96)))
    as Hlen.
  rewrite length_slice in Hlen. apply string_length_pos in Hname.
  pose proof (u32_le_at_range data (pos + 20)).
  pose proof (u32_le_at_range data (pos + 24)).
  pose proof (u32_le_at_range data (pos + 28)).
  split; [done|]. split; [done|]. split; [lia|]. split; [lia|].
  split; [done|]. split; [done|]. split; [lia|].
  split; [apply decode_raw_name_ascii_only|apply decode_raw_name_no_null].
Qed.

Lemma X17_descriptor_invariants_witness :
  scan one_record = Some [mkEntry 8 0 2 1 "a/b"]
  ∧ ∃ pos, meta_pos (mkEntry 8 0 2 1 "a/b") = Z.of_nat pos
           ∧ is_match one_record pos
           ∧ (pos + 33 ≤ length one_record)%nat.
Proof.
  assert (Hscan : scan one_record = Some [mkEntry 8 0 2 1 "a/b"])
    by reflexivity.
  split; [exact Hscan|].
  destruct (X17_descriptor_invariants one_record _ (mkEntry 8 0 2 1 "a/b")
              Hscan) as (pos & Hpos & Hmatch & Hfit & _); [left|].
  by exists pos.
Defined.

(** X18: The descriptors come in the order of their metadata positions, which
    strictly increase: one descriptor at most per occurrence of the
    signature, so never more than the buffer has bytes. *)
Theorem X18_descriptors_in_scan_order data entries :
  scan data = Some entries →
  StronglySorted Z.lt (meta_pos <$> entries)
  ∧ (length entries ≤ length (match_positions data))%nat
  ∧ (length entries ≤ length data)%nat.
Proof.
  rewrite scan_spec. intros [= <-].
  assert (Hsorted : ∀ l : list nat, StronglySorted lt l →
            StronglySorted Z.lt (meta_pos <$> omap (accepted data) l)).
  { induction 1 as [|p l Hl IH Hall]; [constructor|]. simpl.
    destruct (accepted data p) as [e|] eqn:Hacc; [|done].
    rewrite fmap_cons. constructor; [done|].
    apply Forall_forall. intros z Hz.
    apply list_elem_of_fmap in Hz as (e' & -> & He').
    apply list_elem_of_omap in He' as (q & Hq & Hacc').
    apply accepted_spec in Hacc as (_ & -> & _).
    apply accepted_spec in Hacc' as (_ & -> & _).
    unfold descriptor_at. cbn [meta_pos].
    pose proof (proj1 (Forall_forall _ _) Hall q Hq) as Hlt.
    cbv beta in Hlt. by apply Nat2Z.inj_lt. }
  assert (Hlen : ∀ l : list nat,
            (length (omap (accepted data) l) ≤ length l)%nat).
  { induction l as [|p l IH]; [done|].
    change (omap (accepted data) (p :: l))
      with (match accepted data p with
            | Some e => e :: omap (accepted data) l
            | None => omap (accepted data) l
            end).
    destruct (accepted data p); cbn [length]; lia. }
  split; [apply Hsorted, filter_seq_sorted|]. split; [apply Hlen|].
  etrans; [apply Hlen|]. unfold match_positions.
  etrans; [apply length_filter|]. by rewrite length_seq.
Qed.

Lemma X18_descriptors_in_scan_order_witness :
  scan one_record = Some [mkEntry 8 0 2 1 "a/b"]
  ∧ (length [mkEntry 8 0 2 1 "a/b"] ≤ length (match_positions one_record))%nat.
Proof.
  assert (Hscan : scan one_record = Some [mkEntry 8 0 2 1 "a/b"])
    by reflexivity.
  split; [exact Hscan|].
  destruct (X18_descriptors_in_scan_order one_record _ Hscan)
    as (_ & Hlen & _).
  exact Hlen.
Defined.
End ScannerMore.

Section LoopMore.
Import Bitmap BitmapSpec BitmapMoreSpec.
Implicit Types (data : list byte) (entries rest scanned : list entry)
  (e : entry) (m : meta) (st : run_state) (i : nat).

(** Writing a list of files, one after the other. *)
Lemma write_all_snoc (dir : gmap string file) fls f :
  write_all dir (fls ++ [f]) = <[f.1 := Binary f.2]> (write_all dir fls).
Proof. unfold write_all. by rewrite foldl_app. Qed.



(** The loop writes no manifest. *)
Lemma write_all_lookup_Json (dir : gmap string file) fls name records :
  write_all dir fls !! name = Some (Json records) →
  dir !! name = Some (Json records).
Proof.
  induction fls as [|f fls IH] using rev_ind; [done|].
  rewrite write_all_snoc. intros Hlook.
  apply lookup_insert_Some in Hlook as [[_ [=]]|[_ Hlook]]. by apply IH.
Qed.

(** The records and the files of the loop, side by side: every file is
    written under a name that can be opened, after the files of the
    records before it. *)
Lemma process_loop_produced data entries limit rest i st st' status :
  process_loop data entries limit i rest st = (st', status) →
  drop i entries = rest →
  ∃ recs fls,
    manifest st' = manifest st ++ recs
    ∧ files st' = write_all (files st) fls
    ∧ Forall2 (produced data entries limit) recs fls
    ∧ Forall (λ f, names_a_directory f.1 = false) fls.
Proof.
  revert i st. induction rest as [|e rest IH]; intros i st Hrun Hdrop.
  - injection Hrun as <- <-. exists [], []. rewrite !(right_id_L [] (++)).
    by repeat split.
  - assert (Hat : entries !! i = Some e).
    { rewrite <- (Nat.add_0_r i), <- lookup_drop. by rewrite Hdrop. }
    assert (Hnext : drop (S i) entries = rest).
    { rewrite (drop_S _ _ _ Hat) in Hdrop. by injection Hdrop. }
    assert (Hsize : raw_size_at entries limit (Z.of_nat (length data)) i
                      (e_offset e)
                    = raw_size_of entries limit (Z.of_nat (length data)) i)
      by (unfold raw_size_of; by rewrite Hat).
    simpl in Hrun. rewrite Hsize in Hrun.
    case_decide as Hdrop_it; [by apply (IH (S i) st)|].
    assert (Hstop : (st, status) = (st', status) →
              ∃ recs fls,
                manifest st' = manifest st ++ recs
                ∧ files st' = write_all (files st) fls
                ∧ Forall2 (produced data entries limit) recs fls
                ∧ Forall (λ f, names_a_directory f.1 = false) fls).
    { intros [= <-]. exists [], []. rewrite !(right_id_L [] (++)).
      by repeat split. }
    destruct (process_entry data i e _) as [[m f]|[]] eqn:Hentry;
      [|injection Hrun as <- <-; by apply Hstop].
    unfold write_binary in Hrun.
    destruct (names_a_directory f.1) eqn:Hname;
      [injection Hrun as <- <-; by apply Hstop|].
    destruct (IH (S i) _ Hrun Hnext)
      as (recs & fls & Hman & Hfiles & Hall & Hnames).
    destruct (process_entry_fields _ _ _ _ _ _ Hentry) as (Hid & _).
    exists (m :: recs), (f :: fls). simpl in Hman, Hfiles.
    rewrite <- (assoc_L (++)) in Hman.
    split; [done|]. split; [done|]. split.
    + constructor; [|done].
      exists e. rewrite Hid. split; [done|]. split; [lia|done].
    + by constructor.
Qed.

(** The files of a run: those of the loop, and the manifest when the loop
    has ended without an exception. *)
Lemma process_produced data scanned :
  let entries := sort_by_offset scanned in
  let limit := data_end_limit entries (Z.of_nat (length data)) in
  ∃ fls,
    Forall2 (produced data entries limit)
      (manifest (process data scanned).1) fls
    ∧ Forall (λ f, names_a_directory f.1 = false) fls
    ∧ files (process data scanned).1
      = match (process data scanned).2 with
        | None =>
            <[MANIFEST_NAME := Json (manifest (process data scanned).1)]>
              (write_all ∅ fls)
        | Some _ => write_all ∅ fls
        end.
Proof.
  intros entries limit. unfold process. fold entries limit.
  destruct (process_loop data entries limit 0 entries (mkState [] ∅))
    as [st status] eqn:Hrun.
  destruct (process_loop_produced _ _ _ _ _ _ _ _ Hrun (drop_0 _))
    as (recs & fls & Hman & Hfiles & Hall & Hnames).
  simpl in Hman, Hfiles. exists fls.
  destruct status as [err|]; simpl; by rewrite Hman, Hfiles.
Qed.

(** The bytes that boundary inference gives to an entry end inside the
    buffer, at the offset of the next entry when there is one. *)
Lemma raw_size_of_inside entries limit file_size i e :
  Forall (inside file_size) entries →
  limit = data_end_limit entries file_size →
  entries !! i = Some e →
  e_offset e + raw_size_of entries limit file_size i ≤ file_size
  ∧ ∀ next, entries !! (i + 1)%nat = Some next →
      e_offset e + raw_size_of entries limit file_size i = e_offset next.
Proof.
  intros Hall -> Hi. unfold raw_size_of, raw_size_at. rewrite Hi.
  pose proof (lookup_lt_Some _ _ _ Hi) as Hlt.
  destruct (entries !! (i + 1)%nat) as [next|] eqn:Hnext.
  - pose proof (lookup_lt_Some _ _ _ Hnext).
    rewrite decide_True by lia. split.
    + pose proof (proj1 (Forall_forall _ _) Hall next
                    (list_elem_of_lookup_2 _ _ _ Hnext)) as [? _]. lia.
    + intros ? [= <-]. lia.
  - apply lookup_ge_None in Hnext. rewrite decide_False by lia.
    split; [|done].
    assert (Hne : entries ≠ []) by (by destruct entries).
    destruct (data_end_limit_spec entries file_size Hne) as [Hin _].
    apply list_elem_of_fmap in Hin as (e' & Hlimit & He').
    pose proof (proj1 (Forall_forall _ _) Hall e' He') as [_ Hmeta].
    case_decide; lia.
Qed.

Lemma scan_inside data entries :
  scan data = Some entries →
  Forall (inside (Z.of_nat (length data))) entries.
Proof.
  intros Hscan. apply Forall_forall. intros e He.
  destruct (elem_of_scan _ _ _ Hscan He) as (pos & Hmatch & Hacc).
  apply accepted_spec in Hacc as (Hwords & -> & Hoff & _).
  unfold inside, descriptor_at in *. cbn [e_offset meta_pos] in *.
  pose proof (u32_le_at_range data (pos + 20)). lia.
Qed.


(** X19: The records of a run on the content of a file: every record covers a
    range of at least one byte that lies inside the buffer, and the range of
    a record ends at or before the start of the range of the next one, so
    no byte of the buffer goes to two resources. *)
Theorem X19_resource_ranges_inside_and_disjoint data st status :
  main data = Some (st, status) →
  (∀ m, m ∈ manifest st →
     0 ≤ original_offset m ∧ 0 < original_raw_size m
     ∧ original_offset m + original_raw_size m ≤ Z.of_nat (length data))
  ∧ (∀ a b ma mb, (a < b)%nat →
       manifest st !! a = Some ma → manifest st !! b = Some mb →
       original_offset ma + original_raw_size ma ≤ original_offset mb).
Proof.
  unfold main. destruct (scan data) as [scanned|] eqn:Hscan; [|done].
  simpl. intros [= Hrun].
  pose proof (scan_inside _ _ Hscan) as Hinside.
  set (entries := sort_by_offset scanned).
  set (file_size := Z.of_nat (length data)).
  set (limit := data_end_limit entries file_size).
  assert (Hinside' : Forall (inside file_size) entries).
  { apply Forall_forall. intros e He.
    apply (proj1 (Forall_forall _ _) Hinside).
    by rewrite <- (sort_by_offset_perm scanned). }
  destruct (process_spec data scanned) as (Hdesc & _).
  rewrite Hrun in Hdesc. cbn [fst] in Hdesc.
  fold entries file_size limit in Hdesc.
  assert (Hrec : ∀ m, m ∈ manifest st →
    ∃ e, entries !! m_id m = Some e ∧ original_offset m = e_offset e
         ∧ original_raw_size m = raw_size_of entries limit file_size (m_id m)
         ∧ 0 < original_raw_size m).
  { intros m Hm.
    destruct (proj1 (Forall_forall _ _) Hdesc m Hm)
      as (e & He & _ & Hoff & _ & _ & Hraw & Hpos).
    by exists e. }
  split.
  - intros m Hm. destruct (Hrec m Hm) as (e & He & Hoff & Hraw & Hpos).
    destruct (raw_size_of_inside entries limit file_size _ e Hinside'
                eq_refl He) as [Hend _].
    pose proof (proj1 (Forall_forall _ _) Hinside' e
                  (list_elem_of_lookup_2 _ _ _ He)) as [? _].
    rewrite Hoff, Hraw. lia.
  - intros a b ma mb Hab Ha Hb.
    pose proof (manifest_ids_increasing data scanned a b ma mb Hab) as Hids.
    rewrite Hrun in Hids. cbn [fst] in Hids. specialize (Hids Ha Hb).
    destruct (Hrec ma (list_elem_of_lookup_2 _ _ _ Ha))
      as (ea & Hea & Hoffa & Hrawa & _).
    destruct (Hrec mb (list_elem_of_lookup_2 _ _ _ Hb))
      as (eb & Heb & Hoffb & _).
    destruct (raw_size_of_inside entries limit file_size _ ea Hinside'
                eq_refl Hea) as [_ Hnext].
    pose proof (lookup_lt_Some _ _ _ Heb) as Hlt.
    destruct (lookup_lt_is_Some_2 entries (m_id ma + 1)) as [next Hn]; [lia|].
    rewrite Hoffa, Hrawa, (Hnext next Hn), Hoffb.
    apply (sorted_lookup_le entries (m_id ma + 1) (m_id mb));
      [apply sort_by_offset_sorted|lia|done..].
Qed.

Lemma X19_resource_ranges_witness :
  ∃ st,
    main two_records = Some (st, None)
    ∧ original_offset <$> manifest st = [0; 100]
    ∧ original_raw_size <$> manifest st = [100; 100]
    ∧ ∀ m, m ∈ manifest st →
        original_offset m + original_raw_size m
        ≤ Z.of_nat (length two_records).
Proof.
  assert (Hrun : ∃ st, main two_records = Some (st, None))
    by (eexists; vm_compute; reflexivity).
  destruct Hrun as [st Hrun]. exists st.
  destruct (X19_resource_ranges_inside_and_disjoint _ _ _ Hrun)
    as [Hinside _].
  split; [exact Hrun|].
  assert (Hst : Some (st, @None run_exn) = main two_records)
    by (by rewrite Hrun).
  vm_compute in Hst. injection Hst as ->.
  split; [reflexivity|]. split; [reflexivity|].
  intros m Hm. by destruct (Hinside m Hm) as (_ & _ & ?).
Defined.
End LoopMore.

Section FilesMore.
Import Bitmap BitmapSpec BitmapMoreSpec.
Implicit Types (data raw : list byte) (e : entry) (m : meta)
  (width height : Z).

Lemma length_restride_to_bmp raw width height :
  0 ≤ width → 0 ≤ height →
  Z.of_nat (length (restride_to_bmp raw width height))
  = height * Z.land (width * 2 + 3) (Z.lnot 3).
Proof.
  intros Hw Hh. rewrite restride_to_bmp_rows by done.
  destruct (dst_stride_bounds width) as (_ & Hbounds & _).
  cbv zeta in Hbounds.
  rewrite length_bmp_rows; [nia|]. rewrite length_zero_padded. nia.
Qed.

(** What the loop body returns, by the flag of the record. *)
Lemma process_entry_inv data i e raw_size m f :
  process_entry data i e raw_size = Ok (m, f) →
  f.1 = saved_filename m
  ∧ byte_swap_applied m = is_image m
  ∧ is_image m = image_test (e_width e) (e_height e) raw_size
  ∧ (is_image m = false →
     f.2 = raw_data_of data e raw_size
     ∧ bmp_header_size m = 0%nat ∧ row_padding_bytes m = 0)
  ∧ (is_image m = true →
     header_fields_fit (e_width e) (e_height e)
     ∧ f.2 = bmp_header_bytes (e_width e) (e_height e)
             ++ restride_to_bmp (swap_bytes_16bit (raw_data_of data e raw_size))
                  (e_width e) (e_height e)
     ∧ bmp_header_size m = 66%nat
     ∧ row_padding_bytes m
       = Z.land (e_width e * 2 + 3) (Z.lnot 3) - e_width e * 2).
Proof.
  unfold process_entry. destruct (image_test _ _ _) eqn:Htest.
  - rewrite get_stride_info_eq, create_bmp_header_eq.
    case_decide as Hfits; [|done].
    change (Ok ?x ≫= ?g) with (g x). cbv beta. intros [= <- <-].
    cbn [fst snd is_image byte_swap_applied bmp_header_size
         row_padding_bytes saved_filename].
    by repeat apply conj.
  - intros [= <- <-].
    cbn [fst snd is_image byte_swap_applied bmp_header_size
         row_padding_bytes saved_filename].
    by repeat apply conj.
Qed.


(** The name of the file that the loop body returns. *)
Lemma process_entry_save_name data i e raw_size m f :
  process_entry data i e raw_size = Ok (m, f) →
  f.1 = saved_filename m ∧ f.1 = save_name e raw_size.
Proof.
  intros Hentry.
  destruct (process_entry_saved_filename _ _ _ _ _ _ Hentry) as [Hname Hsaved].
  destruct (process_entry_inv _ _ _ _ _ _ Hentry) as (_ & _ & Htest & _).
  split; [done|]. unfold save_name. by rewrite Hname, Hsaved, Htest.
Qed.




(** X21: The transformations that a record reports are those applied to its
    file: the byte swap is reported exactly for images; an image reports the
    66 bytes of header and the 0 or 2 padding bytes per row of its width,
    and it has a positive width and height; any other record reports no
    header and no padding, and is saved under its sanitized name. *)
Theorem X21_record_reports_transformations data scanned m :
  m ∈ manifest (process data scanned).1 →
  byte_swap_applied m = is_image m
  ∧ (is_image m = true →
     m_width m > 0 ∧ m_height m > 0
     ∧ Z.abs (original_raw_size m - m_width m * m_height m * 2) < 4096
     ∧ bmp_header_size m = 66%nat
     ∧ row_padding_bytes m
       = Z.land (m_width m * 2 + 3) (Z.lnot 3) - m_width m * 2
     ∧ (row_padding_bytes m = 0 ∨ row_padding_bytes m = 2))
  ∧ (is_image m = false →
     bmp_header_size m = 0%nat ∧ row_padding_bytes m = 0
     ∧ saved_filename m = sanitize_filename (original_firmware_name m)).
Proof.
  intros Hm. apply list_elem_of_lookup in Hm as [k Hk].
  pose proof (process_produced data scanned) as Hprod. cbv zeta in Hprod.
  destruct Hprod as (fls & Hall & _).
  destruct (Forall2_lookup_l _ _ _ _ _ Hall Hk)
    as (f & _ & e & _ & _ & Hentry).
  destruct (process_entry_fields _ _ _ _ _ _ Hentry)
    as (_ & Hname & _ & Hraw & Hw & Hh).
  destruct (process_entry_inv _ _ _ _ _ _ Hentry)
    as (_ & Hswap & Htest & Hplain & Himage).
  destruct (process_entry_saved_filename _ _ _ _ _ _ Hentry) as [_ Hsaved].
  split; [done|]. split.
  - intros Hyes. destruct (Himage Hyes) as (_ & _ & Hhdr & Hpad).
    rewrite Hyes in Htest. symmetry in Htest.
    apply image_test_spec in Htest as (Hwpos & Hhpos & Hclose).
    rewrite Hw, Hh, Hraw.
    destruct (dst_stride_bounds (e_width e)) as (_ & _ & Hcases & _).
    cbv zeta in Hcases. rewrite Hpad. by repeat apply conj.
  - intros Hno. destruct (Hplain Hno) as (_ & Hhdr & Hpad).
    rewrite Hno in Hsaved. rewrite Hname. by repeat apply conj.
Qed.

Lemma X21_record_reports_witness :
  ∃ m, m ∈ manifest (process two_records
                       [mkEntry 296 0 2 1 "a"; mkEntry 200 100 0 0 "b"]).1
       ∧ is_image m = true ∧ byte_swap_applied m = true
       ∧ bmp_header_size m = 66%nat ∧ row_padding_bytes m = 0.
Proof.
  eexists. split; [vm_compute; left|].
  match goal with |- is_image ?m = _ ∧ _ =>
    assert (Hm : m ∈ manifest (process two_records
                  [mkEntry 296 0 2 1 "a"; mkEntry 200 100 0 0 "b"]).1)
      by (vm_compute; left);
    destruct (X21_record_reports_transformations _ _ _ Hm)
      as (Hswap & Himage & _)
  end.
  split; [reflexivity|]. split; [exact Hswap|].
  destruct (Himage eq_refl) as (_ & _ & _ & Hhdr & _).
  split; [exact Hhdr|reflexivity].
Defined.

(** X22: When the source stride [width*2] is a multiple of 4 no padding is
    added: the result has exactly [width*2*height] bytes, the input cut or
    extended with zero bytes to that length, and an input of that length is
    returned as it is. Otherwise every row gets two zero bytes. *)
Theorem X22_restride_aligned_width raw width height :
  0 ≤ width → 0 ≤ height →
  let n := Z.to_nat (width * 2 * height) in
  ((width * 2) mod 4 = 0 →
     get_stride_info width = (width * 2, width * 2, 0)
     ∧ restride_to_bmp raw width height = take n (zero_padded raw n)
     ∧ (length raw = n → restride_to_bmp raw width height = raw))
  ∧ ((width * 2) mod 4 ≠ 0 →
     get_stride_info width = (width * 2, width * 2 + 2, 2)
     ∧ Z.of_nat (length (restride_to_bmp raw width height))
       = width * 2 * height + 2 * height).
Proof.
  intros Hw Hh n.
  destruct (dst_stride_bounds width) as (Hmod & Hbounds & Hcases & Haligned).
  cbv zeta in Hmod, Hbounds, Hcases, Haligned. split.
  - intros Hal. specialize (Haligned Hal).
    rewrite get_stride_info_eq, Haligned, Z.sub_diag. split; [done|].
    assert (Hrows : restride_to_bmp raw width height
                    = take n (zero_padded raw n)).
    { rewrite restride_to_bmp_rows, Haligned, Z.sub_diag by done.
      simpl Z.to_nat. rewrite bmp_rows_unpadded. fold n. f_equal.
      unfold n. nia. }
    split; [done|]. intros Hlen. rewrite Hrows.
    rewrite zero_padded_short by lia. apply take_ge. lia.
  - intros Hodd.
    assert (Hdst : Z.land (width * 2 + 3) (Z.lnot 3) = width * 2 + 2).
    { revert Hmod Hodd. Z.to_euclidean_division_equations. lia. }
    rewrite get_stride_info_eq, Hdst. split; [f_equal; lia|].
    rewrite length_restride_to_bmp, Hdst by done. lia.
Qed.

Lemma X22_restride_aligned_witness :
  0 ≤ 4 ∧ 0 ≤ 2 ∧ (4 * 2) mod 4 = 0
  ∧ restride_to_bmp sample_image 4 2 = sample_image
  ∧ length (restride_to_bmp sample_image 3 2) = (3 * 2 * 2 + 2 * 2)%nat.
Proof.
  assert (H4 : 0 ≤ 4) by lia. assert (H2 : 0 ≤ 2) by lia.
  assert (Hal : (4 * 2) mod 4 = 0) by reflexivity.
  destruct (X22_restride_aligned_width sample_image 4 2 H4 H2)
    as [Haligned _].
  destruct (Haligned Hal) as (_ & _ & Hid).
  split; [exact H4|]. split; [exact H2|]. split; [exact Hal|].
  split; [apply Hid; reflexivity|reflexivity].
Defined.
End FilesMore.

Section Completion.
Import Bitmap BitmapSpec BitmapMoreSpec.
Implicit Types (data : list byte) (entries rest : list entry) (e : entry)
  (st : run_state) (i : nat).

(** An exception that ends the loop comes from the body, on an entry of
    positive size: from the header of an image, or from the [open] of a
    name that denotes a directory. *)
Lemma process_loop_raise data entries limit rest i st st' err :
  process_loop data entries limit i rest st = (st', Some err) →
  drop i entries = rest →
  ∃ k e,
    entries !! k = Some e
    ∧ 0 < raw_size_of entries limit (Z.of_nat (length data)) k
    ∧ ((process_entry data k e
          (raw_size_of entries limit (Z.of_nat (length data)) k)
        = Raise struct_error
        ∧ err = HeaderStructError)
       ∨ (∃ m f,
            process_entry data k e
              (raw_size_of entries limit (Z.of_nat (length data)) k)
            = Ok (m, f)
            ∧ names_a_directory f.1 = true
            ∧ err = IsADirectoryError (out_path f.1))).
Proof.
  revert i st. induction rest as [|e rest IH]; intros i st Hrun Hdrop;
    [done|].
  assert (Hat : entries !! i = Some e).
  { rewrite <- (Nat.add_0_r i), <- lookup_drop. by rewrite Hdrop. }
  assert (Hnext : drop (S i) entries = rest).
  { rewrite (drop_S _ _ _ Hat) in Hdrop. by injection Hdrop. }
  assert (Hsize : raw_size_at entries limit (Z.of_nat (length data)) i
                    (e_offset e)
                  = raw_size_of entries limit (Z.of_nat (length data)) i)
    by (unfold raw_size_of; by rewrite Hat).
  simpl in Hrun. rewrite Hsize in Hrun.
  case_decide as Hdrop_it; [by apply (IH (S i) st)|].
  destruct (process_entry data i e _) as [[m f]|[]] eqn:Hentry.
  - unfold write_binary in Hrun.
    destruct (names_a_directory f.1) eqn:Hname; [|by apply (IH (S i) _ Hrun)].
    injection Hrun as <- <-. exists i, e. split; [done|]. split; [lia|].
    right. by exists m, f.
  - injection Hrun as <- <-. exists i, e. split; [done|]. split; [lia|].
    by left.
Qed.

Lemma string_length_app (s t : string) :
  String.length (s +:+ t) = (String.length s + String.length t)%nat.
Proof. induction s as [|c s IH]; [done|]. simpl. by rewrite IH. Qed.

(** A bitmap is never saved under a name that denotes a directory. *)
Lemma names_a_directory_bmp_suffix (s : string) :
  names_a_directory (bmp_suffix s) = false.
Proof.
  unfold names_a_directory. apply bool_decide_eq_false. intros Hin.
  apply list_elem_of_In in Hin. simpl in Hin. unfold bmp_suffix in Hin.
  destruct (endswith (lower s) ".bmp") eqn:Hends.
  - destruct Hin as [<-|[<-|[<-|[]]]]; discriminate.
  - destruct Hin as [Heq|[Heq|[Heq|[]]]];
      apply (f_equal String.length) in Heq;
      rewrite string_length_app in Heq; simpl in Heq; lia.
Qed.

(** The header of an image whose pixel data is close to a size below
    [2^31 - 4129] bytes fits its fields. *)
Lemma header_fields_fit_small width height raw_size :
  image_condition width height raw_size →
  raw_size ≤ 2 ^ 31 - 4129 →
  header_fields_fit width height.
Proof.
  intros (Hw & Hh & Hclose) Hsmall. unfold header_fields_fit. cbv zeta.
  destruct (dst_stride_bounds width) as (_ & Hbounds & Hcases & _).
  cbv zeta in Hbounds, Hcases.
  set (d := Z.land (width * 2 + 3) (Z.lnot 3)) in *.
  assert (Harea : width * height * 2 < 2 ^ 31 - 33) by lia.
  assert (Hwle : width ≤ width * height) by nia.
  assert (Hhle : height ≤ width * height) by nia.
  assert (Hdh : d * height ≤ width * height * 2 + 2 * height) by nia.
  assert (0 ≤ d * height) by nia.
  repeat apply conj; lia.
Qed.

(** X23: On a buffer of at most [2^31 - 4129] bytes no [struct.error] ends
    the run: packing a bitmap header can only raise on larger inputs. The
    run completes exactly when no entry of positive size is to be saved
    under a name that denotes a directory ([""], ["."] or [".."]), and the
    manifest then has one record for each entry of positive size. The only
    exception is the [IsADirectoryError] of [open] on such a name, for an
    entry that is not an image; the manifest is then not written and the
    records built so far are those of a prefix of the entries of positive
    size. *)
Theorem X23_small_run_stops_only_at_open data :
  Z.of_nat (length data) ≤ 2 ^ 31 - 4129 →
  ∃ scanned st status,
    scan data = Some scanned
    ∧ main data = Some (st, status)
    ∧ let entries := sort_by_offset scanned in
      let file_size := Z.of_nat (length data) in
      let limit := data_end_limit entries file_size in
      status ≠ Some HeaderStructError
      ∧ (status = None ↔ ∀ i e, ¬ unwritable entries limit file_size i e)
      ∧ (status = None →
         m_id <$> manifest st = kept_ids entries limit file_size
         ∧ files st !! MANIFEST_NAME = Some (Json (manifest st)))
      ∧ (∀ err, status = Some err →
           m_id <$> manifest st `prefix_of` kept_ids entries limit file_size
           ∧ (∀ records, files st !! MANIFEST_NAME ≠ Some (Json records))
           ∧ ∃ i e,
               unwritable entries limit file_size i e
               ∧ image_test (e_width e) (e_height e)
                   (raw_size_of entries limit file_size i) = false
               ∧ err = IsADirectoryError
                         (out_path (sanitize_filename (original_name e)))).
Proof.
  intros Hsmall. pose proof (scan_spec data) as Hscan.
  set (scanned := omap (accepted data) (match_positions data)) in Hscan.
  destruct (process data scanned) as [st status] eqn:Hrun.
  exists scanned, st, status. split; [done|]. split.
  { unfold main. rewrite Hscan. simpl. by rewrite Hrun. }
  intros entries file_size limit.
  assert (Hinside : Forall (inside file_size) entries).
  { apply Forall_forall. intros e' He'.
    apply (proj1 (Forall_forall _ _) (scan_inside _ _ Hscan)).
    by rewrite <- (sort_by_offset_perm scanned). }
  destruct (process_spec data scanned) as (_ & Hpre & Hall).
  rewrite Hrun in Hpre, Hall. cbn [fst snd] in Hpre, Hall.
  fold entries file_size limit in Hpre, Hall.
  pose proof (process_produced data scanned) as Hprod. cbv zeta in Hprod.
  destruct Hprod as (fls & Hprod & Hnames & Hfiles).
  rewrite Hrun in Hprod, Hfiles. cbn [fst snd] in Hprod, Hfiles.
  fold entries file_size limit in Hprod.
  (* What an exception that ends the loop is. *)
  assert (Hraise : ∀ err, status = Some err →
    ∃ i e, unwritable entries limit file_size i e
           ∧ image_test (e_width e) (e_height e)
               (raw_size_of entries limit file_size i) = false
           ∧ err = IsADirectoryError
                     (out_path (sanitize_filename (original_name e)))).
  { intros err ->.
    destruct (process_run data scanned) as [_ Hstatus].
    fold entries file_size limit in Hstatus. rewrite Hrun in Hstatus.
    cbn [snd] in Hstatus.
    destruct (process_loop data entries limit 0 entries (mkState [] ∅))
      as [st0 status0] eqn:Hloop.
    cbn [snd] in Hstatus. subst status0.
    destruct (process_loop_raise _ _ _ _ _ _ _ _ Hloop (drop_0 _))
      as (k & e & He & Hpos & Hcase).
    fold file_size in Hpos, Hcase.
    destruct (raw_size_of_inside _ _ _ _ e Hinside eq_refl He) as [Hend _].
    fold limit in Hend.
    pose proof (proj1 (Forall_forall _ _) Hinside e
                  (list_elem_of_lookup_2 _ _ _ He)) as [Hoff _].
    destruct (image_test (e_width e) (e_height e)
                (raw_size_of entries limit file_size k)) eqn:Htest.
    - exfalso. destruct Hcase as [[Hstruct _]|(m & f & Hok & Hdir & _)].
      + destruct (process_entry_image data k e _ Htest) as [Hiff _].
        apply Hiff in Hstruct. rewrite create_bmp_header_eq in Hstruct.
        rewrite decide_True in Hstruct; [done|].
        apply image_test_spec in Htest.
        eapply header_fields_fit_small; [exact Htest|]. unfold file_size in *.
        lia.
      + destruct (process_entry_save_name _ _ _ _ _ _ Hok) as [_ Hname].
        unfold save_name in Hname. rewrite Htest in Hname.
        rewrite Hname, names_a_directory_bmp_suffix in Hdir. done.
    - destruct (process_entry_raw data k e _ Htest) as (m0 & Hok0 & _).
      destruct Hcase as [[Hstruct _]|(m & f & Hok & Hdir & ->)];
        [by rewrite Hok0 in Hstruct|].
      destruct (process_entry_save_name _ _ _ _ _ _ Hok) as [_ Hname].
      exists k, e. split; [|split; [done|]].
      + split; [done|]. split; [done|]. by rewrite <- Hname.
      + rewrite Hname. unfold save_name. by rewrite Htest. }
  split; [|split; [|split]].
  - intros ->. by destruct (Hraise _ eq_refl) as (? & ? & _ & _ & ?).
  - split.
    + intros -> i e (He & Hpos & Hdir).
      assert (Hkept : i ∈ kept_ids entries limit file_size).
      { unfold kept_ids. apply list_elem_of_filter. split; [done|].
        apply elem_of_seq. pose proof (lookup_lt_Some _ _ _ He). lia. }
      rewrite <- (Hall eq_refl) in Hkept.
      apply list_elem_of_fmap in Hkept as (m & Hid & Hm).
      apply list_elem_of_lookup in Hm as [j Hj].
      destruct (Forall2_lookup_l _ _ _ _ _ Hprod Hj)
        as (f & Hf & e' & He' & _ & Hentry).
      rewrite <- Hid in He'. rewrite He in He'. injection He' as <-.
      destruct (process_entry_save_name _ _ _ _ _ _ Hentry) as [_ Hname].
      pose proof (proj1 (Forall_lookup _ _) Hnames j f Hf) as Hok.
      cbv beta in Hok. rewrite Hname, <- Hid in Hok.
      fold file_size in Hok. by rewrite Hdir in Hok.
    + intros Hnone. destruct status as [err|]; [exfalso|done].
      destruct (Hraise err eq_refl) as (i & e & Hbad & _).
      by apply (Hnone i e).
  - intros ->. split; [by apply Hall|]. rewrite Hfiles.
    apply lookup_insert_eq.
  - intros err ->. split; [done|]. split; [|by apply Hraise].
    rewrite Hfiles. intros records Hjson.
    by apply write_all_lookup_Json in Hjson.
Qed.

Lemma X23_small_run_witness :
  Z.of_nat (length dot_record) ≤ 2 ^ 31 - 4129
  ∧ Z.of_nat (length two_records) ≤ 2 ^ 31 - 4129
  ∧ main dot_record
    = Some (mkState [] ∅,
            Some (IsADirectoryError "extracted_parts/resources/."))
  ∧ ∃ st, main two_records = Some (st, None)
          ∧ m_id <$> manifest st = [0; 1]%nat
          ∧ files st !! "manifest.json" = Some (Json (manifest st)).
Proof.
  assert (Hdot : Z.of_nat (length dot_record) ≤ 2 ^ 31 - 4129)
    by (by vm_compute).
  assert (Hsmall : Z.of_nat (length two_records) ≤ 2 ^ 31 - 4129)
    by (by vm_compute).
  split; [exact Hdot|]. split; [exact Hsmall|]. split.
  - destruct (X23_small_run_stops_only_at_open dot_record Hdot)
      as (scanned & st & status & Hscan & Hrun & _).
    assert (Hc : main dot_record
                 = Some (mkState [] ∅,
                         Some (IsADirectoryError
                                 "extracted_parts/resources/.")))
      by (vm_compute; reflexivity).
    exact Hc.
  - destruct (X23_small_run_stops_only_at_open two_records Hsmall)
      as (scanned & st & status & Hscan & Hrun & Hprops).
    cbv zeta in Hprops. destruct Hprops as (_ & _ & Hdone & _).
    assert (Hnone : status = None).
    { assert (Hc : (λ r, match r with
                         | Some (_, s) => s
                         | None => None
                         end) (main two_records) = None)
        by (vm_compute; reflexivity).
      rewrite Hrun in Hc. exact Hc. }
    subst status. destruct (Hdone eq_refl) as [Hids Hfile].
    exists st. split; [exact Hrun|]. split; [|exact Hfile].
    assert (Hscanned : Some scanned = scan two_records) by (by rewrite Hscan).
    vm_compute in Hscanned. injection Hscanned as ->.
    rewrite Hids. reflexivity.
Defined.
End Completion.

(** * Image classification and conversion *)

Section ImageClaim.
Import Bitmap BitmapSpec BitmapMoreSpec.
Implicit Types (data rec : list byte) (e : entry) (n : nat).

(** Under the image condition the fields of the header fit exactly when
    the width, the height and the file size do. *)
Lemma header_fields_fit_image width height raw_size :
  image_condition width height raw_size →
  header_fields_fit width height
  ↔ width < 2 ^ 31 ∧ height ≤ 2 ^ 31
    ∧ 66 + Z.land (width * 2 + 3) (Z.lnot 3) * height < 2 ^ 32.
Proof.
  intros (Hw & Hh & _). unfold header_fields_fit. cbv zeta.
  destruct (dst_stride_bounds width) as (_ & Hbounds & _).
  cbv zeta in Hbounds.
  set (d := Z.land (width * 2 + 3) (Z.lnot 3)) in *.
  assert (0 ≤ d * height) by nia. split.
  - intros (? & ? & ? & ?). lia.
  - intros (? & ? & ?). repeat apply conj; lia.
Qed.

(** C4, as amended: an entry is classified as an image exactly when
    [width > 0], [height > 0] and [|raw_size - width*height*2| < 4096]. When
    it is not, its raw bytes are written unchanged and the record has
    [is_image] false. When it is, and the width, the height and the size of
    the file fit the 32-bit fields of a bitmap header (width below [2^31],
    height at most [2^31], 66 bytes of header plus the padded rows below
    [2^32]), the record has [is_image] true and the content written is a
    bitmap container: a header of 66 bytes that starts with ["BM"] and
    holds the length of the file, the offset 66 of the pixel data, the
    width, the negated height, 16 bits per pixel, bitfield compression, the
    size of the pixel data and the RGB565 masks, followed by the swapped
    pixels in [height] rows of the destination stride. When the fields do
    not fit, building the header raises [struct.error] and nothing is
    written for the entry. *)
Theorem C4_image_classification (data : list byte) (i : nat) (e : entry)
    (raw_size : Z) :
  let width := e_width e in
  let height := e_height e in
  let pixels :=
    restride_to_bmp (swap_bytes_16bit (raw_data_of data e raw_size))
      width height in
  (image_test width height raw_size = true
     ↔ image_condition width height raw_size)
  ∧ (∀ m f, process_entry data i e raw_size = Ok (m, f) →
       (is_image m = true ↔ image_condition width height raw_size))
  ∧ (¬ image_condition width height raw_size →
       ∃ m, process_entry data i e raw_size
            = Ok (m, (saved_filename m, raw_data_of data e raw_size))
            ∧ is_image m = false)
  ∧ (image_condition width height raw_size →
       (header_fields_fit width height
        ↔ width < 2 ^ 31 ∧ height ≤ 2 ^ 31
          ∧ 66 + Z.land (width * 2 + 3) (Z.lnot 3) * height < 2 ^ 32)
       ∧ (¬ header_fields_fit width height →
          process_entry data i e raw_size = Raise struct_error)
       ∧ (header_fields_fit width height →
          ∃ m header,
            process_entry data i e raw_size
            = Ok (m, (saved_filename m, header ++ pixels))
            ∧ is_image m = true
            ∧ create_bmp_header width height = Ok header
            ∧ length header = 66%nat
            ∧ take 2 header = [Byte.x42; Byte.x4d]
            ∧ u32_le_at header 2 = Z.of_nat (length (header ++ pixels))
            ∧ u32_le_at header 10 = 66
            ∧ u32_le_at header 14 = 40
            ∧ s32_le_at header 18 = width
            ∧ s32_le_at header 22 = - height
            ∧ u16_le_at header 26 = 1
            ∧ u16_le_at header 28 = 16
            ∧ u32_le_at header 30 = 3
            ∧ u32_le_at header 34 = Z.of_nat (length pixels)
            ∧ u32_le_at header 54 = 0xF800
            ∧ u32_le_at header 58 = 0x07E0
            ∧ u32_le_at header 62 = 0x001F
            ∧ Z.of_nat (length pixels)
              = height * Z.land (width * 2 + 3) (Z.lnot 3))).
Proof.
  intros width height pixels.
  pose proof (image_test_spec width height raw_size) as Hspec.
  fold (image_condition width height raw_size) in Hspec.
  split; [done|].
  destruct (image_test width height raw_size) eqn:Htest.
  - destruct (process_entry_image data i e raw_size Htest) as [Hraise Hok].
    fold width height in Hraise, Hok.
    assert (Hcond : image_condition width height raw_size) by by apply Hspec.
    split; [|split; [done|]].
    { intros m f Hrun.
      destruct (create_bmp_header width height) as [header|err] eqn:Hhdr.
      - destruct (Hok header eq_refl) as (m' & Hrun' & Himg & _).
        rewrite Hrun in Hrun'. injection Hrun' as -> ->. by rewrite Himg.
      - by rewrite (proj2 (Hraise err) eq_refl) in Hrun. }
    intros _. split; [by eapply header_fields_fit_image|].
    rewrite create_bmp_header_eq in Hraise, Hok. split.
    + intros Hout. rewrite decide_False in Hraise by done.
      by apply Hraise.
    + intros Hfits. rewrite decide_True in Hok by done.
      destruct (Hok _ eq_refl) as (m & Hrun & Himg & _).
      exists m, (bmp_header_bytes width height).
      destruct (bmp_header_bytes_fields width height Hfits)
        as (Hlen & Hbm & Hsize & Hoff & H40 & Hw & Hh & Hplanes & Hbpp
            & Hcomp & Himage & Hr & Hg & Hb).
      cbv zeta in Hsize, Himage.
      assert (Hpixels : Z.of_nat (length pixels)
                        = height * Z.land (width * 2 + 3) (Z.lnot 3)).
      { unfold image_condition in Hcond.
        unfold pixels. rewrite length_restride_to_bmp by lia. done. }
      rewrite create_bmp_header_eq, decide_True by done.
      rewrite length_app, Nat2Z.inj_add, Hlen, Hpixels, Hsize, Himage.
      rewrite Hlen in Hoff.
      repeat apply conj; try done; lia.
  - destruct (process_entry_raw data i e raw_size Htest)
      as (m & Hrun & Himg & _).
    assert (Hcond : ¬ image_condition width height raw_size).
    { intros Hc. by apply Hspec in Hc. }
    split; [|split; [|done]].
    + intros m' f Hrun'. rewrite Hrun in Hrun'. injection Hrun' as <- <-.
      rewrite Himg. by split.
    + intros _. by exists m.
Qed.

Lemma C4_image_classification_witness :
  image_condition 10 10 204
  ∧ header_fields_fit 10 10
  ∧ image_test 10 10 204 = true
  ∧ image_test 10 10 (200 + 4096) = false
  ∧ image_test 10 10 (200 - 4096) = false
  ∧ ∃ m header,
      process_entry buffer_204 0 ten_by_ten 204
      = Ok (m, (saved_filename m,
                header ++ restride_to_bmp
                            (swap_bytes_16bit buffer_204) 10 10))
      ∧ is_image m = true
      ∧ length header = 66%nat
      ∧ u32_le_at header 2 = 66 + 200
      ∧ s32_le_at header 18 = 10 ∧ s32_le_at header 22 = - 10.
Proof.
  assert (Hcond : image_condition 10 10 204)
    by (unfold image_condition; lia).
  assert (Hfits : header_fields_fit 10 10) by (by vm_compute).
  destruct (C4_image_classification buffer_204 0 ten_by_ten 204)
    as (Htest & _ & _ & Himage).
  destruct (Himage Hcond) as (_ & _ & Hbuilt).
  destruct (Hbuilt Hfits)
    as (m & header & Hrun & Himg & _ & Hlen & _ & Hsize & _ & _ & Hw & Hh & _).
  split; [exact Hcond|]. split; [exact Hfits|]. split; [by apply Htest|].
  split; [reflexivity|]. split; [reflexivity|].
  exists m, header. split; [exact Hrun|]. split; [exact Himg|].
  split; [exact Hlen|]. split; [|split; [exact Hw|exact Hh]].
  rewrite Hsize, length_app, Hlen. reflexivity.
Defined.

(** The scan of a buffer that starts with [n] null bytes. *)
Lemma slice_after_zeros n rec a b :
  slice (replicate n Byte.x00 ++ rec) (n + a) (n + b) = slice rec a b.
Proof.
  unfold slice. rewrite drop_app_add' by (by rewrite length_replicate).
  f_equal. lia.
Qed.

Lemma no_match_in_zeros n rec k :
  (k < n)%nat → ¬ is_match (replicate n Byte.x00 ++ rec) k.
Proof.
  intros Hk. rewrite is_match_alt.
  rewrite drop_app_le by (rewrite length_replicate; lia).
  rewrite drop_replicate. destruct (n - k)%nat as [|d] eqn:Hd; [lia|].
  simpl. discriminate.
Qed.

Lemma is_match_after_zeros n rec k :
  is_match (replicate n Byte.x00 ++ rec) (n + k) ↔ is_match rec k.
Proof.
  unfold is_match. rewrite <- (assoc_L Nat.add).
  by rewrite slice_after_zeros.
Qed.

Lemma filter_match_after_zeros n rec s m :
  filter (is_match (replicate n Byte.x00 ++ rec)) (seq (n + s) m)
  = Nat.add n <$> filter (is_match rec) (seq s m).
Proof.
  revert s. induction m as [|m IH]; intros s; [done|].
  simpl seq. replace (S (n + s)) with (n + S s)%nat by lia.
  destruct (decide (is_match rec s)) as [Hm|Hm].
  - rewrite !filter_cons_True by (done || by apply is_match_after_zeros).
    by rewrite fmap_cons, IH.
  - rewrite !filter_cons_False by (done || by rewrite is_match_after_zeros).
    apply IH.
Qed.

Lemma match_positions_after_zeros n rec :
  match_positions (replicate n Byte.x00 ++ rec)
  = Nat.add n <$> match_positions rec.
Proof.
  unfold match_positions.
  rewrite length_app, length_replicate, seq_app, filter_app.
  rewrite filter_match_none
    by (intros k Hk; apply no_match_in_zeros; lia).
  rewrite <- (Nat.add_0_r (0 + n)), (Nat.add_0_l n).
  apply filter_match_after_zeros.
Qed.

(** The only descriptor of [tall_image n]: an image of 1 x 2^30 pixels at
    offset 0, whose record is at position [n]. *)
Lemma scan_tall_image n :
  scan (tall_image n) = Some [mkEntry (Z.of_nat n) 0 1 (2 ^ 30) "a"].
Proof.
  rewrite scan_spec. unfold tall_image.
  rewrite match_positions_after_zeros.
  set (rec := record_of 0 1 (2 ^ 30) [Byte.x61]).
  assert (Hpos : match_positions rec = [0%nat]) by (by vm_compute).
  rewrite Hpos. simpl fmap. rewrite Nat.add_0_r. simpl omap.
  assert (Hacc : accepted (replicate n Byte.x00 ++ rec) n
                 = Some (mkEntry (Z.of_nat n) 0 1 (2 ^ 30) "a")).
  { apply accepted_spec.
    assert (Hlen : length rec = 96%nat) by reflexivity.
    split; [rewrite length_app, length_replicate, Hlen; lia|].
    split; [|split; [|done]].
    - unfold descriptor_at.
      rewrite !u32_le_at_skip by (rewrite length_replicate; lia).
      rewrite length_replicate, slice_after_zeros.
      replace (n + 20 - n)%nat with 20%nat by lia.
      replace (n + 24 - n)%nat with 24%nat by lia.
      replace (n + 28 - n)%nat with 28%nat by lia.
      assert (H20 : u32_le_at rec 20 = 0) by (by vm_compute).
      assert (H24 : u32_le_at rec 24 = 1) by (by vm_compute).
      assert (H28 : u32_le_at rec 28 = 2 ^ 30) by (by vm_compute).
      assert (Hname : decode_raw_name (slice rec 32 96) = "a")
        by (by vm_compute).
      by rewrite H20, H24, H28, Hname.
    - cbn [e_offset]. rewrite length_app, length_replicate, Hlen. lia. }
  by rewrite Hacc.
Qed.

(** At [n = 2^31] boundary inference gives the entry [2^31] bytes, which
    is the size of 1 x 2^30 pixels of two bytes: the image condition holds,
    and building the header raises, as the size of the file, [66 + 2^32],
    does not fit its field. *)
Lemma tall_image_entry n :
  Z.of_nat n = 2 ^ 31 →
  let e := mkEntry (2 ^ 31) 0 1 (2 ^ 30) "a" in
  let file_size := Z.of_nat (length (tall_image n)) in
  scan (tall_image n) = Some [e]
  ∧ sort_by_offset [e] = [e]
  ∧ raw_size_of [e] (data_end_limit [e] file_size) file_size 0 = 2 ^ 31
  ∧ image_condition (e_width e) (e_height e) (2 ^ 31)
  ∧ process_entry (tall_image n) 0 e (2 ^ 31) = Raise struct_error
  ∧ process (tall_image n) [e] = (mkState [] ∅, Some HeaderStructError).
Proof.
  intros Hn e file_size.
  assert (Hraw : raw_size_of [e] (data_end_limit [e] file_size) file_size 0
                 = 2 ^ 31) by reflexivity.
  assert (Htest : image_test (e_width e) (e_height e) (2 ^ 31) = true)
    by reflexivity.
  assert (Hentry : process_entry (tall_image n) 0 e (2 ^ 31)
                   = Raise struct_error).
  { destruct (process_entry_image (tall_image n) 0 e _ Htest) as [Hiff _].
    apply Hiff. by vm_compute. }
  split; [by rewrite scan_tall_image, Hn|]. split; [done|].
  split; [done|]. split; [by apply image_test_spec|]. split; [done|].
  unfold process. cbv zeta.
  change (sort_by_offset [e]) with [e].
  cbn [process_loop]. fold file_size.
  change (raw_size_at [e] (data_end_limit [e] file_size) file_size 0
            (e_offset e))
    with (raw_size_of [e] (data_end_limit [e] file_size) file_size 0).
  rewrite Hraw, decide_False by lia. by rewrite Hentry.
Qed.

(** The claim as the specification words it fails on an image of
    1 x 2^30 pixels, in a file of 2 GiB and 96 bytes: the scan finds its
    descriptor, boundary inference gives it its [2^31] bytes, the image
    condition holds, and the run ends with [struct.error] before anything
    is written. *)
Lemma C4_huge_image_counterexample :
  ¬ images_converted huge_image
  ∧ scan huge_image = Some [mkEntry (2 ^ 31) 0 1 (2 ^ 30) "a"]
  ∧ image_condition 1 (2 ^ 30) (2 ^ 31)
  ∧ ¬ header_fields_fit 1 (2 ^ 30)
  ∧ main huge_image = Some (mkState [] ∅, Some HeaderStructError).
Proof.
  unfold huge_image.
  assert (Hn : Z.of_nat (Z.to_nat (2 ^ 31)) = 2 ^ 31)
    by (apply Z2Nat.id; lia).
  revert Hn. generalize (Z.to_nat (2 ^ 31)). intros n Hn.
  destruct (tall_image_entry n Hn)
    as (Hscan & Hsort & Hraw & Hcond & Hentry & Hrun).
  split; [|split; [done|split; [done|split]]].
  - intros Hclaim.
    destruct (Hclaim _ 0%nat (mkEntry (2 ^ 31) 0 1 (2 ^ 30) "a") Hscan)
      as (m & content & Hok & _).
    + by rewrite Hsort.
    + rewrite Hsort, Hraw. lia.
    + by rewrite Hsort, Hraw.
    + rewrite Hsort, Hraw in Hok. by rewrite Hentry in Hok.
  - intros (_ & _ & _ & Hfile). by vm_compute in Hfile.
  - unfold main. rewrite Hscan. simpl. by rewrite Hrun.
Qed.
End ImageClaim.
